(** * Ito: the hotkey-triggered capture / context / dispatch core

    A shallow embedding of the orchestration core of the Ito voice
    assistant (Python) and the properties its specification states.

    Layout: the embedding of each class comes first, one module per
    source class, then the lemmas, grouped by class.

    Conventions of the embedding.
    - A Python [str] is a Rocq [string]; comparison is lexicographic on
      character codes, as Python's is on code points.
    - Time is a logical clock in milliseconds ([Z]); an operation that
      reads [time.time()] or [datetime.now()] takes the reading as an
      argument.
    - A thread is a record in a list of threads, its identity the index
      in that list. A block run under [with self._lock] is one atomic
      step; the steps of a thread body are separate transitions chosen
      by a schedule (a list of events).
    - A call to a collaborator outside the core (the ASR handler, the
      processing engine, the context engine, AppleScript) is an argument
      giving what the call returned or raised.
    - The dependency container builds one unbounded [queue.Queue] and
      hands it to every component, so [_update_status] always appends
      (the [if self.status_queue] guard holds, [put_nowait] never raises
      [queue.Full]).  Operations return the statuses and timers they
      produce as a list of effects, which the owner of the queue
      appends.
    - A status on the queue is modelled by its text.  Where the code
      puts a member of [StatusMessage] itself rather than its value (as
      [CommandProcessor.process_command] does with [READY] and [BUSY]),
      the model puts the value of that member. *)

From Stdlib Require Import ZArith Lia Ascii String.
From stdpp Require Import base option list sorting gmap strings.

Local Open Scope string_scope.
Local Open Scope list_scope.
Local Open Scope Z_scope.

(** ** src/types/modes.py, src/types/context.py, src/types/status_messages.py *)

Inductive CommandMode := DICTATION | ACTION.

#[global] Instance CommandMode_eq_dec : EqDecision CommandMode.
Proof. solve_decision. Defined.

Definition default_mode : CommandMode := DICTATION.

(** [Context] is a TypedDict with three keys; a value may be [None]. *)
Record Context := mkContext {
  app_name : option string;
  primary_context : option string;
  page_context : option string;
}.

#[global] Instance Context_eq_dec : EqDecision Context.
Proof. solve_decision. Defined.

Module StatusMessage.
Definition READY := "Ready".
Definition BUSY := "Busy processing previous command".
Definition HOTKEY_PRESSED := "Hotkey pressed, starting command processing...".
Definition PROCESSING_BUSY := "Processing busy, please wait...".
Definition ALREADY_RECORDING := "Already recording...".
Definition RECORDING := "Recording command...".
Definition ERROR_RECORDING := "Error processing audio".
Definition TRANSCRIBING := "Transcribing command...".
(** [TRANSCRIBED.format(text=t)] and [ERROR.format(error=e)]. *)
Definition TRANSCRIBED (text : string) := "Transcribed: '" +:+ text +:+ "'".
Definition ERROR (error : string) := "Error: " +:+ error.
End StatusMessage.

(** What an operation hands to the status channel: a message put on the
    queue now, or a [threading.Timer] that will put one after a delay. *)
Inductive effect :=
  | Emit (msg : string)
  | Timer (delay_ms : Z) (msg : string).

#[global] Instance effect_eq_dec : EqDecision effect.
Proof. solve_decision. Defined.

(** ** Python helpers *)

(** [str.isspace] on one character (code points below 256). *)
Definition isspace (c : ascii) : bool :=
  let n := nat_of_ascii c in
  ((9 <=? n) && (n <=? 13) || (28 <=? n) && (n <=? 32)
   || (n =? 133) || (n =? 160))%nat.

(** [s.lstrip()], [s.rstrip()], [s.strip()]. *)
Fixpoint lstrip (s : string) : string :=
  match s with
  | String c s' => if isspace c then lstrip s' else s
  | EmptyString => EmptyString
  end.

Fixpoint rstrip (s : string) : string :=
  match s with
  | String c s' =>
      match rstrip s' with
      | EmptyString => if isspace c then EmptyString else String c EmptyString
      | r => String c r
      end
  | EmptyString => EmptyString
  end.

Definition strip (s : string) : string := rstrip (lstrip s).

(** Truth value of a [str]: [not s] is [true] exactly for the empty string. *)
Definition str_truthy (s : string) : bool :=
  match s with EmptyString => false | _ => true end.

(** [s[:n]]. *)
Fixpoint str_prefix (n : nat) (s : string) : string :=
  match n, s with
  | S n', String c s' => String c (str_prefix n' s')
  | _, _ => EmptyString
  end.

(** [s.startswith(p)]. *)
Fixpoint startswith (p s : string) : bool :=
  match p, s with
  | EmptyString, _ => true
  | String a p', String b s' => Ascii.eqb a b && startswith p' s'
  | String _ _, EmptyString => false
  end.

(** A text made of whitespace only (the empty text included). *)
Fixpoint all_space (s : string) : bool :=
  match s with
  | EmptyString => true
  | String c s' => isspace c && all_space s'
  end.

(** [c in s] for a character [c]. *)
Fixpoint has_char (c : ascii) (s : string) : bool :=
  match s with
  | EmptyString => false
  | String a s' => Ascii.eqb a c || has_char c s'
  end.

(** [s.split(sep)] for a one-character separator: never returns the empty
    list, [''.split('+') = ['']]. *)
Fixpoint split (sep : ascii) (s : string) : list string :=
  match s with
  | EmptyString => [EmptyString]
  | String c s' =>
      if Ascii.eqb c sep then EmptyString :: split sep s'
      else match split sep s' with
           | t :: ts => String c t :: ts
           | [] => [String c EmptyString]
           end
  end.

(** A [dict] keyed by [CommandMode], in insertion order. *)
Definition dict (V : Type) := list (CommandMode * V).

Definition dict_get {V} (k : CommandMode) (d : dict V) : option V :=
  snd <$> List.find (fun p => bool_decide (p.1 = k)) d.

(** [d[k] = v]: replaces the value in place, or appends a new key. *)
Fixpoint dict_set {V} (k : CommandMode) (v : V) (d : dict V) : dict V :=
  match d with
  | [] => [(k, v)]
  | (k', v') :: d' =>
      if bool_decide (k' = k) then (k, v) :: d' else (k', v') :: dict_set k v d'
  end.

(** [d1 == d2] on dicts: same length, and every key of [d1] is in [d2]
    with an equal value; insertion order plays no part. *)
Definition dict_eqb {V} `{EqDecision V} (d1 d2 : dict V) : bool :=
  bool_decide (length d1 = length d2)
  && forallb (fun p => bool_decide (dict_get p.1 d2 = Some p.2)) d1.

(** ** src/types/status_messages.py: the enumeration *)

Module StatusEnum.

(** The members of [StatusMessage], in the order of their definition,
    which is the order in which [for status in cls] visits them. *)
Inductive member :=
  | READY | STARTING | STARTED | STOPPED | RESTARTING | BUSY
  | SETTINGS_SAVED | SETTINGS_SAVED_RESTARTING | HOTKEY_PRESSED
  | HOTKEY_IGNORED | PROCESSING_BUSY | ALREADY_RECORDING | LISTENING
  | LISTENER_FAILED | RECORDING | ERROR_RECORDING | TRANSCRIBING
  | TRANSCRIBED | ERROR.

#[global] Instance member_eq_dec : EqDecision member.
Proof. solve_decision. Defined.

Definition members : list member :=
  [READY; STARTING; STARTED; STOPPED; RESTARTING; BUSY; SETTINGS_SAVED;
   SETTINGS_SAVED_RESTARTING; HOTKEY_PRESSED; HOTKEY_IGNORED; PROCESSING_BUSY;
   ALREADY_RECORDING; LISTENING; LISTENER_FAILED; RECORDING; ERROR_RECORDING;
   TRANSCRIBING; TRANSCRIBED; ERROR].

(** [status.value]. *)
Definition value (status : member) : string :=
  match status with
  | READY => StatusMessage.READY
  | STARTING => "Starting background application thread..."
  | STARTED => "Application thread started. Listening for hotkey."
  | STOPPED => "Application stopped"
  | RESTARTING => "Restarting application..."
  | BUSY => StatusMessage.BUSY
  | SETTINGS_SAVED => "Settings saved."
  | SETTINGS_SAVED_RESTARTING => "Settings saved. Restarting application..."
  | HOTKEY_PRESSED => StatusMessage.HOTKEY_PRESSED
  | HOTKEY_IGNORED => "Hotkey ignored: Application not running."
  | PROCESSING_BUSY => StatusMessage.PROCESSING_BUSY
  | ALREADY_RECORDING => StatusMessage.ALREADY_RECORDING
  | LISTENING => "Listening for hotkey '{hotkey}'..."
  | LISTENER_FAILED => "Hotkey listener failed to start!"
  | RECORDING => StatusMessage.RECORDING
  | ERROR_RECORDING => StatusMessage.ERROR_RECORDING
  | TRANSCRIBING => StatusMessage.TRANSCRIBING
  | TRANSCRIBED => "Transcribed: '{text}'"
  | ERROR => "Error: {error}"
  end.

(** [from_custom_message]. *)
Definition from_custom_message (message : string) : option member :=
  if startswith "Transcribed: '" message then Some TRANSCRIBED
  else if startswith "Error: " message then Some ERROR
  else List.find (fun status => String.eqb message (value status)) members.

End StatusEnum.

(** ** src/keyboard/keyboard_manager.py *)

Module KeyboardManager.

Inductive signal :=
  | hotkey_pressed (mode : CommandMode)
  | hotkey_released (mode : option CommandMode)
  | listener_status_changed (ok : bool) (msg : string).

#[global] Instance signal_eq_dec : EqDecision signal.
Proof. solve_decision. Defined.

(** The fields of the singleton that the hotkey logic reads or writes.
    A hotkey string of the configuration may be [None] at run time
    ([save_settings] passes [dict.get] results). *)
Record state := mkState {
  _target_hotkeys : option (dict (gset string));
  _hotkey_strs : option (dict (option string));
  _key_press_times : gmap string Z;
  _was_hotkey_pressed : bool;
  _active_mode : option CommandMode;
  _is_hotkey_paused : bool;
  pressed_keys : gset string;
}.

(** [__init__]. *)
Definition init : state :=
  mkState None None ∅ false None false ∅.

(** [get_pressed_keys]: [list(self.pressed_keys)], sorted, first three. *)
Definition get_pressed_keys (st : state) : list string :=
  take 3 (merge_sort String.le (elements (pressed_keys st))).

(** [not self._target_hotkeys]: [None] or the empty dict. *)
Definition no_targets (st : state) : bool :=
  match _target_hotkeys st with
  | None | Some [] => true
  | Some _ => false
  end.

(** [check_hotkey_match]: the first mode, in dict order, whose key set
    equals the set of the reported pressed keys. *)
Definition check_hotkey_match (st : state) : option CommandMode :=
  if no_targets st || _is_hotkey_paused st then None
  else
    let current_keys : gset string := list_to_set (get_pressed_keys st) in
    fst <$> List.find (fun p => bool_decide (current_keys = p.2))
                      (default [] (_target_hotkeys st)).

Definition pause_hotkey_triggers (st : state) : state :=
  mkState (_target_hotkeys st) (_hotkey_strs st) (_key_press_times st)
          (_was_hotkey_pressed st) (_active_mode st) true (pressed_keys st).

Definition resume_hotkey_triggers (st : state) : state :=
  mkState (_target_hotkeys st) (_hotkey_strs st) (_key_press_times st)
          (_was_hotkey_pressed st) (_active_mode st) false (pressed_keys st).

(** The loop of [set_hotkeys] over [hotkeys.items()]: [None] when a value
    is not a string ([hotkey_str.split] raises [AttributeError]). *)
Fixpoint build_targets (items : dict (option string))
    (target_hotkeys : dict (gset string)) : option (dict (gset string)) :=
  match items with
  | [] => Some target_hotkeys
  | (mode, Some hotkey_str) :: rest =>
      build_targets rest
        (dict_set mode (list_to_set (split "+" hotkey_str)) target_hotkeys)
  | (_, None) :: _ => None
  end.

(** [set_hotkeys]: the stored strings are overwritten before the loop, so
    an exception in the loop leaves them updated and the targets as they
    were, and the call returns [False]. *)
Definition set_hotkeys (hotkeys : dict (option string)) (st : state)
    : bool * state :=
  let same :=
    match _hotkey_strs st with
    | Some cur => dict_eqb cur hotkeys
    | None => false
    end in
  if same then (true, st)
  else
    match build_targets hotkeys [] with
    | Some target_hotkeys =>
        (true,
         mkState (Some target_hotkeys) (Some hotkeys) (_key_press_times st)
                 (_was_hotkey_pressed st) (_active_mode st)
                 (_is_hotkey_paused st) (pressed_keys st))
    | None =>
        (false,
         mkState (_target_hotkeys st) (Some hotkeys) (_key_press_times st)
                 (_was_hotkey_pressed st) (_active_mode st)
                 (_is_hotkey_paused st) (pressed_keys st))
    end.

(** The branch shared by [_on_press] and the Fn branch of [_on_release]:
    fire the press signal on a match that is not already latched. *)
Definition latch_press (mode_match : option CommandMode) (st : state)
    : option (state * list signal) :=
  match mode_match with
  | Some m =>
      if _was_hotkey_pressed st then None
      else Some (mkState (_target_hotkeys st) (_hotkey_strs st)
                         (_key_press_times st) true (Some m)
                         (_is_hotkey_paused st) (pressed_keys st),
                 [hotkey_pressed m])
  | None => None
  end.

(** [_on_press], applied to the symbol [get_key_symbol] returned. *)
Definition _on_press (now : Z) (key_symbol : string) (st : state)
    : state * list signal :=
  let st1 :=
    mkState (_target_hotkeys st) (_hotkey_strs st)
            (<[key_symbol := now]> (_key_press_times st))
            (_was_hotkey_pressed st) (_active_mode st)
            (_is_hotkey_paused st) ({[key_symbol]} ∪ pressed_keys st) in
  match latch_press (check_hotkey_match st1) st1 with
  | Some r => r
  | None => (st1, [])
  end.

(** The release branch: unlatch and fire the release signal. *)
Definition unlatch (st : state) : state * list signal :=
  (mkState (_target_hotkeys st) (_hotkey_strs st) (_key_press_times st)
           false None (_is_hotkey_paused st) (pressed_keys st),
   [hotkey_released (_active_mode st)]).

(** [_on_release]: the Fn key reports both edges as a release event. *)
Definition _on_release (now : Z) (key_symbol : string) (st : state)
    : state * list signal :=
  if bool_decide (key_symbol = "fn") then
    if bool_decide (key_symbol ∈ pressed_keys st) then
      let st1 :=
        mkState (_target_hotkeys st) (_hotkey_strs st)
                (delete key_symbol (_key_press_times st))
                (_was_hotkey_pressed st) (_active_mode st)
                (_is_hotkey_paused st) (pressed_keys st ∖ {[key_symbol]}) in
      if _was_hotkey_pressed st1 then unlatch st1 else (st1, [])
    else
      let st1 :=
        mkState (_target_hotkeys st) (_hotkey_strs st) (_key_press_times st)
                (_was_hotkey_pressed st) (_active_mode st)
                (_is_hotkey_paused st) ({[key_symbol]} ∪ pressed_keys st) in
      match latch_press (check_hotkey_match st1) st1 with
      | Some r => r
      | None =>
          (mkState (_target_hotkeys st1) (_hotkey_strs st1)
                   (<[key_symbol := now]> (_key_press_times st1))
                   (_was_hotkey_pressed st1) (_active_mode st1)
                   (_is_hotkey_paused st1) (pressed_keys st1), [])
      end
  else
    let st1 :=
      mkState (_target_hotkeys st) (_hotkey_strs st)
              (delete key_symbol (_key_press_times st))
              (_was_hotkey_pressed st) (_active_mode st)
              (_is_hotkey_paused st) (pressed_keys st ∖ {[key_symbol]}) in
    if _was_hotkey_pressed st1 && negb (bool_decide (is_Some (check_hotkey_match st1)))
    then unlatch st1 else (st1, []).

(** [_check_stuck_keys]: drop every key held for more than five seconds. *)
Definition _check_stuck_keys (now : Z) (st : state) : state :=
  let stuck_keys : gset string :=
    dom (filter (fun kv => (5000 < now - kv.2)%Z) (_key_press_times st)) in
  mkState (_target_hotkeys st) (_hotkey_strs st)
          (filter (fun kv => kv.1 ∉ stuck_keys) (_key_press_times st))
          (_was_hotkey_pressed st) (_active_mode st)
          (_is_hotkey_paused st) (pressed_keys st ∖ stuck_keys).

(** The events [_check_process_events] takes from the listener's queue. *)
Inductive key_event :=
  | press (key_symbol : string)
  | release (key_symbol : string).

Definition handle (now : Z) (e : key_event) (st : state) : state * list signal :=
  match e with
  | press k => _on_press now k st
  | release k => _on_release now k st
  end.

(** Deliver a queue of events in order, collecting the signals. *)
Fixpoint deliver (now : Z) (es : list key_event) (st : state)
    : state * list signal :=
  match es with
  | [] => (st, [])
  | e :: es' =>
      let '(st1, out1) := handle now e st in
      let '(st2, out2) := deliver now es' st1 in
      (st2, out1 ++ out2)
  end.

(** The mode for which a press signal is outstanding, as the latch
    records it. *)
Definition held (st : state) : option CommandMode :=
  if _was_hotkey_pressed st then _active_mode st else None.

(** A sequence of signals in which presses and releases alternate,
    starting from the outstanding mode [h], each release carrying the
    mode of the press before it. *)
Fixpoint paired (h : option CommandMode) (out : list signal) : Prop :=
  match out with
  | [] => True
  | hotkey_pressed m :: rest => h = None /\ paired (Some m) rest
  | hotkey_released m :: rest => is_Some h /\ m = h /\ paired None rest
  | listener_status_changed _ _ :: rest => paired h rest
  end.

(** The outstanding mode after a sequence of signals. *)
Definition outstanding (h : option CommandMode) (out : list signal)
    : option CommandMode :=
  foldl (fun h s => match s with
                    | hotkey_pressed m => Some m
                    | hotkey_released _ => None
                    | listener_status_changed _ _ => h
                    end) h out.

(** Two configurations used as examples: the defaults of the settings,
    and one whose action hotkey has four keys. *)
Definition two_hotkeys : dict (option string) :=
  [(DICTATION, Some "fn"); (ACTION, Some "f10")].

Definition four_key_action : state :=
  (set_hotkeys [(DICTATION, Some "fn"); (ACTION, Some "ctrl+shift+a+b")] init).2.

End KeyboardManager.


(** ** src/command_processor.py *)

Module CommandProcessor.

(** What the processing engine did with a command: it returned, or it
    raised an exception whose [str(e)] is [msg]. *)
Inductive outcome := Returned | Raised (msg : string).

(** Where the body of a processing thread stands. *)
Inductive phase :=
  | Created                                   (* Thread object built, [start()] not called yet *)
  | Started                                   (* running, before the engine call *)
  | InEngine                                  (* inside [process_action] / [process_dictation] *)
  | Leaving (success : bool) (error_msg : string)    (* [try] left, [finally] not yet run *)
  | Reporting (success : bool) (error_msg : string)  (* flag cleared, final status not yet put *)
  | Finished.

#[global] Instance phase_eq_dec : EqDecision phase.
Proof. solve_decision. Defined.

(** A [threading.Thread] with the arguments of [_processing_thread_target]. *)
Record worker := mkWorker {
  current_context : Context;
  user_text_command : string;
  mode : option CommandMode;
  user_command_audio : option string;
  at_phase : phase;
}.

Record state := mkState {
  _is_processing : bool;
  _processing_thread : option nat;
  threads : list worker;
  (* callers that left the locked block of [process_command] and have
     not yet run [self._processing_thread.start()] *)
  starting : nat;
}.

(** [__init__]. *)
Definition init : state := mkState false None [] 0%nat.

Definition set_phase (t : nat) (p : phase) (st : state) : state :=
  mkState (_is_processing st) (_processing_thread st)
          (alter (fun w => mkWorker (current_context w) (user_text_command w)
                                    (mode w) (user_command_audio w) p)
                 t (threads st))
          (starting st).

Definition phase_of (t : nat) (st : state) : option phase :=
  at_phase <$> threads st !! t.

(** [Thread.is_alive()]: from [start()] until the body has ended. *)
Definition alive (p : phase) : bool :=
  match p with
  | Started | InEngine | Leaving _ _ | Reporting _ _ => true
  | Created | Finished => false
  end.

Definition is_alive (t : nat) (st : state) : bool :=
  default false (alive <$> phase_of t st).

(** The [is_processing] property: reads the flag under the lock, and
    resets it when no live thread backs it. *)
Definition is_processing (st : state) : bool * state :=
  if _is_processing st
     && negb (match _processing_thread st with
              | Some t => is_alive t st
              | None => false
              end)
  then (false, mkState false (_processing_thread st) (threads st) (starting st))
  else (_is_processing st, st).

(** Truth value of [bytes | None]. *)
Definition audio_truthy (a : option string) : bool :=
  match a with Some b => str_truthy b | None => false end.

(** The guard of [process_command]:
    [(not text or not text.strip()) and not audio]. *)
Definition empty_command (text : string) (audio : option string) : bool :=
  (negb (str_truthy text) || negb (str_truthy (strip text)))
  && negb (audio_truthy audio).

(** [process_command] up to the end of the block under the lock: the
    result is what the call returns, given that [start()] does not raise. *)
Definition process_command (context_data : Context) (user_text_command : string)
    (user_command_audio : option string) (mode : option CommandMode)
    (st : state) : bool * state * list effect :=
  if empty_command user_text_command user_command_audio then
    (false, st, [Emit StatusMessage.READY])
  else if _is_processing st then
    (false, st, [Emit StatusMessage.BUSY])
  else
    (true,
     mkState true (Some (length (threads st)))
             (threads st ++ [mkWorker context_data user_text_command mode
                                      user_command_audio Created])
             (S (starting st)),
     []).

(** [self._processing_thread.start()], run by the caller after the lock
    is released: it starts whatever thread the field holds by then. *)
Definition start_thread (st : state) : state :=
  match starting st with
  | O => st
  | S n =>
      let st1 := mkState (_is_processing st) (_processing_thread st)
                         (threads st) n in
      match _processing_thread st with
      | Some t =>
          if bool_decide (phase_of t st = Some Created)
          then set_phase t Started st1
          else st1                      (* RuntimeError: already started *)
      | None => st1                     (* AttributeError *)
      end
  end.

(** An uninterrupted call: the locked block, then [start()]. *)
Definition process_command_call (context_data : Context) (text : string)
    (audio : option string) (mode : option CommandMode) (st : state)
    : bool * state * list effect :=
  let '(ok, st1, out) := process_command context_data text audio mode st in
  (ok, if ok then start_thread st1 else st1, out).

(** The message of the [ValueError] raised for a mode that is neither
    [ACTION] nor [DICTATION]. *)
Definition unsupported_mode : string :=
  "Unsupported CommandMode for CommandProcessor: None".

(** [_processing_thread_target], from the start of the body to the
    engine call. *)
Definition enter (t : nat) (st : state) : state :=
  match threads st !! t with
  | Some w =>
      match at_phase w, mode w with
      | Started, Some _ => set_phase t InEngine st
      | Started, None => set_phase t (Leaving false unsupported_mode) st
      | _, _ => st
      end
  | None => st
  end.

(** The engine call ends: [success = True], or [error_msg = str(e)]. *)
Definition leave (t : nat) (o : outcome) (st : state) : state :=
  if bool_decide (phase_of t st = Some InEngine) then
    match o with
    | Returned => set_phase t (Leaving true "") st
    | Raised msg => set_phase t (Leaving false msg) st
    end
  else st.

(** [finally], the block under the lock. *)
Definition release (t : nat) (st : state) : state :=
  match phase_of t st with
  | Some (Leaving success error_msg) =>
      set_phase t (Reporting success error_msg)
                (mkState false None (threads st) (starting st))
  | _ => st
  end.

Definition final_status (success : bool) (error_msg : string) : string :=
  if success then "Processing successful"
  else "Error processing: " +:+ error_msg.

(** The delay of the [threading.Timer] that restores ["Ready"]. *)
Definition ready_delay : Z := 1500.

(** [finally], after the lock: the final status and the timer. *)
Definition report (t : nat) (st : state) : state * list effect :=
  match phase_of t st with
  | Some (Reporting success error_msg) =>
      (set_phase t Finished st,
       [Emit (final_status success error_msg); Timer ready_delay "Ready"])
  | _ => (st, [])
  end.

(** The steps that a schedule interleaves. *)
Inductive event :=
  | Call (context_data : Context) (text : string) (audio : option string)
         (mode : option CommandMode)
  | Start
  | Enter (t : nat)
  | Leave (t : nat) (o : outcome)
  | Release (t : nat)
  | Report (t : nat)
  | ReadIsProcessing.

Definition step (e : event) (st : state) : state * list effect :=
  match e with
  | Call c text audio m =>
      let '(_, st1, out) := process_command c text audio m st in (st1, out)
  | Start => (start_thread st, [])
  | Enter t => (enter t st, [])
  | Leave t o => (leave t o st, [])
  | Release t => (release t st, [])
  | Report t => report t st
  | ReadIsProcessing => ((is_processing st).2, [])
  end.

Fixpoint run (es : list event) (st : state) : state * list effect :=
  match es with
  | [] => (st, [])
  | e :: es' =>
      let '(st1, out1) := step e st in
      let '(st2, out2) := run es' st1 in
      (st2, out1 ++ out2)
  end.

(** Events of [process_command] and of the worker bodies only. *)
Definition submission (e : event) : bool :=
  match e with ReadIsProcessing => false | _ => true end.

(** The workers that are inside the processing engine. *)
Definition executing (st : state) : list worker :=
  List.filter (fun w => bool_decide (at_phase w = InEngine)) (threads st).

(** A worker holds the flag from its creation until its [finally]. *)
Definition holding (p : phase) : bool :=
  match p with
  | Created | Started | InEngine | Leaving _ _ => true
  | Reporting _ _ | Finished => false
  end.

(** The invariant of the single-flight protocol: a worker that holds the
    flag is the one the processor refers to, and a caller is about to
    call [start()] exactly when a thread waits to be started. *)
Record single_flight (st : state) : Prop := {
  holder_is_current t p :
    phase_of t st = Some p -> holding p = true ->
    _is_processing st = true /\ _processing_thread st = Some t;
  starting_le : (starting st <= 1)%nat;
  starting_created :
    starting st = 1%nat <-> exists t, phase_of t st = Some Created;
}.

(** The final status of a worker: one of the two messages of
    [_processing_thread_target]. *)
Definition is_terminal (msg : string) : bool :=
  String.eqb msg "Processing successful"
  || startswith "Error processing: " msg.

(** Every terminal status in a list of effects is directly followed by
    the timer that restores ["Ready"], and no other timer is armed. *)
Fixpoint announced (out : list effect) : Prop :=
  match out with
  | [] => True
  | Emit msg :: rest =>
      if is_terminal msg then
        match rest with
        | Timer delay after :: rest' =>
            delay = ready_delay /\ after = "Ready" /\ announced rest'
        | _ => False
        end
      else announced rest
  | Timer _ _ :: _ => False
  end.

Definition terminal_statuses (out : list effect) : list effect :=
  List.filter (fun e => match e with
                        | Emit msg => is_terminal msg
                        | Timer _ _ => false
                        end) out.

(** The workers whose body has ended. *)
Definition finished (st : state) : list worker :=
  List.filter (fun w => bool_decide (at_phase w = Finished)) (threads st).

(** What one step hands to the status channel. *)
Inductive step_out : list effect -> Prop :=
  | out_nothing : step_out []
  | out_status msg : is_terminal msg = false -> step_out [Emit msg]
  | out_final success error_msg :
      step_out [Emit (final_status success error_msg); Timer ready_delay "Ready"].

(** A set flag is backed by the thread the processor refers to. *)
Definition backed (st : state) : Prop :=
  _is_processing st = true ->
  exists t p, _processing_thread st = Some t /\ phase_of t st = Some p
              /\ holding p = true.

(** The order in which a worker goes through its phases. *)
Definition rank (p : phase) : nat :=
  match p with
  | Created => 0
  | Started => 1
  | InEngine => 2
  | Leaving _ _ => 3
  | Reporting _ _ => 4
  | Finished => 5
  end.

(** The arguments a worker was created with. *)
Definition arguments (w : worker)
    : Context * string * option CommandMode * option string :=
  (current_context w, user_text_command w, mode w, user_command_audio w).

(** A submission used in examples. *)
Definition a_command : event :=
  Call (mkContext (Some "TextEdit") (Some "Hello") None) "select all" None
       (Some DICTATION).

End CommandProcessor.

(** ** src/context_manager.py *)

Module ContextManager.

(** What a call into the context engine gave: a value (possibly [None])
    or an exception. *)
Inductive engine_result := Ret (v : option string) | Raise.

(** What [platform_utils.get_active_window_info()] returned: [None], or
    the dict [{"app_name": v}]. *)
Definition window_info := option (option string).

(** A fetch thread with the arguments of [_fetch_target]. *)
Record fetch := mkFetch {
  for_app : string;
  for_mode : option CommandMode;
  running : bool;
}.

Record state := mkState {
  _current_context : Context;
  _fetch_thread : option nat;
  threads : list fetch;
}.

Definition unknown : Context := mkContext None None None.

(** [__init__]. *)
Definition init : state := mkState unknown None [].

(** [get_current_context]: a copy of the snapshot. *)
Definition get_current_context (st : state) : Context := _current_context st.

Definition is_alive (t : nat) (st : state) : bool :=
  default false (running <$> threads st !! t).

(** [self._fetch_thread and self._fetch_thread.is_alive()]. *)
Definition in_flight (st : state) : bool :=
  match _fetch_thread st with
  | Some t => is_alive t st
  | None => false
  end.

(** The application name, when the window could be determined:
    [active_window_info and active_window_info.get("app_name")]. *)
Definition determined (info : window_info) : option string :=
  match info with
  | Some (Some name) => if str_truthy name then Some name else None
  | _ => None
  end.

(** [fetch_context_async]. *)
Definition fetch_context_async (mode : option CommandMode) (info : window_info)
    (st : state) : state :=
  if in_flight st then st
  else
    match determined info with
    | None =>
        mkState (mkContext (Some "Unknown") None None)
                (_fetch_thread st) (threads st)
    | Some name =>
        mkState (mkContext (Some name) None None)
                (Some (length (threads st)))
                (threads st ++ [mkFetch name mode true])
    end.

(** The [try] block of [_fetch_target]: the values of [primary_context]
    and [page_context] when [finally] is reached.  [full] and [cursor]
    are the results of [get_full_app_context] and
    [get_focused_cursor_context]. *)
Definition fetched (mode : option CommandMode) (full cursor : engine_result)
    : option string * option string :=
  match mode with
  | Some ACTION =>
      match full with Ret v => (v, None) | Raise => (None, None) end
  | Some DICTATION =>
      match cursor with
      | Ret p => match full with Ret g => (p, g) | Raise => (p, None) end
      | Raise => (None, None)
      end
  | None => (None, None)
  end.

(** [_fetch_target]: the [finally] block of thread [t], and its end. *)
Definition _fetch_target (t : nat) (full cursor : engine_result) (st : state)
    : state :=
  match threads st !! t with
  | Some f =>
      if running f then
        let '(primary, page) := fetched (for_mode f) full cursor in
        mkState
          (if bool_decide (_fetch_thread st = Some t)
           then mkContext (app_name (_current_context st)) primary page
           else _current_context st)
          (_fetch_thread st)
          (<[t := mkFetch (for_app f) (for_mode f) false]> (threads st))
      else st
  | None => st
  end.

(** [wait_for_context]: [during] tells whether the awaited thread ends
    before the timeout, and with which engine results.  The second
    component tells whether the caller blocked in [join]. *)
Definition wait_for_context (during : option (engine_result * engine_result))
    (st : state) : option string * bool * state :=
  match _fetch_thread st with
  | Some t =>
      if is_alive t st then
        match during with
        | Some (full, cursor) =>
            let st1 := _fetch_target t full cursor st in
            (primary_context (_current_context st1), true, st1)
        | None => (None, true, st)
        end
      else (primary_context (_current_context st), false, st)
  | None => (primary_context (_current_context st), false, st)
  end.

(** [cleanup]. *)
Definition cleanup (st : state) : state :=
  mkState (_current_context st) None (threads st).

Inductive event :=
  | FetchAsync (mode : option CommandMode) (info : window_info)
  | Done (t : nat) (full cursor : engine_result)
  | Cleanup.

Definition step (e : event) (st : state) : state :=
  match e with
  | FetchAsync m info => fetch_context_async m info st
  | Done t full cursor => _fetch_target t full cursor st
  | Cleanup => cleanup st
  end.

Definition run (es : list event) (st : state) : state :=
  foldl (fun s e => step e s) st es.

(** While the current fetch runs, the snapshot names its application
    and holds no context yet. *)
Definition coherent (st : state) : Prop :=
  forall t f, _fetch_thread st = Some t -> threads st !! t = Some f ->
    running f = true ->
    _current_context st = mkContext (Some (for_app f)) None None.

(** Every running fetch thread is the current one. *)
Definition single_fetch (st : state) : Prop :=
  forall t, is_alive t st = true -> _fetch_thread st = Some t.

Definition is_cleanup (e : event) : bool :=
  match e with Cleanup => true | _ => false end.

End ContextManager.

(** ** src/audio/audio_recorder.py *)

(** The audio handed to the completion callback: [bytes], or the
    [io.BytesIO] that [save_wav_to_buffer] returns. *)
Inductive buffer := Bytes (data : string) | BytesIO (data : string).

#[global] Instance buffer_eq_dec : EqDecision buffer.
Proof. solve_decision. Defined.

Module AudioRecorder.

(** A block of samples. *)
Definition chunk := list Z.

(** A callable given to [start_recording], known by a handle. *)
Definition callback := nat.

(** A watchdog thread: the [start_time] its body read, once it runs, and
    whether it is alive. *)
Record watchdog := mkWatchdog {
  start_time : option Z;
  live : bool;
}.

(** The attributes of the recorder, and the objects they refer to:
    threads and [threading.Event]s, each list indexed by identity.
    [_audio_buffer] is left out: it is only ever assigned [None]. *)
Record state := mkState {
  _is_recording : bool;
  _stop_event : bool;
  _audio_queue : list chunk;
  _processing_callback : option callback;
  _audio_detected : bool;
  _recording_thread : option nat;
  _monitor_thread : option nat;
  _watchdog_thread : option nat;
  _watchdog_stop_event : option nat;
  recorders : list bool;          (* recording threads: still running? *)
  monitors : list bool;           (* monitor threads: still waiting? *)
  watchdogs : list watchdog;
  events : list bool;             (* watchdog stop events: set? *)
}.

(** [__init__]. *)
Definition init : state :=
  mkState false false [] None false None None None None [] [] [] [].

(** [self._watchdog_timeout_sec = 5.0]. *)
Definition _watchdog_timeout_sec : Z := 5000.

Definition set_is_recording (b : bool) (st : state) : state :=
  mkState b (_stop_event st) (_audio_queue st) (_processing_callback st)
          (_audio_detected st) (_recording_thread st) (_monitor_thread st)
          (_watchdog_thread st) (_watchdog_stop_event st)
          (recorders st) (monitors st) (watchdogs st) (events st).

Definition set_stop_event (b : bool) (st : state) : state :=
  mkState (_is_recording st) b (_audio_queue st) (_processing_callback st)
          (_audio_detected st) (_recording_thread st) (_monitor_thread st)
          (_watchdog_thread st) (_watchdog_stop_event st)
          (recorders st) (monitors st) (watchdogs st) (events st).

Definition set_audio_queue (q : list chunk) (st : state) : state :=
  mkState (_is_recording st) (_stop_event st) q (_processing_callback st)
          (_audio_detected st) (_recording_thread st) (_monitor_thread st)
          (_watchdog_thread st) (_watchdog_stop_event st)
          (recorders st) (monitors st) (watchdogs st) (events st).

Definition set_audio_detected (b : bool) (st : state) : state :=
  mkState (_is_recording st) (_stop_event st) (_audio_queue st)
          (_processing_callback st) b (_recording_thread st)
          (_monitor_thread st) (_watchdog_thread st) (_watchdog_stop_event st)
          (recorders st) (monitors st) (watchdogs st) (events st).

Definition set_watchdog (t e : option nat) (ws : list watchdog)
    (evs : list bool) (st : state) : state :=
  mkState (_is_recording st) (_stop_event st) (_audio_queue st)
          (_processing_callback st) (_audio_detected st)
          (_recording_thread st) (_monitor_thread st) t e
          (recorders st) (monitors st) ws evs.

Definition set_recorders (rs : list bool) (st : state) : state :=
  mkState (_is_recording st) (_stop_event st) (_audio_queue st)
          (_processing_callback st) (_audio_detected st)
          (_recording_thread st) (_monitor_thread st)
          (_watchdog_thread st) (_watchdog_stop_event st)
          rs (monitors st) (watchdogs st) (events st).

Definition set_monitors (ms : list bool) (st : state) : state :=
  mkState (_is_recording st) (_stop_event st) (_audio_queue st)
          (_processing_callback st) (_audio_detected st)
          (_recording_thread st) (_monitor_thread st)
          (_watchdog_thread st) (_watchdog_stop_event st)
          (recorders st) ms (watchdogs st) (events st).

(** The [is_recording] property. *)
Definition is_recording (st : state) : bool := _is_recording st.

Definition watchdog_alive (t : nat) (st : state) : bool :=
  default false (live <$> watchdogs st !! t).

(** The body of watchdog [t] ends, by [return] or by an exception. *)
Definition watchdog_ends (t : nat) (st : state) : state :=
  set_watchdog (_watchdog_thread st) (_watchdog_stop_event st)
    (alter (fun w => mkWatchdog (start_time w) false) t (watchdogs st))
    (events st) st.

(** [_stop_watchdog], run by [caller] (the identity of a watchdog thread,
    or [None] for any other thread).  A thread that joins itself gets a
    [RuntimeError], reported by the second component; the two fields are
    then left as they were. *)
Definition _stop_watchdog (caller : option nat) (st : state) : state * bool :=
  let st1 :=
    match _watchdog_stop_event st with
    | Some e => set_watchdog (_watchdog_thread st) (_watchdog_stop_event st)
                             (watchdogs st) (<[e := true]> (events st)) st
    | None => st
    end in
  match _watchdog_thread st1 with
  | Some t =>
      if watchdog_alive t st1 && bool_decide (caller = Some t)
      then (st1, true)
      else (set_watchdog None None (watchdogs st1) (events st1) st1, false)
  | None => (set_watchdog None None (watchdogs st1) (events st1) st1, false)
  end.

(** [_start_watchdog]. *)
Definition _start_watchdog (st : state) : state :=
  let st1 := (_stop_watchdog None st).1 in
  set_watchdog (Some (length (watchdogs st1))) (Some (length (events st1)))
               (watchdogs st1 ++ [mkWatchdog None true])
               (events st1 ++ [false]) st1.

(** [start_recording]; the whole body runs under the lock. *)
Definition start_recording (processing_callback : callback) (st : state)
    : bool * state * list effect :=
  if _is_recording st then (false, st, [])
  else
    let st1 :=
      mkState false false [] (Some processing_callback) false
              (Some (length (recorders st))) (Some (length (monitors st)))
              (_watchdog_thread st) (_watchdog_stop_event st)
              (recorders st ++ [true]) (monitors st ++ [true])
              (watchdogs st) (events st) in
    (true, set_is_recording true (_start_watchdog st1),
     [Emit StatusMessage.RECORDING]).

(** [stop_recording], run by [caller]; the second component reports the
    [RuntimeError] of [_stop_watchdog]. *)
Definition stop_recording (caller : option nat) (st : state) : state * bool :=
  if is_recording st then _stop_watchdog caller (set_stop_event true st)
  else (st, false).

(** [notify_audio_detected]. *)
Definition notify_audio_detected (st : state) : state :=
  if _audio_detected st then st else set_audio_detected true st.

(** One non-empty block in [record_audio_stream]: the callback, then
    [audio_queue.put_nowait]. *)
Definition record_block (t : nat) (c : chunk) (st : state) : state :=
  if default false (recorders st !! t) then
    let st1 := notify_audio_detected st in
    set_audio_queue (_audio_queue st1 ++ [c]) st1
  else st.

(** [record_audio_stream] returns. *)
Definition recorder_ends (t : nat) (st : state) : state :=
  set_recorders (<[t := false]> (recorders st)) st.

(** The first statement of [_watchdog_target]: [start_time = time.time()]. *)
Definition watchdog_begins (t : nat) (now : Z) (st : state) : state :=
  match watchdogs st !! t with
  | Some (mkWatchdog None true) =>
      set_watchdog (_watchdog_thread st) (_watchdog_stop_event st)
                   (<[t := mkWatchdog (Some now) true]> (watchdogs st))
                   (events st) st
  | _ => st
  end.

(** One turn of the loop of [_watchdog_target], with the clock reading
    [now]; a turn that ends in [time.sleep(0.1)] leaves the state as it
    is. *)
Definition _watchdog_target (t : nat) (now : Z) (st : state)
    : state * list effect :=
  match watchdogs st !! t with
  | Some (mkWatchdog (Some started) true) =>
      match _watchdog_stop_event st with
      | None => (watchdog_ends t st, [])             (* AttributeError *)
      | Some e =>
          if default false (events st !! e) then (watchdog_ends t st, [])
          else if negb (is_recording st) then (watchdog_ends t st, [])
          else if _audio_detected st then (watchdog_ends t st, [])
          else if _watchdog_timeout_sec <? now - started then
            (watchdog_ends t (stop_recording (Some t) st).1,
             [Emit StatusMessage.ERROR_RECORDING])
          else (st, [])
      end
  | _ => (st, [])
  end.

(** [_monitor_target] of monitor thread [t], from the moment the stop
    event is set: the new state, the statuses, and the call it makes to
    the completion callback.  [wav] is what [save_wav_to_buffer] gave for
    the collected chunks ([None] when it returned [None] or when building
    the buffer raised). *)
Definition _monitor_target (t : nat) (wav : option string) (st : state)
    : state * list effect * option (callback * option buffer) :=
  if default false (monitors st !! t) && _stop_event st then
    let st1 := (_stop_watchdog None st).1 in
    let st2 := set_is_recording false st1 in
    let callback_to_call := _processing_callback st2 in
    let chunks := _audio_queue st2 in
    let st3 := set_monitors (<[t := false]> (monitors st2))
                            (set_audio_queue [] st2) in
    let '(audio_buffer, out) :=
      match chunks with
      | [] => (None, [Emit StatusMessage.READY])
      | _ :: _ =>
          match wav with
          | Some data => (Some (BytesIO data), [])
          | None => (None, [Emit StatusMessage.ERROR_RECORDING])
          end
      end in
    (st3, out, (fun cb => (cb, audio_buffer)) <$> callback_to_call)
  else (st, [], None).

Inductive event :=
  | StartRecording (cb : callback)
  | StopRecording
  | Block (t : nat) (c : chunk)
  | RecorderEnds (t : nat)
  | WatchdogBegins (t : nat) (now : Z)
  | WatchdogTurn (t : nat) (now : Z)
  | MonitorWakes (t : nat) (wav : option string).

Definition step (e : event) (st : state) : state * list effect :=
  match e with
  | StartRecording cb => let '(_, st1, out) := start_recording cb st in (st1, out)
  | StopRecording => ((stop_recording None st).1, [])
  | Block t c => (record_block t c st, [])
  | RecorderEnds t => (recorder_ends t st, [])
  | WatchdogBegins t now => (watchdog_begins t now st, [])
  | WatchdogTurn t now => _watchdog_target t now st
  | MonitorWakes t wav => let '(st1, out, _) := _monitor_target t wav st in (st1, out)
  end.

Fixpoint run (es : list event) (st : state) : state * list effect :=
  match es with
  | [] => (st, [])
  | e :: es' =>
      let '(st1, out1) := step e st in
      let '(st2, out2) := run es' st1 in
      (st2, out1 ++ out2)
  end.

(** The steps that may occur in a session during which no block of
    audio is observed and no stop is asked for, before the monitor
    wakes: turns of the watchdog [w], the end of a recording thread, and
    further calls of [start_recording]. *)
Definition quiet (w : nat) (e : event) : bool :=
  match e with
  | WatchdogTurn t _ => bool_decide (t = w)
  | RecorderEnds _ | StartRecording _ => true
  | _ => false
  end.

(** The turn of watchdog [w] that reads a clock beyond the timeout. *)
Definition overdue (w : nat) (begun : Z) (e : event) : bool :=
  match e with
  | WatchdogTurn t now =>
      bool_decide (t = w) && (_watchdog_timeout_sec <? now - begun)
  | _ => false
  end.

(** How many error statuses a list of effects holds. *)
Definition errors (out : list effect) : nat :=
  length (List.filter
            (fun e => bool_decide (e = Emit StatusMessage.ERROR_RECORDING)) out).

(** A session that records, has seen no audio, and is guarded by the
    running watchdog [w] (stop event [ev], started at [begun]) while the
    monitor [m] waits. *)
Record armed (w ev m : nat) (begun : Z) (st : state) : Prop := {
  armed_recording : _is_recording st = true;
  armed_not_stopped : _stop_event st = false;
  armed_no_audio : _audio_detected st = false;
  armed_queue : _audio_queue st = [];
  armed_thread : _watchdog_thread st = Some w;
  armed_event : _watchdog_stop_event st = Some ev;
  armed_unset : events st !! ev = Some false;
  armed_watchdog : watchdogs st !! w = Some (mkWatchdog (Some begun) true);
  armed_monitor : monitors st !! m = Some true;
}.

(** The same session once the watchdog has stopped it: the stop event
    is set, the watchdog is dead, the monitor has not woken yet. *)
Record fired (w m : nat) (st : state) : Prop := {
  fired_recording : _is_recording st = true;
  fired_stopped : _stop_event st = true;
  fired_queue : _audio_queue st = [];
  fired_watchdog : default true (live <$> watchdogs st !! w) = false;
  fired_monitor : monitors st !! m = Some true;
}.

(** A monitor thread waits exactly while a recording is in progress:
    the waiting monitor is the one the recorder refers to, and a
    recording has its monitor waiting and its callback stored. *)
Record session_ok (st : state) : Prop := {
  waiting_is_current t :
    monitors st !! t = Some true ->
    _is_recording st = true /\ _monitor_thread st = Some t;
  recording_waits :
    _is_recording st = true ->
    exists t cb, _monitor_thread st = Some t /\ monitors st !! t = Some true
                 /\ _processing_callback st = Some cb;
}.

(** A state in which a turn of watchdog [w] cannot report: audio was
    detected, nothing records, the stop event of the watchdog is gone or
    set, or the watchdog has ended. *)
Definition silenced (w : nat) (st : state) : Prop :=
  _audio_detected st = true
  \/ _is_recording st = false
  \/ _watchdog_stop_event st = None
  \/ (exists e, _watchdog_stop_event st = Some e /\ events st !! e = Some true)
  \/ default false (live <$> watchdogs st !! w) = false.

End AudioRecorder.

(** ** src/discrete_application_runner.py *)

Module DiscreteApplicationRunner.

(** Modelled from the spec: [src/types/actions.py] is not among the
    sources.  The runner queues its member [START] on a press and [STOP]
    on a release, the two transitions out of and back towards Idle. *)
Inductive ApplicationAction := START | STOP.

(** What [asr_handler.transcribe_audio] did: it returned a text (or
    [None]), or it raised an exception whose [str(e)] is [msg]. *)
Inductive asr_result := Transcript (text : option string) | AsrError (msg : string).

(** The runner with the three components it composes, the status queue
    they share, and the environment of the pipeline: the clock and the
    [threading.Timer]s that are pending (due time, message). *)
Record state := mkState {
  command_processor : CommandProcessor.state;
  audio_recorder : AudioRecorder.state;
  context_manager : ContextManager.state;
  _mode : CommandMode;
  _action_queue : list ApplicationAction;
  status_queue : list string;
  timers : list (Z * string);
  clock : Z;
}.

(** [__init__], with components fresh from their constructors. *)
Definition init : state :=
  mkState CommandProcessor.init AudioRecorder.init ContextManager.init
          default_mode [] [] [] 0.

Definition set_command_processor (cp : CommandProcessor.state) (st : state) :=
  mkState cp (audio_recorder st) (context_manager st) (_mode st)
          (_action_queue st) (status_queue st) (timers st) (clock st).

Definition set_audio_recorder (ar : AudioRecorder.state) (st : state) :=
  mkState (command_processor st) ar (context_manager st) (_mode st)
          (_action_queue st) (status_queue st) (timers st) (clock st).

Definition set_context_manager (cm : ContextManager.state) (st : state) :=
  mkState (command_processor st) (audio_recorder st) cm (_mode st)
          (_action_queue st) (status_queue st) (timers st) (clock st).

Definition set_action_queue (q : list ApplicationAction) (st : state) :=
  mkState (command_processor st) (audio_recorder st) (context_manager st)
          (_mode st) q (status_queue st) (timers st) (clock st).

(** [_update_status]: both branches put the string on the queue. *)
Definition _update_status (status : string) (st : state) : state :=
  mkState (command_processor st) (audio_recorder st) (context_manager st)
          (_mode st) (_action_queue st) (status_queue st ++ [status])
          (timers st) (clock st).

(** A component's effect reaches the shared queue, or arms a timer. *)
Definition perform1 (st : state) (e : effect) : state :=
  match e with
  | Emit msg => _update_status msg st
  | Timer delay msg =>
      mkState (command_processor st) (audio_recorder st) (context_manager st)
              (_mode st) (_action_queue st) (status_queue st)
              (timers st ++ [(clock st + delay, msg)]) (clock st)
  end.

Definition perform (out : list effect) (st : state) : state :=
  foldl perform1 st out.

(** [trigger_interaction] runs on the thread that delivers the press,
    the event loop of [run] on another; the statements of the call are
    steps of their own.  First the two checks and, for a press that
    passes them, [self._action_queue.put]: the result tells whether the
    press was accepted.  A rejected press puts its busy status and
    returns. *)
Definition trigger_queues (st : state) : bool * state :=
  let '(processing, cp) := CommandProcessor.is_processing (command_processor st) in
  let st1 := set_command_processor cp st in
  if processing then (false, _update_status StatusMessage.PROCESSING_BUSY st1)
  else if AudioRecorder.is_recording (audio_recorder st1) then
    (false, _update_status StatusMessage.ALREADY_RECORDING st1)
  else (true, set_action_queue (_action_queue st1 ++ [START]) st1).

(** Then [self._mode = mode], after the action is in the queue. *)
Definition trigger_stores (mode : CommandMode) (st : state) : state :=
  mkState (command_processor st) (audio_recorder st) (context_manager st)
          mode (_action_queue st) (status_queue st) (timers st) (clock st).

(** Last, [self._update_status(StatusMessage.HOTKEY_PRESSED)]. *)
Definition trigger_reports (st : state) : state :=
  _update_status StatusMessage.HOTKEY_PRESSED st.

(** [trigger_interaction], as a call that no other thread interrupts. *)
Definition trigger_interaction (mode : CommandMode) (st : state) : state :=
  let '(accepted, st1) := trigger_queues st in
  if accepted then trigger_reports (trigger_stores mode st1) else st1.

(** [stop_interaction]. *)
Definition stop_interaction (st : state) : state :=
  set_action_queue (_action_queue st ++ [STOP]) st.

(** The handle of the bound method [self._process_recorded_audio]. *)
Definition on_audio : AudioRecorder.callback := 0%nat.

(** [_handle_start_recording]; [info] is what the context manager gets
    from [get_active_window_info] if it asks. *)
Definition _handle_start_recording (info : ContextManager.window_info)
    (st : state) : state :=
  let cm := ContextManager.fetch_context_async (Some (_mode st)) info
              (context_manager st) in
  let '(_, ar, out) := AudioRecorder.start_recording on_audio (audio_recorder st) in
  perform out (set_audio_recorder ar (set_context_manager cm st)).

(** [_handle_stop_recording]. *)
Definition _handle_stop_recording (st : state) : state :=
  set_audio_recorder (AudioRecorder.stop_recording None (audio_recorder st)).1 st.

(** One turn of the loop of [run] that finds an action in the queue. *)
Definition run_turn (info : ContextManager.window_info) (st : state) : state :=
  match _action_queue st with
  | [] => st
  | START :: q => _handle_start_recording info (set_action_queue q st)
  | STOP :: q => _handle_stop_recording (set_action_queue q st)
  end.

(** The "type-agnostic empty check" of [_process_recorded_audio]. *)
Definition is_empty (audio_buffer : option buffer) : bool :=
  match audio_buffer with
  | None => true
  | Some (Bytes data) => bool_decide (String.length data = 0%nat)
  | Some (BytesIO data) => bool_decide (String.length data = 0%nat)
  end.

(** [not text or not text.strip()] for [text : str | None]. *)
Definition blank (text : option string) : bool :=
  match text with
  | None => true
  | Some t => negb (str_truthy t) || negb (str_truthy (strip t))
  end.

(** [_process_recorded_audio]: [asr] is what the transcription does if
    it is called, [during] what happens to the context fetch while the
    callback waits for it. *)
Definition _process_recorded_audio (audio_buffer : option buffer)
    (asr : asr_result)
    (during : option (ContextManager.engine_result * ContextManager.engine_result))
    (st : state) : state :=
  if is_empty audio_buffer then st
  else
    let st1 := _update_status StatusMessage.TRANSCRIBING st in
    match asr with
    | AsrError msg => _update_status (StatusMessage.ERROR msg) st1
    | Transcript text =>
        match text with
        | Some user_text_command =>
            if blank text then
              _update_status (StatusMessage.ERROR "Transcription empty") st1
            else
              let st2 :=
                _update_status
                  (StatusMessage.TRANSCRIBED (str_prefix 40 user_text_command))
                  st1 in
              let cm := (ContextManager.wait_for_context during
                           (context_manager st2)).2 in
              let current_context_data := ContextManager.get_current_context cm in
              let '(_, cp, out) :=
                CommandProcessor.process_command_call current_context_data
                  user_text_command None (Some (_mode st2))
                  (command_processor st2) in
              perform out (set_command_processor cp (set_context_manager cm st2))
        | None => _update_status (StatusMessage.ERROR "Transcription empty") st1
        end
    end.

(** The steps of the pipeline that a schedule interleaves. *)
Inductive event :=
  | Press (mode : CommandMode)       (* [trigger_interaction], uninterrupted *)
  | Lift                                        (* [stop_interaction] *)
  | Turn (info : ContextManager.window_info)    (* the event loop takes an action *)
  | Block (t : nat) (c : AudioRecorder.chunk)
  | RecorderEnds (t : nat)
  | WatchdogBegins (t : nat)
  | WatchdogTurn (t : nat)
  | Monitor (t : nat) (wav : option string) (asr : asr_result)
            (during : option (ContextManager.engine_result * ContextManager.engine_result))
  | FetchDone (t : nat) (full cursor : ContextManager.engine_result)
  | Worker (e : CommandProcessor.event)
  | Tick (dt : Z)
  | Fire.

(** The audio monitor thread [t] wakes, reports, and runs the callback. *)
Definition monitor (t : nat) (wav : option string) (asr : asr_result)
    (during : option (ContextManager.engine_result * ContextManager.engine_result))
    (st : state) : state :=
  let '(ar, out, call) := AudioRecorder._monitor_target t wav (audio_recorder st) in
  let st1 := perform out (set_audio_recorder ar st) in
  match call with
  | Some (cb, audio_buffer) =>
      if bool_decide (cb = on_audio)
      then _process_recorded_audio audio_buffer asr during st1
      else st1
  | None => st1
  end.

(** Time passes. *)
Definition tick (dt : Z) (st : state) : state :=
  mkState (command_processor st) (audio_recorder st) (context_manager st)
          (_mode st) (_action_queue st) (status_queue st) (timers st)
          (clock st + Z.max 0 dt).

(** Every timer that is due runs its [_update_status]. *)
Definition fire (st : state) : state :=
  mkState (command_processor st) (audio_recorder st) (context_manager st)
          (_mode st) (_action_queue st)
          (status_queue st
           ++ (List.filter (fun tm => tm.1 <=? clock st) (timers st)).*2)
          (List.filter (fun tm => negb (tm.1 <=? clock st)) (timers st))
          (clock st).

Definition step (e : event) (st : state) : state :=
  match e with
  | Press m => trigger_interaction m st
  | Lift => stop_interaction st
  | Turn info => run_turn info st
  | Block t c =>
      set_audio_recorder (AudioRecorder.record_block t c (audio_recorder st)) st
  | RecorderEnds t =>
      set_audio_recorder (AudioRecorder.recorder_ends t (audio_recorder st)) st
  | WatchdogBegins t =>
      set_audio_recorder
        (AudioRecorder.watchdog_begins t (clock st) (audio_recorder st)) st
  | WatchdogTurn t =>
      let '(ar, out) :=
        AudioRecorder._watchdog_target t (clock st) (audio_recorder st) in
      perform out (set_audio_recorder ar st)
  | Monitor t wav asr during => monitor t wav asr during st
  | FetchDone t full cursor =>
      set_context_manager
        (ContextManager._fetch_target t full cursor (context_manager st)) st
  | Worker e' =>
      let '(cp, out) := CommandProcessor.step e' (command_processor st) in
      perform out (set_command_processor cp st)
  | Tick dt => tick dt st
  | Fire => fire st
  end.

Definition run (es : list event) (st : state) : state :=
  foldl (fun s e => step e s) st es.

(** An example: a pipeline whose worker is about to report a failure of
    the engine, the clock reading 7 s. *)
Definition reporting_pipeline : state :=
  run [Press DICTATION; Turn (Some (Some "TextEdit")); Lift; Turn None;
       Block 0 [1; 2];
       Monitor 0 (Some "RIFF") (Transcript (Some "select all")) None;
       Worker (CommandProcessor.Enter 0);
       Worker (CommandProcessor.Leave 0 (CommandProcessor.Raised "no model"));
       Worker (CommandProcessor.Release 0); Tick 7000] init.

End DiscreteApplicationRunner.
(** * Properties

    ** KeyboardManager *)

Section keyboard_manager.
Import KeyboardManager.

Lemma dict_get_elem {V} (k : CommandMode) (v : V) (d : dict V) :
  NoDup d.*1 → (k, v) ∈ d → dict_get k d = Some v.
Proof.
  unfold dict_get. induction d as [|[k' v'] d IH]; simpl.
  - intros _ H. by apply elem_of_nil in H.
  - intros [Hk Hd]%NoDup_cons [H|H]%elem_of_cons.
    + simplify_eq. by rewrite bool_decide_eq_true_2.
    + rewrite bool_decide_eq_false_2; [by apply IH|].
      intros ->. apply Hk. apply list_elem_of_fmap. by exists (k, v).
Qed.

Lemma dict_eqb_refl {V} `{EqDecision V} (d : dict V) :
  NoDup d.*1 → dict_eqb d d = true.
Proof.
  intros Hd. unfold dict_eqb. rewrite bool_decide_eq_true_2 by done. simpl.
  apply forallb_forall. intros [k v] Hin%list_elem_of_In.
  apply bool_decide_eq_true. simpl. by apply dict_get_elem.
Qed.

Lemma set_hotkeys_stored hotkeys st :
  (set_hotkeys hotkeys st).2 = st
  ∨ _hotkey_strs (set_hotkeys hotkeys st).2 = Some hotkeys.
Proof.
  unfold set_hotkeys.
  destruct (match _hotkey_strs st with Some _ => _ | None => _ end); [by left|].
  right. by destruct (build_targets hotkeys []).
Qed.

Lemma set_hotkeys_same hotkeys cur st :
  _hotkey_strs st = Some cur → dict_eqb cur hotkeys = true →
  set_hotkeys hotkeys st = (true, st).
Proof. intros Hc He. unfold set_hotkeys. by rewrite Hc, He. Qed.

(** C8.  [set_hotkeys] called with a configuration equal to the stored
    one returns [True] and leaves the manager as it is, stored strings
    and target key sets included; hence calling it twice with the same
    configuration gives the state of calling it once, and the second
    call returns [True].  (A Python dict has each key once: [NoDup].) *)
Theorem set_hotkeys_idempotent (hotkeys : dict (option string)) (st : state) :
  NoDup hotkeys.*1 →
  (∀ cur, _hotkey_strs st = Some cur → dict_eqb cur hotkeys = true →
          set_hotkeys hotkeys st = (true, st))
  ∧ set_hotkeys hotkeys (set_hotkeys hotkeys st).2
    = (true, (set_hotkeys hotkeys st).2).
Proof.
  intros Hd. split; [intros; by eapply set_hotkeys_same|].
  destruct (set_hotkeys_stored hotkeys st) as [Hsame|Hnew].
  - rewrite Hsame. unfold set_hotkeys in Hsame |- *.
    destruct (match _hotkey_strs st with Some _ => _ | None => _ end) eqn:E; [done|].
    destruct (build_targets hotkeys []); simpl in Hsame;
      rewrite <- Hsame in E; simpl in E; by rewrite dict_eqb_refl in E.
  - eapply set_hotkeys_same; [done|]. by apply dict_eqb_refl.
Qed.


Lemma get_pressed_keys_length st : (length (get_pressed_keys st) ≤ 3)%nat.
Proof. unfold get_pressed_keys. rewrite length_take. lia. Qed.

Lemma StronglySorted_take {A} (R : relation A) (n : nat) (l : list A) :
  StronglySorted R l → StronglySorted R (take n l).
Proof.
  intros H. revert n. induction H as [|x l Hs IH Hx]; intros [|n]; simpl;
    constructor; [apply IH|by apply Forall_take].
Qed.

Lemma get_pressed_keys_sorted st : StronglySorted String.le (get_pressed_keys st).
Proof.
  apply StronglySorted_take, StronglySorted_merge_sort; apply _.
Qed.

Lemma get_pressed_keys_held st k : k ∈ get_pressed_keys st → k ∈ pressed_keys st.
Proof.
  unfold get_pressed_keys. intros H%subseteq_take.
  rewrite merge_sort_Permutation in H. by apply elem_of_elements.
Qed.

(** The order in which [list(self.pressed_keys)] enumerates the set
    plays no part: sorting any enumeration gives the same list. *)
Lemma sorted_enumeration (l : list string) (held : gset string) :
  l ≡ₚ elements held →
  merge_sort String.le l = merge_sort String.le (elements held).
Proof.
  intros Hp. apply (StronglySorted_unique String.le);
    try apply StronglySorted_merge_sort; try apply _.
  by rewrite !merge_sort_Permutation.
Qed.

Lemma size_list_to_set_le (l : list string) :
  (size (list_to_set (C:=gset string) l) ≤ length l)%nat.
Proof.
  induction l as [|x l IH].
  - rewrite list_to_set_nil, size_empty. done.
  - rewrite list_to_set_cons, size_union_alt, size_singleton. simpl.
    assert (size (list_to_set (C:=gset string) l ∖ {[x]})
            ≤ size (list_to_set (C:=gset string) l))%nat as Hle.
    { apply subseteq_size. apply subseteq_difference_l. done. }
    lia.
Qed.

Lemma check_hotkey_match_Some st m :
  check_hotkey_match st = Some m →
  ∃ keys, (m, keys) ∈ default [] (_target_hotkeys st)
          ∧ keys = list_to_set (get_pressed_keys st).
Proof.
  unfold check_hotkey_match.
  destruct (no_targets st || _is_hotkey_paused st); [done|].
  destruct (List.find _ _) as [[m' keys]|] eqn:E; [|done].
  intros [= <-]. apply find_some in E as [Hin Heq].
  apply bool_decide_eq_true in Heq. simpl in Heq.
  exists keys. split; [by apply list_elem_of_In|done].
Qed.

Lemma check_hotkey_match_small st m :
  check_hotkey_match st = Some m →
  ∃ keys, (m, keys) ∈ default [] (_target_hotkeys st) ∧ (size keys ≤ 3)%nat.
Proof.
  intros (keys & Hin & ->)%check_hotkey_match_Some. eexists; split; [done|].
  etrans; [apply size_list_to_set_le|apply get_pressed_keys_length].
Qed.

(** The match reads three fields only. *)
Lemma check_hotkey_match_ext st1 st2 :
  _target_hotkeys st1 = _target_hotkeys st2 →
  _is_hotkey_paused st1 = _is_hotkey_paused st2 →
  pressed_keys st1 = pressed_keys st2 →
  check_hotkey_match st1 = check_hotkey_match st2.
Proof.
  intros Ht Hp Hk.
  unfold check_hotkey_match, no_targets, get_pressed_keys. by rewrite Ht, Hp, Hk.
Qed.

Lemma latch_press_Some mm st st' out :
  latch_press mm st = Some (st', out) →
  _target_hotkeys st' = _target_hotkeys st
  ∧ _is_hotkey_paused st' = _is_hotkey_paused st
  ∧ pressed_keys st' = pressed_keys st
  ∧ ∃ m, mm = Some m ∧ out = [hotkey_pressed m].
Proof.
  unfold latch_press. destruct mm as [m|]; [|done].
  destruct (_was_hotkey_pressed st); [done|]. intros [= <- <-]. eauto 10.
Qed.

(** A key event leaves the configuration alone, and a press signal for
    [m] means that [check_hotkey_match] answered [m] under it. *)
Lemma handle_spec now e st :
  _target_hotkeys (handle now e st).1 = _target_hotkeys st
  ∧ _is_hotkey_paused (handle now e st).1 = _is_hotkey_paused st
  ∧ ∀ m, hotkey_pressed m ∈ (handle now e st).2 →
         ∃ st', _target_hotkeys st' = _target_hotkeys st
                ∧ check_hotkey_match st' = Some m.
Proof.
  assert (Hlatch : ∀ st1 st2,
    _target_hotkeys st1 = _target_hotkeys st →
    _is_hotkey_paused st1 = _is_hotkey_paused st →
    _target_hotkeys st2 = _target_hotkeys st →
    _is_hotkey_paused st2 = _is_hotkey_paused st →
    let r := match latch_press (check_hotkey_match st1) st1 with
             | Some r => r
             | None => (st2, [])
             end in
    _target_hotkeys r.1 = _target_hotkeys st
    ∧ _is_hotkey_paused r.1 = _is_hotkey_paused st
    ∧ ∀ m, hotkey_pressed m ∈ r.2 →
           ∃ st', _target_hotkeys st' = _target_hotkeys st
                  ∧ check_hotkey_match st' = Some m).
  { intros st1 st2 Ht1 Hp1 Ht2 Hp2.
    destruct (latch_press _ _) as [[st' out]|] eqn:E; simpl.
    - apply latch_press_Some in E as (Ht & Hp & _ & m & Hm & ->).
      repeat split; [congruence..|].
      intros m' [= ->]%list_elem_of_singleton. by exists st1.
    - repeat split; [done..|]. intros m H. by apply elem_of_nil in H. }
  destruct e as [k|k]; simpl.
  - by apply Hlatch.
  - unfold _on_release, unlatch.
    repeat case_bool_decide; simpl;
      repeat match goal with
      | |- context [if ?b then _ else _] => destruct b eqn:?; simpl
      end.
    all: try (split_and!; [done..|]; intros m Hm;
              first [by apply elem_of_nil in Hm
                    |apply list_elem_of_singleton in Hm; discriminate]).
    by apply Hlatch.
Qed.

Lemma deliver_spec now es st :
  _target_hotkeys (deliver now es st).1 = _target_hotkeys st
  ∧ _is_hotkey_paused (deliver now es st).1 = _is_hotkey_paused st
  ∧ ∀ m, hotkey_pressed m ∈ (deliver now es st).2 →
         ∃ st', _target_hotkeys st' = _target_hotkeys st
                ∧ check_hotkey_match st' = Some m.
Proof.
  revert st. induction es as [|e es IH]; intros st; simpl.
  - repeat split; [done..|]. intros m H. by apply elem_of_nil in H.
  - destruct (handle_spec now e st) as (Ht & Hp & Hout).
    destruct (handle now e st) as [st1 out1]. simpl in *.
    destruct (IH st1) as (Ht' & Hp' & Hout').
    destruct (deliver now es st1) as [st2 out2]. simpl in *.
    repeat split; [congruence..|].
    intros m [H|H]%elem_of_app; [by apply Hout|].
    destruct (Hout' m H) as (st' & ? & ?). exists st'. split; congruence.
Qed.

Lemma on_press_pressed_keys now k st :
  pressed_keys (_on_press now k st).1 = {[k]} ∪ pressed_keys st.
Proof.
  unfold _on_press. destruct (latch_press _ _) as [[st' out]|] eqn:E; simpl; [|done].
  by apply latch_press_Some in E as (_ & _ & -> & _).
Qed.

Lemma deliver_cons now e es st :
  deliver now (e :: es) st
  = ((deliver now es (handle now e st).1).1,
     (handle now e st).2 ++ (deliver now es (handle now e st).1).2).
Proof.
  simpl. destruct (handle now e st) as [st1 out1]. simpl.
  by destruct (deliver now es st1).
Qed.

Lemma deliver_presses_keys now ks st :
  pressed_keys (deliver now (press <$> ks) st).1 = list_to_set ks ∪ pressed_keys st.
Proof.
  revert st. induction ks as [|k ks IH]; intros st.
  - simpl. by rewrite (left_id_L ∅ (∪)).
  - rewrite fmap_cons, deliver_cons. cbn [fst handle]. rewrite IH.
    rewrite on_press_pressed_keys, list_to_set_cons.
    rewrite (assoc_L (∪)). f_equal. apply (comm_L (∪)).
Qed.

(** The number of reported keys. *)
Lemma get_pressed_keys_count st :
  length (get_pressed_keys st) = (3 `min` size (pressed_keys st))%nat.
Proof.
  unfold get_pressed_keys. rewrite length_take. f_equal.
  apply Permutation_length, merge_sort_Permutation.
Qed.

Lemma get_pressed_keys_NoDup st : NoDup (get_pressed_keys st).
Proof.
  unfold get_pressed_keys. eapply sublist_NoDup; [|apply sublist_take].
  rewrite merge_sort_Permutation. apply NoDup_elements.
Qed.

(** A held key that is not reported comes after every reported key. *)
Lemma get_pressed_keys_first st k k' :
  k ∈ pressed_keys st → k ∉ get_pressed_keys st → k' ∈ get_pressed_keys st →
  String.le k' k ∧ k' ≠ k.
Proof.
  unfold get_pressed_keys. intros Hk Hnot Hk'.
  split; [|by intros ->].
  pose proof (StronglySorted_merge_sort String.le (elements (pressed_keys st)))
    as Hs.
  rewrite <- (take_drop 3 (merge_sort _ _)) in Hs.
  eapply StronglySorted_app_1_elem_of; [exact Hs|done|].
  apply elem_of_elements in Hk. rewrite <- merge_sort_Permutation in Hk.
  rewrite <- (take_drop 3 (merge_sort _ _)) in Hk.
  apply elem_of_app in Hk as [Hk|Hk]; [by destruct Hnot|done].
Qed.

(** What [List.find] answers: the first element that passes the test. *)
Lemma find_first {A} (f : A → bool) (l : list A) (x : A) :
  List.find f l = Some x
  ↔ ∃ l1 l2, l = l1 ++ x :: l2 ∧ f x = true ∧ Forall (λ y, f y = false) l1.
Proof.
  induction l as [|y l IH]; simpl.
  - split; [done|]. intros (l1 & l2 & Hl & _). by destruct l1.
  - destruct (f y) eqn:Hy.
    + split.
      * intros [= ->]. exists [], l. by split_and!.
      * intros (l1 & l2 & Hl & Hx & Hl1). destruct l1 as [|z l1].
        -- by simplify_eq/=.
        -- simplify_eq/=. apply Forall_cons in Hl1 as [Hz _]. congruence.
    + rewrite IH. split.
      * intros (l1 & l2 & -> & Hx & Hl1). exists (y :: l1), l2.
        split_and!; [done|done|by constructor].
      * intros (l1 & l2 & Hl & Hx & Hl1). destruct l1 as [|z l1].
        -- simplify_eq/=. congruence.
        -- simplify_eq/=. apply Forall_cons in Hl1 as [_ Hl1]. eauto.
Qed.

(** [check_hotkey_match] answers [m] exactly when triggers are not
    paused and [m] is the first mode, in the order of the dict, whose
    configured set is the set of the reported keys. *)
Lemma check_hotkey_match_first st m :
  check_hotkey_match st = Some m
  ↔ _is_hotkey_paused st = false
    ∧ ∃ before keys after,
        default [] (_target_hotkeys st) = before ++ (m, keys) :: after
        ∧ keys = list_to_set (get_pressed_keys st)
        ∧ Forall (λ p, p.2 ≠ list_to_set (get_pressed_keys st)) before.
Proof.
  unfold check_hotkey_match.
  assert (Hnt : no_targets st = true → default [] (_target_hotkeys st) = []).
  { unfold no_targets. by destruct (_target_hotkeys st) as [[|]|]. }
  destruct (no_targets st) eqn:Ent; simpl.
  - rewrite (Hnt eq_refl). split; [done|].
    intros (_ & before & keys & after & Hl & _). by destruct before.
  - destruct (_is_hotkey_paused st); simpl; [split; [done|by intros [? _]]|].
    split.
    + destruct (List.find _ _) as [[m' keys]|] eqn:E; [|done].
      intros [= ->]. apply find_first in E as (l1 & l2 & Hl & Hx & Hl1).
      split; [done|]. exists l1, keys, l2. split_and!; [done| |].
      * apply bool_decide_eq_true in Hx. done.
      * eapply Forall_impl; [exact Hl1|]. intros p Hp Heq.
        apply bool_decide_eq_false in Hp. by destruct Hp.
    + intros (_ & before & keys & after & Hl & Hk & Hb).
      assert (E : List.find
                    (λ p : CommandMode * gset string,
                       bool_decide (list_to_set (get_pressed_keys st) = p.2))
                    (default [] (_target_hotkeys st)) = Some (m, keys)).
      { apply find_first. exists before, after. split_and!; [done| |].
        - by apply bool_decide_eq_true.
        - eapply Forall_impl; [exact Hb|]. intros p Hp.
          apply bool_decide_eq_false. intros Heq. by apply Hp. }
      by rewrite E.
Qed.

(** C9.  [get_pressed_keys] reports the first three held symbols in
    sorted order: as many as are held but not more than three, each of
    them held, none twice, and every held symbol that is left out comes
    after every reported one.  [check_hotkey_match] compares the
    configured sets with the set of the reported symbols only: it
    answers a mode exactly when triggers are not paused and that mode is
    the first, in the order of the dict, whose configured set is that
    set.  So a mode whose configured combination has four keys or more
    is never matched, no sequence of key events emits the press signal
    for it, and the answer after pressing a set of keys does not depend
    on the order in which they were pressed. *)
Theorem hotkey_match_three_keys (st : state) (m : CommandMode) :
  (length (get_pressed_keys st) = (3 `min` size (pressed_keys st))%nat
   ∧ StronglySorted String.le (get_pressed_keys st)
   ∧ NoDup (get_pressed_keys st)
   ∧ (∀ k, k ∈ get_pressed_keys st → k ∈ pressed_keys st)
   ∧ (∀ k k', k ∈ pressed_keys st → k ∉ get_pressed_keys st →
              k' ∈ get_pressed_keys st → String.le k' k ∧ k' ≠ k))
  ∧ (∀ m', check_hotkey_match st = Some m'
           ↔ _is_hotkey_paused st = false
             ∧ ∃ before keys after,
                 default [] (_target_hotkeys st) = before ++ (m', keys) :: after
                 ∧ keys = list_to_set (get_pressed_keys st)
                 ∧ Forall (λ p, p.2 ≠ list_to_set (get_pressed_keys st)) before)
  ∧ ((∀ keys, (m, keys) ∈ default [] (_target_hotkeys st) → (4 ≤ size keys)%nat) →
     check_hotkey_match st ≠ Some m
     ∧ ∀ now es, hotkey_pressed m ∉ (deliver now es st).2)
  ∧ (∀ now ks1 ks2, ks1 ≡ₚ ks2 →
       check_hotkey_match (deliver now (press <$> ks1) st).1
       = check_hotkey_match (deliver now (press <$> ks2) st).1).
Proof.
  split; [|split; [|split]].
  - split_and!.
    + apply get_pressed_keys_count.
    + apply get_pressed_keys_sorted.
    + apply get_pressed_keys_NoDup.
    + apply get_pressed_keys_held.
    + apply get_pressed_keys_first.
  - apply check_hotkey_match_first.
  - intros Hfour. split.
    + intros (keys & Hin & Hle)%check_hotkey_match_small.
      specialize (Hfour keys Hin). lia.
    + intros now es Hin.
      destruct (deliver_spec now es st) as (_ & _ & Hout).
      destruct (Hout m Hin)
        as (st' & Ht & (keys & Hk & Hle)%check_hotkey_match_small).
      rewrite Ht in Hk. specialize (Hfour keys Hk). lia.
  - intros now ks1 ks2 Hp.
    destruct (deliver_spec now (press <$> ks1) st) as (Ht1 & Hp1 & _).
    destruct (deliver_spec now (press <$> ks2) st) as (Ht2 & Hp2 & _).
    apply check_hotkey_match_ext; [congruence..|].
    rewrite !deliver_presses_keys. f_equal.
    apply set_eq. intros x. rewrite !elem_of_list_to_set. by rewrite Hp.
Qed.


Lemma set_hotkeys_idempotent_witness :
  NoDup two_hotkeys.*1
  ∧ set_hotkeys two_hotkeys (set_hotkeys two_hotkeys init).2
    = (true, (set_hotkeys two_hotkeys init).2).
Proof.
  assert (Hd : NoDup two_hotkeys.*1)
    by (apply (bool_decide_unpack _); vm_compute; exact I).
  split; [exact Hd|].
  exact (proj2 (set_hotkeys_idempotent two_hotkeys init Hd)).
Defined.

(** With all four keys of the action hotkey held, nothing matches. *)
Example four_keys_held_no_match :
  check_hotkey_match
    (deliver 0 [press "ctrl"; press "shift"; press "a"; press "b"]
             four_key_action).1 = None
  ∧ get_pressed_keys
      (deliver 0 [press "ctrl"; press "shift"; press "a"; press "b"]
               four_key_action).1 = ["a"; "b"; "ctrl"].
Proof. by vm_compute. Qed.

(** A fourth held key that sorts after the three reported ones is not
    seen: the three-key combination still matches. *)
Example fourth_key_not_seen :
  let st := (set_hotkeys [(DICTATION, Some "fn"); (ACTION, Some "a+b+c")] init).2 in
  let st4 := (deliver 0 [press "d"; press "c"; press "b"; press "a"] st).1 in
  pressed_keys st4 = list_to_set ["a"; "b"; "c"; "d"]
  ∧ get_pressed_keys st4 = ["a"; "b"; "c"]
  ∧ check_hotkey_match st4 = Some ACTION.
Proof. by vm_compute. Qed.

Lemma hotkey_match_three_keys_witness :
  (∀ keys, (ACTION, keys) ∈ default [] (_target_hotkeys four_key_action) →
           (4 ≤ size keys)%nat)
  ∧ check_hotkey_match four_key_action ≠ Some ACTION
  ∧ (hotkey_pressed ACTION
     ∉ (deliver 0 [press "ctrl"; press "shift"; press "a"; press "b"]
                four_key_action).2)
  ∧ length (get_pressed_keys
              (deliver 0 [press "ctrl"; press "shift"; press "a"; press "b"]
                       four_key_action).1)
    = (3 `min` size (pressed_keys
                       (deliver 0 [press "ctrl"; press "shift"; press "a";
                                   press "b"] four_key_action).1))%nat.
Proof.
  assert (H : ∀ keys,
             (ACTION, keys) ∈ default [] (_target_hotkeys four_key_action) →
             (4 ≤ size keys)%nat).
  { assert (Hall : Forall (λ p, p.1 = ACTION → (4 ≤ size p.2)%nat)
                          (default [] (_target_hotkeys four_key_action)))
      by (apply (bool_decide_unpack _); vm_compute; exact I).
    intros keys Hin.
    by apply (proj1 (Forall_forall _ _) Hall (ACTION, keys) Hin). }
  destruct (hotkey_match_three_keys four_key_action ACTION)
    as (_ & _ & Hfour & _).
  destruct (Hfour H) as [Hno Hnever].
  destruct (hotkey_match_three_keys
              (deliver 0 [press "ctrl"; press "shift"; press "a"; press "b"]
                       four_key_action).1 ACTION) as ((Hlen & _) & _).
  split_and!; [exact H|exact Hno|exact (Hnever 0 _)|exact Hlen].
Defined.

End keyboard_manager.

(** ** CommandProcessor *)

Section command_processor.
Import CommandProcessor.

Lemma phase_of_set_phase t t' p st :
  phase_of t' (set_phase t p st)
  = if bool_decide (t = t') then (λ _, p) <$> phase_of t' st else phase_of t' st.
Proof.
  unfold phase_of, set_phase. simpl. case_bool_decide as Ht.
  - subst. rewrite list_lookup_alter_eq. by destruct (threads st !! t').
  - by rewrite list_lookup_alter_ne.
Qed.


Lemma single_flight_init : single_flight init.
Proof.
  split; simpl; [|lia|].
  - intros t p H. by destruct t.
  - split; [done|]. intros [t H]. by destruct t.
Qed.

Ltac phases :=
  repeat match goal with
  | H : context [phase_of _ (set_phase _ _ _)] |- _ =>
      rewrite phase_of_set_phase in H
  | |- context [phase_of _ (set_phase _ _ _)] => rewrite phase_of_set_phase
  | H : context [bool_decide (?a = ?b)] |- _ =>
      destruct (bool_decide_reflect (a = b)); subst
  | |- context [bool_decide (?a = ?b)] =>
      destruct (bool_decide_reflect (a = b)); subst
  end.

(** Moving the holder among the phases in which it holds the flag keeps
    the invariant, provided no thread waits to be started. *)
Lemma single_flight_advance t p q st :
  single_flight st → phase_of t st = Some p →
  holding p = true → holding q = true → p ≠ Created → q ≠ Created →
  single_flight (set_phase t q st).
Proof.
  intros [Hh Hle Hc] Hp Hhp Hhq Hpc Hqc. split.
  - intros t' p' H Hh'. phases.
    + simpl. apply (Hh t' p); done.
    + apply (Hh t' p'); done.
  - done.
  - simpl. change (starting st) with (starting st). rewrite Hc.
    split; intros [t' H]; exists t'; phases; try done.
    + rewrite Hp in H. simpl in H. congruence.
    + rewrite Hp in H. simpl in H. congruence.
Qed.


Lemma single_flight_idle st :
  single_flight st → _is_processing st = false →
  starting st = 0%nat ∧ ∀ t p, phase_of t st = Some p → holding p = false.
Proof.
  intros [Hh Hle Hc] Hf. split.
  - destruct (decide (starting st = 1%nat)) as [H1|]; [|lia].
    apply Hc in H1 as [t Ht]. destruct (Hh t Created Ht eq_refl). congruence.
  - intros t p Hp. destruct (holding p) eqn:E; [|done].
    destruct (Hh t p Hp E). congruence.
Qed.

Lemma phase_of_spawn f th w n st t :
  phase_of t (mkState f th (threads st ++ [w]) n)
  = if bool_decide (t = length (threads st)) then Some (at_phase w)
    else phase_of t st.
Proof.
  unfold phase_of. simpl. case_bool_decide as Ht.
  - subst. by rewrite lookup_app_r, Nat.sub_diag by lia.
  - destruct (decide (t < length (threads st))%nat).
    + by rewrite lookup_app_l.
    + rewrite !lookup_ge_None_2; [done|lia|rewrite length_app; simpl; lia].
Qed.

Lemma single_flight_process_command c text audio m st :
  single_flight st → single_flight (process_command c text audio m st).1.2.
Proof.
  intros Hinv. unfold process_command.
  destruct (empty_command text audio); [done|].
  destruct (_is_processing st) eqn:Hf; [done|]. simpl.
  destruct (single_flight_idle st Hinv Hf) as [Hs Hno]. split.
  - intros t p. rewrite phase_of_spawn. case_bool_decide; [by subst|].
    intros Hp Hh. by rewrite (Hno t p Hp) in Hh.
  - simpl. lia.
  - simpl. split; [|lia]. intros _. exists (length (threads st)).
    rewrite phase_of_spawn. by rewrite bool_decide_eq_true_2.
Qed.

Lemma single_flight_start_thread st :
  single_flight st → single_flight (start_thread st).
Proof.
  intros Hinv. unfold start_thread. destruct (starting st) as [|n] eqn:Hs; [done|].
  destruct Hinv as [Hh Hle Hc].
  assert (n = 0%nat) as -> by lia.
  destruct (proj1 Hc Hs) as [t Ht].
  destruct (Hh t Created Ht eq_refl) as [Hf Hcur]. rewrite Hcur.
  rewrite bool_decide_eq_true_2 by done. split.
  - intros t' p'. rewrite phase_of_set_phase. case_bool_decide; [by subst|].
    intros Hp' Hh'. destruct (Hh t' p' Hp' Hh'). simpl. split; congruence.
  - simpl. lia.
  - simpl. split; [done|]. intros [t' H]. rewrite phase_of_set_phase in H.
    case_bool_decide.
    + subst. change (phase_of t' _) with (phase_of t' st) in H.
      rewrite Ht in H. done.
    + change (phase_of t' _) with (phase_of t' st) in H.
      destruct (Hh t' Created H eq_refl). congruence.
Qed.

Lemma single_flight_enter t st : single_flight st → single_flight (enter t st).
Proof.
  intros Hinv. unfold enter. destruct (threads st !! t) as [w|] eqn:Hw; [|done].
  assert (Hp : phase_of t st = Some (at_phase w)) by (unfold phase_of; by rewrite Hw).
  destruct (at_phase w) eqn:Hph; try done.
  destruct (mode w); by eapply single_flight_advance.
Qed.

Lemma single_flight_leave t o st : single_flight st → single_flight (leave t o st).
Proof.
  intros Hinv. unfold leave. case_bool_decide as Hp; [|done].
  destruct o; by eapply single_flight_advance.
Qed.

Lemma single_flight_release t st : single_flight st → single_flight (release t st).
Proof.
  intros [Hh Hle Hc]. unfold release.
  destruct (phase_of t st) as [[]|] eqn:Hp; try done.
  destruct (Hh t _ Hp eq_refl) as [Hf Hcur].
  assert (Hother : ∀ t' p', phase_of t' st = Some p' → holding p' = true → t' = t).
  { intros t' p' Hp' Hh'. destruct (Hh t' p' Hp' Hh'). congruence. }
  assert (Hs : starting st = 0%nat).
  { destruct (decide (starting st = 1%nat)) as [H1|]; [|lia].
    apply Hc in H1 as [t' Ht']. rewrite (Hother t' _ Ht' eq_refl) in Ht'.
    congruence. }
  split.
  - intros t' p'. rewrite phase_of_set_phase.
    change (phase_of t' (mkState _ _ _ _)) with (phase_of t' st).
    case_bool_decide.
    + subst. rewrite Hp. simpl. by intros [= <-].
    + intros Hp' Hh'. by specialize (Hother t' p' Hp' Hh').
  - simpl. lia.
  - simpl. rewrite Hs. split; [done|]. intros [t' H].
    rewrite phase_of_set_phase in H.
    change (phase_of t' (mkState _ _ _ _)) with (phase_of t' st) in H.
    case_bool_decide.
    + subst. rewrite Hp in H. done.
    + specialize (Hother t' _ H eq_refl). done.
Qed.

Lemma single_flight_report t st : single_flight st → single_flight (report t st).1.
Proof.
  intros [Hh Hle Hc]. unfold report.
  destruct (phase_of t st) as [[]|] eqn:Hp; try done. simpl. split.
  - intros t' p'. rewrite phase_of_set_phase. case_bool_decide.
    + subst. rewrite Hp. simpl. by intros [= <-].
    + apply Hh.
  - done.
  - simpl. rewrite Hc. split; intros [t' H]; exists t'.
    + rewrite phase_of_set_phase. case_bool_decide; [subst; congruence|done].
    + rewrite phase_of_set_phase in H. case_bool_decide; [|done].
      subst. rewrite Hp in H. done.
Qed.

Lemma single_flight_step e st :
  submission e = true → single_flight st → single_flight (step e st).1.
Proof.
  intros He Hinv. destruct e; simpl; try done.
  - pose proof (single_flight_process_command context_data text audio mode0 st Hinv).
    by destruct (process_command _ _ _ _ _) as [[??]?].
  - by apply single_flight_start_thread.
  - by apply single_flight_enter.
  - by apply single_flight_leave.
  - by apply single_flight_release.
  - by apply single_flight_report.
Qed.

Lemma run_cons e es st :
  run (e :: es) st
  = ((run es (step e st).1).1, (step e st).2 ++ (run es (step e st).1).2).
Proof.
  simpl. destruct (step e st) as [st1 out1]. simpl. by destruct (run es st1).
Qed.

Lemma single_flight_run es st :
  Forall (λ e, submission e = true) es →
  single_flight st → single_flight (run es st).1.
Proof.
  intros Hes. revert st. induction Hes as [|e es He Hes IH]; intros st Hinv.
  - done.
  - rewrite run_cons. simpl. apply IH. by apply single_flight_step.
Qed.

Lemma filter_at_most_one {A} (P : A → bool) (l : list A) :
  (∀ i j x y, l !! i = Some x → l !! j = Some y →
              P x = true → P y = true → i = j) →
  (length (List.filter P l) ≤ 1)%nat.
Proof.
  induction l as [|x l IH]; intros Huniq; simpl; [lia|].
  destruct (P x) eqn:Hx.
  - assert (List.filter P l = []) as ->; [|simpl; lia].
    destruct (List.filter P l) as [|y l'] eqn:E; [done|].
    assert (Hy : In y (List.filter P l)) by (rewrite E; by left).
    apply filter_In in Hy as [Hin Hy].
    apply list_elem_of_In, list_elem_of_lookup in Hin as [j Hj].
    by specialize (Huniq 0%nat (S j) x y eq_refl Hj Hx Hy).
  - apply IH. intros i j a b Hi Hj Ha Hb.
    by specialize (Huniq (S i) (S j) a b Hi Hj Ha Hb) as [= ->].
Qed.

Lemma single_flight_executing st :
  single_flight st → (length (executing st) ≤ 1)%nat.
Proof.
  intros [Hh _ _]. apply filter_at_most_one.
  intros i j x y Hi Hj Hx%bool_decide_eq_true Hy%bool_decide_eq_true.
  assert (Hpi : phase_of i st = Some InEngine) by (unfold phase_of; by rewrite Hi, <- Hx).
  assert (Hpj : phase_of j st = Some InEngine) by (unfold phase_of; by rewrite Hj, <- Hy).
  destruct (Hh i _ Hpi eq_refl), (Hh j _ Hpj eq_refl). congruence.
Qed.


Lemma flag_cleared_by_release e st :
  submission e = true → _is_processing st = true →
  _is_processing (step e st).1 = false →
  ∃ t success error_msg,
    e = Release t ∧ phase_of t st = Some (Leaving success error_msg).
Proof.
  intros He Hf. destruct e; simpl; try done.
  - unfold process_command. destruct (empty_command _ _); simpl; [congruence|].
    rewrite Hf. simpl. congruence.
  - unfold start_thread. destruct (starting st); [congruence|].
    destruct (_processing_thread st); [case_bool_decide|]; simpl; congruence.
  - unfold enter. destruct (threads st !! t) as [w|]; [|congruence].
    destruct (at_phase w), (mode w); simpl; congruence.
  - unfold leave. case_bool_decide; [destruct o|]; simpl; congruence.
  - unfold release. destruct (phase_of t st) as [[]|] eqn:Hp; simpl; try congruence.
    eauto.
  - unfold report. destruct (phase_of t st) as [[]|]; simpl; congruence.
Qed.

(** A worker leaves its [try] block when the engine call returns or
    raises, or when the mode is not supported and no call is made. *)
Lemma try_block_left e t success error_msg st :
  phase_of t (step e st).1 = Some (Leaving success error_msg) →
  phase_of t st ≠ Some (Leaving success error_msg) →
  (∃ o, e = Leave t o ∧ phase_of t st = Some InEngine)
  ∨ (e = Enter t ∧ phase_of t st = Some Started
     ∧ mode <$> threads st !! t = Some None).
Proof.
  destruct e as [c text audio m| |t'|t' o|t'|t'|]; simpl.
  - unfold process_command. destruct (empty_command _ _); simpl; [done|].
    destruct (_is_processing st); simpl; [done|].
    rewrite phase_of_spawn. case_bool_decide; [done|]. done.
  - unfold start_thread. destruct (starting st); [done|].
    destruct (_processing_thread st) as [t0|]; [|done].
    case_bool_decide; [|done]. rewrite phase_of_set_phase.
    case_bool_decide; [|done].
    change (phase_of t (mkState _ _ _ _)) with (phase_of t st).
    by destruct (phase_of t st).
  - unfold enter. destruct (threads st !! t') as [w|] eqn:Hw; [|done].
    destruct (at_phase w) eqn:Hph; try done.
    destruct (mode w) eqn:Hm; rewrite phase_of_set_phase;
      (case_bool_decide as Ht; [subst t'|done]).
    + by destruct (phase_of t st).
    + intros _ _. right. unfold phase_of. rewrite Hw. simpl.
      by rewrite Hph, Hm.
  - unfold leave. case_bool_decide as Hp; [|done].
    destruct o; rewrite phase_of_set_phase;
      (case_bool_decide as Ht; [subst t'|done]); intros _ _; left; eauto.
  - unfold release. destruct (phase_of t' st) as [[]|] eqn:Hp; try done.
    rewrite phase_of_set_phase.
    change (phase_of t (mkState _ _ _ _)) with (phase_of t st).
    case_bool_decide; [|done]. by destruct (phase_of t st).
  - unfold report. destruct (phase_of t' st) as [[]|] eqn:Hp; try done. simpl.
    rewrite phase_of_set_phase. case_bool_decide; [|done].
    by destruct (phase_of t st).
  - unfold is_processing. by destruct (_is_processing st && _).
Qed.

Lemma process_command_call_idle c text audio m st :
  single_flight st → empty_command text audio = false →
  _is_processing st = false →
  ∃ st', process_command_call c text audio m st = (true, st', [])
         ∧ _is_processing st' = true
         ∧ threads st' = threads st ++ [mkWorker c text m audio Started].
Proof.
  intros Hinv He Hf. destruct (single_flight_idle st Hinv Hf) as [Hs _].
  unfold process_command_call, process_command. rewrite He, Hf, Hs.
  eexists. split; [done|]. unfold start_thread. simpl.
  rewrite bool_decide_eq_true_2.
  - split; [done|]. simpl.
    replace (length (threads st)) with (length (threads st) + 0)%nat by lia.
    by rewrite alter_app_r.
  - unfold phase_of. simpl. by rewrite lookup_app_r, Nat.sub_diag by lia.
Qed.

(** C1 (as amended).  Over every schedule of [process_command] calls
    and worker steps, at most one worker is inside the processing
    engine, and a worker holds the busy flag from its creation to its
    [finally].  A call with a command that is not empty, made while the
    flag is set, returns [False], emits the busy status and changes
    nothing; made while the flag is clear, it sets the flag, starts
    exactly one worker and returns [True].  A call with an empty command
    returns [False], emits the status [StatusMessage.READY] and changes
    nothing.  The flag is cleared only by the [finally] block of a
    worker that has left its [try] block.  A worker leaves it when the
    engine call returns or raises, or, when its mode is neither action
    nor dictation ([None], which the signature admits), when the
    [ValueError] is raised in place of the call: the flag is then
    cleared although no engine call was made. *)
Theorem process_command_single_flight (es : list event) :
  Forall (λ e, submission e = true) es →
  let st := (run es init).1 in
  (length (executing st) ≤ 1)%nat
  ∧ (∀ t p, phase_of t st = Some p → holding p = true →
            _is_processing st = true)
  ∧ (∀ c text audio m, empty_command text audio = false →
       if _is_processing st
       then process_command c text audio m st
            = (false, st, [Emit StatusMessage.BUSY])
       else ∃ st', process_command_call c text audio m st = (true, st', [])
                   ∧ _is_processing st' = true
                   ∧ threads st'
                     = threads st ++ [mkWorker c text m audio Started])
  ∧ (∀ c text audio m, empty_command text audio = true →
       process_command c text audio m st
       = (false, st, [Emit StatusMessage.READY]))
  ∧ (∀ e, submission e = true → _is_processing st = true →
          _is_processing (step e st).1 = false →
          ∃ t success error_msg,
            e = Release t ∧ phase_of t st = Some (Leaving success error_msg))
  ∧ (∀ e t success error_msg,
       phase_of t (step e st).1 = Some (Leaving success error_msg) →
       phase_of t st ≠ Some (Leaving success error_msg) →
       (∃ o, e = Leave t o ∧ phase_of t st = Some InEngine)
       ∨ (e = Enter t ∧ phase_of t st = Some Started
          ∧ mode <$> threads st !! t = Some None)).
Proof.
  intros Hes st.
  assert (Hinv : single_flight st)
    by (apply single_flight_run; [done|apply single_flight_init]).
  split_and!.
  - by apply single_flight_executing.
  - intros t p Hp Hh. by destruct (holder_is_current st Hinv t p Hp Hh).
  - intros c text audio m He. destruct (_is_processing st) eqn:Hf.
    + unfold process_command. by rewrite He, Hf.
    + by apply process_command_call_idle.
  - intros c text audio m He. unfold process_command. by rewrite He.
  - intros e. apply flag_cleared_by_release.
  - intros e t success error_msg. apply try_block_left.
Qed.

Lemma process_command_single_flight_witness :
  Forall (λ e, submission e = true) [a_command; Start; Enter 0; a_command]
  ∧ (length (executing (run [a_command; Start; Enter 0; a_command] init).1) ≤ 1)%nat.
Proof.
  assert (H : Forall (λ e, submission e = true)
                     [a_command; Start; Enter 0; a_command])
    by (repeat constructor).
  split; [exact H|].
  exact (proj1 (process_command_single_flight _ H)).
Defined.

(** An empty command is turned away with [StatusMessage.READY]: by an
    idle processor, which neither sets the flag nor starts a worker, and
    by a busy one, which then does not emit the busy status. *)
Lemma process_command_empty_rejected :
  process_command_call ContextManager.unknown "" None (Some DICTATION) init
  = (false, init, [Emit StatusMessage.READY])
  ∧ (let busy := (run [a_command; Start; Enter 0] init).1 in
     _is_processing busy = true
     ∧ process_command_call ContextManager.unknown "  " None (Some DICTATION) busy
       = (false, busy, [Emit StatusMessage.READY])).
Proof. by vm_compute. Qed.

(** A worker submitted with mode [None] never enters the engine: its
    [try] block raises the [ValueError], and its [finally] clears the
    flag with no engine call made. *)
Example flag_cleared_without_engine_call :
  let submitted :=
    (run [Call ContextManager.unknown "select all" None None; Start] init).1 in
  let raised := (run [Enter 0] submitted).1 in
  let released := (run [Release 0] raised).1 in
  _is_processing submitted = true
  ∧ phase_of 0 raised = Some (Leaving false unsupported_mode)
  ∧ executing raised = []
  ∧ _is_processing raised = true
  ∧ _is_processing released = false
  ∧ (run [Report 0] released).2
    = [Emit ("Error processing: " +:+ unsupported_mode);
       Timer ready_delay "Ready"].
Proof. by vm_compute. Qed.

(** Outside the schedules of the theorem: a read of the [is_processing]
    property between the locked block and [start()] resets the flag, and
    two workers then run the engine together. *)
Example is_processing_read_races :
  length (executing
            (run [a_command; ReadIsProcessing; Start; Enter 0;
                  a_command; Start; Enter 1] init).1) = 2%nat.
Proof. reflexivity. Qed.

End command_processor.

Section reports.
Import CommandProcessor.

Lemma startswith_append s t : startswith s (s +:+ t) = true.
Proof.
  induction s as [|c s IH]; [done|].
  change (String c s +:+ t) with (String c (s +:+ t)). simpl.
  by rewrite Ascii.eqb_refl.
Qed.

Lemma final_status_terminal success error_msg :
  is_terminal (final_status success error_msg) = true.
Proof.
  unfold is_terminal, final_status. destruct success; [done|].
  by rewrite startswith_append, orb_true_r.
Qed.

Lemma filter_alter_length {A} (P : A → bool) (f : A → A) (l : list A) (t : nat) (w : A) :
  l !! t = Some w →
  (length (List.filter P (alter f t l)) + (if P w then 1 else 0)
   = length (List.filter P l) + (if P (f w) then 1 else 0))%nat.
Proof.
  revert t. induction l as [|x l IH]; intros [|t]; simpl; try done.
  - intros [= ->]. destruct (P w), (P (f w)); simpl; lia.
  - intros Hw. specialize (IH t Hw). unfold alter in IH.
    destruct (P x); simpl; lia.
Qed.

Lemma finished_set_phase t p q st :
  phase_of t st = Some p →
  (length (finished (set_phase t q st)) + (if bool_decide (p = Finished) then 1 else 0)
   = length (finished st) + (if bool_decide (q = Finished) then 1 else 0))%nat.
Proof.
  unfold phase_of, finished, set_phase. simpl.
  destruct (threads st !! t) as [w|] eqn:Hw; [|done]. intros [= <-].
  exact (filter_alter_length (fun w => bool_decide (at_phase w = Finished)) _ _ _ _ Hw).
Qed.

Lemma step_reports e st :
  step_out (step e st).2
  ∧ (length (finished (step e st).1)
     = length (finished st) + length (terminal_statuses (step e st).2))%nat.
Proof.
  destruct e; simpl.
  - unfold process_command. destruct (empty_command _ _); simpl.
    { split; [by constructor|lia]. }
    destruct (_is_processing st); simpl.
    { split; [by constructor|lia]. }
    split; [constructor|]. unfold finished. simpl.
    rewrite List.filter_app, length_app. simpl. lia.
  - split; [constructor|]. unfold start_thread.
    destruct (starting st); [simpl; lia|].
    destruct (_processing_thread st) as [t|]; [|unfold finished; simpl; lia].
    case_bool_decide as Hp; [|unfold finished; simpl; lia].
    pose proof (finished_set_phase t Created Started
                  (mkState (_is_processing st) (Some t) (threads st) n) Hp) as H.
    simpl in H |- *. unfold finished in H |- *. simpl in H |- *. lia.
  - split; [constructor|]. unfold enter.
    destruct (threads st !! t) as [w|] eqn:Hw; [|simpl; lia].
    assert (Hp : phase_of t st = Some (at_phase w)) by (unfold phase_of; by rewrite Hw).
    destruct (at_phase w) eqn:E; try (simpl; lia).
    destruct (mode w).
    + pose proof (finished_set_phase t _ InEngine st Hp) as H. simpl in H |- *. lia.
    + pose proof (finished_set_phase t _ (Leaving false unsupported_mode) st Hp) as H.
      simpl in H |- *. lia.
  - split; [constructor|]. unfold leave. case_bool_decide as Hp; [|simpl; lia].
    destruct o.
    + pose proof (finished_set_phase t _ (Leaving true "") st Hp) as H. simpl in H |- *. lia.
    + pose proof (finished_set_phase t _ (Leaving false msg) st Hp) as H. simpl in H |- *. lia.
  - split; [constructor|]. unfold release.
    destruct (phase_of t st) as [[]|] eqn:Hp; try (simpl; lia).
    pose proof (finished_set_phase t _ (Reporting success error_msg)
                  (mkState false None (threads st) (starting st)) Hp) as H.
    simpl in H |- *. unfold finished in H |- *. simpl in H |- *. lia.
  - unfold report. destruct (phase_of t st) as [[]|] eqn:Hp;
      try (split; [constructor|simpl; lia]).
    split; [constructor|]. simpl. rewrite final_status_terminal. simpl.
    pose proof (finished_set_phase t _ Finished st Hp) as H. simpl in H. lia.
  - split; [constructor|]. unfold is_processing.
    destruct (_is_processing st && _); simpl; unfold finished; simpl; lia.
Qed.

Lemma announced_app out1 out2 :
  step_out out1 → announced out2 → announced (out1 ++ out2).
Proof.
  intros [|msg Hm|success error_msg] H2; simpl.
  - done.
  - by rewrite Hm.
  - by rewrite final_status_terminal.
Qed.

Lemma run_reports es st :
  announced (run es st).2
  ∧ (length (finished (run es st).1)
     = length (finished st) + length (terminal_statuses (run es st).2))%nat.
Proof.
  revert st. induction es as [|e es IH]; intros st.
  - simpl. split; [done|lia].
  - rewrite run_cons. simpl.
    destruct (step_reports e st) as [Hout Hn].
    destruct (IH (step e st).1) as [Ha Hn']. split.
    + by apply announced_app.
    + unfold terminal_statuses in *. rewrite List.filter_app, length_app. lia.
Qed.

End reports.


(** ** ContextManager *)

Section context_manager.
Import ContextManager.

Lemma fetch_context_async_in_flight mode info st :
  in_flight st = true → fetch_context_async mode info st = st.
Proof. intros H. unfold fetch_context_async. by rewrite H. Qed.

(** The end of a fetch thread leaves alone the identity of the current
    fetch, and touches the snapshot only from the current thread. *)
Lemma fetch_target_spec t full cursor st :
  _fetch_thread (_fetch_target t full cursor st) = _fetch_thread st
  ∧ (_fetch_thread st ≠ Some t ∨ is_alive t st = false →
     _current_context (_fetch_target t full cursor st) = _current_context st)
  ∧ (_fetch_thread st = Some t → is_alive t st = true →
     ∃ f, threads st !! t = Some f
          ∧ _current_context (_fetch_target t full cursor st)
            = mkContext (app_name (_current_context st))
                        (fetched (for_mode f) full cursor).1
                        (fetched (for_mode f) full cursor).2).
Proof.
  unfold _fetch_target, is_alive.
  destruct (threads st !! t) as [f|] eqn:Hf; simpl; [|by split_and!].
  destruct (running f) eqn:Hr; [|by split_and!].
  destruct (fetched (for_mode f) full cursor) as [primary page] eqn:E. simpl.
  split_and!; [done| |].
  - intros [Hne|?]; [|done]. by rewrite bool_decide_eq_false_2.
  - intros Heq _. exists f. by rewrite E, bool_decide_eq_true_2.
Qed.

Lemma fetch_target_ends t full cursor st :
  is_alive t (_fetch_target t full cursor st) = false.
Proof.
  unfold _fetch_target, is_alive.
  destruct (threads st !! t) as [f|] eqn:Hf; simpl; [|by rewrite Hf].
  destruct (running f) eqn:Hr; [|by rewrite Hf; simpl].
  destruct (fetched _ _ _). simpl.
  rewrite list_lookup_insert_eq; [done|]. by eapply lookup_lt_Some.
Qed.

(** C2.  A call of [fetch_context_async] made while a fetch is in flight
    changes nothing, so the fetch in flight stays the current one; and
    when a fetch thread ends, the snapshot read by [get_current_context]
    changes only if that thread is the current fetch thread: a thread
    that is no longer current leaves the snapshot as it is, the current
    one commits what it fetched. *)
Theorem stale_fetch_discarded (st : state) (t : nat) (full cursor : engine_result) :
  (in_flight st = true →
   ∀ mode info, fetch_context_async mode info st = st)
  ∧ (_fetch_thread st ≠ Some t →
     get_current_context (_fetch_target t full cursor st) = get_current_context st)
  ∧ (get_current_context (_fetch_target t full cursor st) ≠ get_current_context st →
     _fetch_thread st = Some t ∧ is_alive t st = true)
  ∧ (_fetch_thread st = Some t → is_alive t st = true →
     ∃ f, threads st !! t = Some f
          ∧ get_current_context (_fetch_target t full cursor st)
            = mkContext (app_name (get_current_context st))
                        (fetched (for_mode f) full cursor).1
                        (fetched (for_mode f) full cursor).2).
Proof.
  destruct (fetch_target_spec t full cursor st) as (_ & Hstale & Hcur).
  unfold get_current_context. split_and!.
  - intros H mode info. by apply fetch_context_async_in_flight.
  - intros Hne. apply Hstale. by left.
  - intros Hch. destruct (decide (_fetch_thread st = Some t)) as [Heq|Hne].
    + split; [done|]. destruct (is_alive t st) eqn:Ha; [done|].
      destruct Hch. apply Hstale. by right.
    + destruct Hch. apply Hstale. by left.
  - done.
Qed.

(** Two calls in quick succession: the second is skipped, and the
    result of the first fetch is the one committed. *)
Lemma stale_fetch_discarded_witness :
  let st := run [FetchAsync (Some ACTION) (Some (Some "Notes"));
                 FetchAsync (Some DICTATION) (Some (Some "TextEdit"))] init in
  in_flight st = true
  ∧ _fetch_thread st = Some 0%nat
  ∧ fetch_context_async (Some DICTATION) (Some (Some "Mail")) st = st
  ∧ get_current_context (_fetch_target 0 (Ret (Some "body")) Raise st)
    = mkContext (Some "Notes") (Some "body") None
  ∧ get_current_context (_fetch_target 1 (Ret (Some "late")) Raise st)
    = get_current_context st.
Proof.
  intros st.
  assert (Hf : in_flight st = true) by (by vm_compute).
  assert (Hc : _fetch_thread st = Some 0%nat) by (by vm_compute).
  assert (Hn : _fetch_thread st ≠ Some 1%nat) by (by vm_compute).
  destruct (stale_fetch_discarded st 1 (Ret (Some "late")) Raise) as (Hskip & Hstale & _).
  split_and!; [exact Hf|exact Hc|exact (Hskip Hf _ _)|by vm_compute|exact (Hstale Hn)].
Defined.

(** A fetch orphaned by [cleanup] and overtaken by a new one discards
    its result, whether it ends before or after the new one. *)
Example superseded_fetch :
  let st := run [FetchAsync (Some ACTION) (Some (Some "Notes")); Cleanup;
                 FetchAsync (Some ACTION) (Some (Some "TextEdit"))] init in
  get_current_context (run [Done 0 (Ret (Some "old")) Raise] st)
  = mkContext (Some "TextEdit") None None
  ∧ get_current_context
      (run [Done 1 (Ret (Some "new")) Raise; Done 0 (Ret (Some "old")) Raise] st)
    = mkContext (Some "TextEdit") (Some "new") None.
Proof. by vm_compute. Qed.

(** C10.  When no fetch is in flight and the active window cannot be
    determined, [fetch_context_async] resets the snapshot to the
    application name ["Unknown"] with both context fields absent and
    starts no thread; [wait_for_context] then returns at once, without
    joining any thread, with no primary context. *)
Theorem unknown_window_no_fetch (st : state) (mode : option CommandMode)
    (info : window_info) (during : option (engine_result * engine_result)) :
  in_flight st = false → determined info = None →
  let st' := fetch_context_async mode info st in
  get_current_context st' = mkContext (Some "Unknown") None None
  ∧ threads st' = threads st
  ∧ _fetch_thread st' = _fetch_thread st
  ∧ in_flight st' = false
  ∧ wait_for_context during st' = (None, false, st').
Proof.
  intros Hfl Hdet st'. subst st'. unfold fetch_context_async.
  rewrite Hfl, Hdet. unfold get_current_context. simpl.
  assert (Hfl' : in_flight (mkState (mkContext (Some "Unknown") None None)
                                    (_fetch_thread st) (threads st)) = false)
    by exact Hfl.
  split_and!; [done..|].
  unfold wait_for_context. unfold in_flight in Hfl'. simpl in *.
  destruct (_fetch_thread st) as [t|]; [|done].
  unfold is_alive in *. simpl in *. by rewrite Hfl'.
Qed.

Lemma unknown_window_no_fetch_witness :
  let st := run [FetchAsync (Some ACTION) (Some (Some "Notes"));
                 Done 0 (Ret (Some "body")) Raise] init in
  in_flight st = false
  ∧ determined (Some (Some "")) = None
  ∧ get_current_context (fetch_context_async (Some DICTATION) (Some (Some "")) st)
    = mkContext (Some "Unknown") None None
  ∧ wait_for_context None (fetch_context_async (Some DICTATION) (Some (Some "")) st)
    = (None, false, fetch_context_async (Some DICTATION) (Some (Some "")) st).
Proof.
  intros st.
  assert (Hf : in_flight st = false) by (by vm_compute).
  assert (Hd : determined (Some (Some "")) = None) by reflexivity.
  destruct (unknown_window_no_fetch st (Some DICTATION) (Some (Some "")) None Hf Hd)
    as (H1 & _ & _ & _ & H5).
  split_and!; [exact Hf|exact Hd|exact H1|exact H5].
Defined.

End context_manager.

(** ** AudioRecorder *)

Section audio_recorder.
Import AudioRecorder.

(** C6.  While a recording is in progress, [start_recording] returns
    [False], emits nothing and leaves the recorder as it was: the
    buffered chunks, the stop event, the processing callback and the
    recording flag of the first session are untouched. *)
Theorem start_recording_while_recording (st : state) (cb : callback) :
  is_recording st = true →
  start_recording cb st = (false, st, [])
  ∧ _audio_queue (start_recording cb st).1.2 = _audio_queue st
  ∧ _stop_event (start_recording cb st).1.2 = _stop_event st
  ∧ _processing_callback (start_recording cb st).1.2 = _processing_callback st
  ∧ _is_recording (start_recording cb st).1.2 = true.
Proof.
  unfold is_recording. intros H. unfold start_recording. by rewrite H.
Qed.

Lemma start_recording_while_recording_witness :
  let st := (run [StartRecording 7%nat; Block 0%nat [3; -4]; Block 0%nat [5]] init).1 in
  is_recording st = true
  ∧ start_recording 8%nat st = (false, st, [])
  ∧ _audio_queue (start_recording 8%nat st).1.2 = [[3; -4]; [5]]
  ∧ _processing_callback (start_recording 8%nat st).1.2 = Some 7%nat.
Proof.
  intros st.
  assert (H : is_recording st = true) by reflexivity.
  destruct (start_recording_while_recording st 8%nat H) as (H1 & H2 & _ & H4 & _).
  split_and!; [exact H|exact H1| |].
  - etrans; [exact H2|reflexivity].
  - etrans; [exact H4|reflexivity].
Defined.

Lemma run_cons_recorder e es st :
  run (e :: es) st
  = ((run es (step e st).1).1, (step e st).2 ++ (run es (step e st).1).2).
Proof.
  simpl. destruct (step e st) as [st1 out1]. simpl. by destruct (run es st1).
Qed.

Lemma run_app_recorder es1 es2 st :
  run (es1 ++ es2) st
  = ((run es2 (run es1 st).1).1, (run es1 st).2 ++ (run es2 (run es1 st).1).2).
Proof.
  revert st. induction es1 as [|e es1 IH]; intros st.
  - simpl. by destruct (run es2 st).
  - rewrite <- app_comm_cons, !run_cons_recorder, IH. simpl.
    by rewrite (assoc_L (++)).
Qed.

Lemma errors_app out1 out2 : errors (out1 ++ out2) = (errors out1 + errors out2)%nat.
Proof. unfold errors. by rewrite List.filter_app, length_app. Qed.

Lemma lookup_snoc_at {A} (l l' : list A) (x : A) :
  length l' = length l → (l' ++ [x]) !! length l = Some x.
Proof. intros <-. by rewrite lookup_app_r, Nat.sub_diag by lia. Qed.

(** What [start_recording] sets up from an idle recorder. *)
Lemma start_recording_arms (st : state) (cb : callback) :
  is_recording st = false →
  ∃ st1, start_recording cb st = (true, st1, [Emit StatusMessage.RECORDING])
    ∧ _is_recording st1 = true ∧ _stop_event st1 = false
    ∧ _audio_detected st1 = false ∧ _audio_queue st1 = []
    ∧ _processing_callback st1 = Some cb
    ∧ _watchdog_thread st1 = Some (length (watchdogs st))
    ∧ _watchdog_stop_event st1 = Some (length (events st))
    ∧ events st1 !! length (events st) = Some false
    ∧ watchdogs st1 !! length (watchdogs st) = Some (mkWatchdog None true)
    ∧ monitors st1 !! length (monitors st) = Some true.
Proof.
  unfold is_recording. intros H. unfold start_recording. rewrite H.
  eexists. split; [reflexivity|].
  unfold _start_watchdog, _stop_watchdog. simpl.
  destruct (_watchdog_stop_event st) as [e|]; simpl;
    destruct (_watchdog_thread st) as [t|]; simpl;
    rewrite ?andb_false_r; simpl; rewrite ?length_insert;
    split_and!; try done;
    apply lookup_snoc_at; by rewrite ?length_insert.
Qed.


Lemma armed_step w ev m begun e st :
  armed w ev m begun st → quiet w e = true →
  if overdue w begun e
  then fired w m (step e st).1
       ∧ (step e st).2 = [Emit StatusMessage.ERROR_RECORDING]
  else armed w ev m begun (step e st).1 ∧ (step e st).2 = [].
Proof.
  intros [Hrec Hstop Haud Hq Hth Hev Hun Hw Hm] He.
  destruct e as [cb| |t c|t|t now|t now|t wav]; simpl in He; try done.
  - simpl. unfold start_recording. rewrite Hrec. simpl. by split.
  - apply bool_decide_eq_true in He as ->. simpl.
    rewrite bool_decide_eq_true_2 by done. simpl.
    unfold _watchdog_target. rewrite Hw, Hev, Hun. simpl.
    unfold is_recording. rewrite Hrec, Haud. simpl.
    destruct (_watchdog_timeout_sec <? now - begun); [|by split].
    split; [|done].
    unfold stop_recording, is_recording, _stop_watchdog. rewrite Hrec. simpl.
    rewrite Hev, Hth. simpl. unfold watchdog_alive. simpl. rewrite Hw. simpl.
    rewrite bool_decide_eq_true_2 by done. simpl.
    split; simpl; try done.
    rewrite list_lookup_alter_eq, Hw. done.
Qed.

Lemma fired_step w m e st :
  fired w m st → quiet w e = true →
  fired w m (step e st).1 ∧ (step e st).2 = [].
Proof.
  intros [Hrec Hstop Hq Hw Hm] He.
  destruct e as [cb| |t c|t|t now|t now|t wav]; simpl in He; try done.
  - simpl. unfold start_recording. rewrite Hrec. simpl. by split.
  - apply bool_decide_eq_true in He as ->. simpl.
    unfold _watchdog_target.
    destruct (watchdogs st !! w) as [[start alive]|] eqn:E;
      [|simpl; split; [|done]; split; try done; by rewrite E].
    simpl in Hw. subst alive.
    destruct start; simpl; (split; [|done]); split; try done; by rewrite E.
Qed.

Lemma fired_run w m es st :
  fired w m st → Forall (λ e, quiet w e = true) es →
  fired w m (run es st).1 ∧ errors (run es st).2 = 0%nat.
Proof.
  intros Hf Hes. revert st Hf. induction Hes as [|e es He Hes IH]; intros st Hf.
  - done.
  - rewrite run_cons_recorder. simpl.
    destruct (fired_step w m e st Hf He) as [Hf' Hout].
    destruct (IH _ Hf') as [Hf'' Hn]. split; [done|].
    by rewrite errors_app, Hout, Hn.
Qed.

Lemma armed_run w ev m begun es st :
  armed w ev m begun st → Forall (λ e, quiet w e = true) es →
  if existsb (overdue w begun) es
  then fired w m (run es st).1 ∧ errors (run es st).2 = 1%nat
  else armed w ev m begun (run es st).1 ∧ errors (run es st).2 = 0%nat.
Proof.
  intros Ha Hes. revert st Ha. induction Hes as [|e es He Hes IH]; intros st Ha.
  - done.
  - rewrite run_cons_recorder. simpl.
    pose proof (armed_step w ev m begun e st Ha He) as Hstep.
    destruct (overdue w begun e); simpl.
    + destruct Hstep as [Hf Hout].
      destruct (fired_run w m es _ Hf Hes) as [Hf' Hn]. split; [done|].
      by rewrite errors_app, Hout, Hn.
    + destruct Hstep as [Ha' Hout]. specialize (IH _ Ha').
      destruct (existsb (overdue w begun) es);
        destruct IH as [? Hn]; (split; [done|]);
        by rewrite errors_app, Hout, Hn.
Qed.

(** The monitor wakes on a session the watchdog has stopped: nothing
    was collected, so it reports ["Ready"] and hands [None] to the
    callback. *)
Lemma monitor_fired w m wav st :
  fired w m st →
  ∃ st', _monitor_target m wav st
         = (st', [Emit StatusMessage.READY],
            (fun cb => (cb, None)) <$> _processing_callback st)
         ∧ is_recording st' = false.
Proof.
  intros [Hrec Hstop Hq Hw Hm]. unfold _monitor_target.
  rewrite Hm, Hstop. simpl.
  assert (Hq' : _audio_queue (_stop_watchdog None st).1 = []).
  { unfold _stop_watchdog.
    destruct (_watchdog_stop_event st); simpl;
      destruct (_watchdog_thread st); simpl; rewrite ?andb_false_r; done. }
  assert (Hcb : _processing_callback (_stop_watchdog None st).1
                = _processing_callback st).
  { unfold _stop_watchdog.
    destruct (_watchdog_stop_event st); simpl;
      destruct (_watchdog_thread st); simpl; rewrite ?andb_false_r; done. }
  rewrite Hq', Hcb. eexists. split; [reflexivity|done].
Qed.

(** C3.  A capture session in which no block of audio is ever observed
    and no stop is asked for: [start_recording] from an idle recorder,
    the watchdog reading its start time [begun], then any interleaving
    of watchdog turns (each with its own clock reading), ends of the
    recording thread and further start attempts.  If one of the turns
    reads a clock more than 5.0 s after [begun], then once the monitor
    has woken the recording flag is [False], and the session has
    emitted the error status exactly once. *)
Theorem watchdog_fires_once (st0 : state) (cb : callback) (begun : Z)
    (es : list event) (wav : option string) :
  is_recording st0 = false →
  let w := length (watchdogs st0) in
  let m := length (monitors st0) in
  Forall (λ e, quiet w e = true) es →
  Exists (λ e, overdue w begun e = true) es →
  let session :=
    StartRecording cb :: WatchdogBegins w begun :: es ++ [MonitorWakes m wav] in
  is_recording (run session st0).1 = false
  ∧ errors (run session st0).2 = 1%nat
  ∧ _watchdog_timeout_sec = 5000.
Proof.
  intros Hidle w m Hquiet Hover session. subst session.
  destruct (start_recording_arms st0 cb Hidle)
    as (st1 & Hstart & Hrec & Hstop & Haud & Hq & Hcb & Hth & Hev & Hun & Hw & Hm).
  fold w in Hw, Hth. fold m in Hm.
  assert (Hs1 : step (StartRecording cb) st0
                = (st1, [Emit StatusMessage.RECORDING]))
    by (simpl; by rewrite Hstart).
  assert (Ha : armed w (length (events st0)) m begun (watchdog_begins w begun st1)).
  { unfold watchdog_begins. rewrite Hw. split; simpl; try done.
    apply list_lookup_insert_eq. by eapply lookup_lt_Some. }
  pose proof (armed_run w _ m begun es _ Ha Hquiet) as Hrun.
  assert (Hex : existsb (overdue w begun) es = true).
  { apply existsb_exists. apply Exists_exists in Hover as (e & Hin & He).
    exists e. split; [by apply list_elem_of_In|done]. }
  rewrite Hex in Hrun. destruct Hrun as [Hf Hn].
  destruct (monitor_fired w m wav _ Hf) as (st' & Hmon & Hoff).
  assert (Hs3 : step (MonitorWakes m wav) (run es (watchdog_begins w begun st1)).1
                = (st', [Emit StatusMessage.READY]))
    by (simpl; by rewrite Hmon).
  rewrite run_cons_recorder, Hs1. cbn [fst snd].
  rewrite run_cons_recorder.
  change (step (WatchdogBegins w begun) st1)
    with (watchdog_begins w begun st1, @nil effect). cbn [fst snd].
  rewrite run_app_recorder, (run_cons_recorder _ []), Hs3. cbn [fst snd run].
  split_and!; [done| |done].
  rewrite !errors_app, Hn. done.
Qed.

Lemma watchdog_fires_once_witness :
  let es := [WatchdogTurn 0 3000; RecorderEnds 0; WatchdogTurn 0 5000;
             WatchdogTurn 0 5100; WatchdogTurn 0 5200] in
  let session :=
    StartRecording 0%nat :: WatchdogBegins 0 0 :: es ++ [MonitorWakes 0 None] in
  is_recording init = false
  ∧ Forall (λ e, quiet 0 e = true) es
  ∧ Exists (λ e, overdue 0 0 e = true) es
  ∧ is_recording (run session init).1 = false
  ∧ errors (run session init).2 = 1%nat
  ∧ (run session init).2
    = [Emit StatusMessage.RECORDING; Emit StatusMessage.ERROR_RECORDING;
       Emit StatusMessage.READY].
Proof.
  intros es session.
  assert (H0 : is_recording init = false) by reflexivity.
  assert (Hq : Forall (λ e, quiet 0 e = true) es) by (repeat constructor).
  assert (Ho : Exists (λ e, overdue 0 0 e = true) es)
    by (do 3 apply Exists_cons_tl; by apply Exists_cons_hd).
  destruct (watchdog_fires_once init 0%nat 0 es None H0 Hq Ho) as (H1 & H2 & _).
  split_and!; [exact H0|exact Hq|exact Ho|exact H1|exact H2|reflexivity].
Defined.

End audio_recorder.

(** ** DiscreteApplicationRunner *)

Lemma lstrip_all_space s : all_space (lstrip s) = all_space s.
Proof.
  induction s as [|c s IH]; simpl; [done|].
  destruct (isspace c) eqn:E; simpl; [done|by rewrite E].
Qed.

Lemma rstrip_empty s : rstrip s = EmptyString ↔ all_space s = true.
Proof.
  induction s as [|c s IH]; simpl; [done|].
  destruct (rstrip s) eqn:E.
  - destruct (isspace c); simpl; [by rewrite <- IH|done].
  - split; [done|]. intros [_ H]%andb_true_iff. apply IH in H. done.
Qed.

Lemma strip_empty s : strip s = EmptyString ↔ all_space s = true.
Proof. unfold strip. by rewrite rstrip_empty, lstrip_all_space. Qed.

Lemma str_truthy_false s : str_truthy s = false ↔ s = EmptyString.
Proof. by destruct s. Qed.

Section runner.
Import DiscreteApplicationRunner.

Lemma blank_Some t : blank (Some t) = true ↔ all_space t = true.
Proof.
  unfold blank. rewrite orb_true_iff, !negb_true_iff, !str_truthy_false.
  rewrite strip_empty. split; [|by right]. by intros [->|].
Qed.

(** C4.  When the completion callback gets an absent or empty buffer,
    or the transcription gives [None], an empty text or a text of
    whitespace only, the callback changes nothing but the status queue:
    the command processor is as before (no worker is created, so the
    engine is not invoked), and so are the recorder, the context
    manager, the action queue and the timers.  For the empty buffer no
    status is put at all; otherwise the statuses are "transcribing" and
    the error. *)
Theorem empty_input_short_circuit (st : state) (audio_buffer : option buffer)
    (asr : asr_result)
    (during : option (ContextManager.engine_result * ContextManager.engine_result)) :
  is_empty audio_buffer = true
  ∨ asr = Transcript None
  ∨ (∃ t, asr = Transcript (Some t) ∧ all_space t = true) →
  let st' := _process_recorded_audio audio_buffer asr during st in
  command_processor st' = command_processor st
  ∧ CommandProcessor.threads (command_processor st')
    = CommandProcessor.threads (command_processor st)
  ∧ audio_recorder st' = audio_recorder st
  ∧ context_manager st' = context_manager st
  ∧ _action_queue st' = _action_queue st
  ∧ timers st' = timers st
  ∧ (if is_empty audio_buffer then status_queue st' = status_queue st
     else status_queue st'
          = status_queue st ++ [StatusMessage.TRANSCRIBING;
                                StatusMessage.ERROR "Transcription empty"]).
Proof.
  intros H st'. subst st'. unfold _process_recorded_audio.
  destruct (is_empty audio_buffer) eqn:He; [done|].
  destruct H as [H|[->|(t & -> & Ht)]]; [done| |].
  - simpl. by rewrite <- (assoc_L (++)).
  - apply blank_Some in Ht. rewrite Ht. simpl. by rewrite <- (assoc_L (++)).
Qed.


Lemma perform_emit msg st : perform [Emit msg] st = _update_status msg st.
Proof. done. Qed.

(** What the event loop does when it takes a [START]: it calls
    [fetch_context_async] with the mode stored at that moment, and
    [start_recording]. *)
Lemma run_turn_start (s : state) (info : ContextManager.window_info)
    (q : list ApplicationAction) :
  _action_queue s = START :: q →
  let s' := run_turn info s in
  context_manager s'
  = ContextManager.fetch_context_async (Some (_mode s)) info (context_manager s)
  ∧ audio_recorder s'
    = (AudioRecorder.start_recording on_audio (audio_recorder s)).1.2
  ∧ command_processor s' = command_processor s
  ∧ _action_queue s' = q
  ∧ _mode s' = _mode s
  ∧ (if AudioRecorder.is_recording (audio_recorder s)
     then audio_recorder s' = audio_recorder s
          ∧ status_queue s' = status_queue s
     else AudioRecorder.start_recording on_audio (audio_recorder s)
          = (true, audio_recorder s', [Emit StatusMessage.RECORDING])
          ∧ AudioRecorder.is_recording (audio_recorder s') = true
          ∧ status_queue s' = status_queue s ++ [StatusMessage.RECORDING]).
Proof.
  intros Hq s'. subst s'. unfold run_turn. rewrite Hq.
  unfold _handle_start_recording, AudioRecorder.start_recording,
    AudioRecorder.is_recording. simpl.
  destruct (AudioRecorder._is_recording (audio_recorder s)) eqn:Hrec; simpl.
  - done.
  - done.
Qed.

(** C5 (as amended).  A press delivered while the [is_processing]
    property returns [True] or the recorder is recording is rejected:
    one busy status is put, nothing is queued, the mode is not stored,
    and neither the context manager nor the recorder changes.
    Otherwise the press puts [START] at the end of the action queue,
    then stores the mode, then puts "hotkey pressed", still without
    touching the context manager or the recorder.  Whenever the event
    loop takes a [START] from the head of the queue it calls
    [fetch_context_async] with the mode stored at that moment (a fetch
    thread is started only if none is in flight and the window is
    determined) and [start_recording] (capture starts only if the
    recorder is not recording).  So, for a press on an empty queue: when
    the loop takes the [START] directly after the call, the fetch is
    requested with the mode of the press and capture starts; when it
    takes the [START] between the put and the store of the mode, the
    fetch is requested with the mode stored before, and the rest of the
    call does not change that. *)
Theorem trigger_interaction_gate (st : state) (mode : CommandMode) :
  let processing := (CommandProcessor.is_processing (command_processor st)).1 in
  let recording := AudioRecorder.is_recording (audio_recorder st) in
  let queued := (trigger_queues st).2 in
  let st' := trigger_interaction mode st in
  audio_recorder st' = audio_recorder st
  ∧ context_manager st' = context_manager st
  ∧ (if processing || recording then
       (trigger_queues st).1 = false
       ∧ st' = queued
       ∧ status_queue st'
         = status_queue st ++ [if processing then StatusMessage.PROCESSING_BUSY
                               else StatusMessage.ALREADY_RECORDING]
       ∧ _action_queue st' = _action_queue st
       ∧ _mode st' = _mode st
     else
       (trigger_queues st).1 = true
       ∧ st' = trigger_reports (trigger_stores mode queued)
       ∧ _action_queue queued = _action_queue st ++ [START]
       ∧ _mode queued = _mode st
       ∧ status_queue queued = status_queue st
       ∧ audio_recorder queued = audio_recorder st
       ∧ context_manager queued = context_manager st
       ∧ _action_queue st' = _action_queue st ++ [START]
       ∧ _mode st' = mode
       ∧ status_queue st' = status_queue st ++ [StatusMessage.HOTKEY_PRESSED]
       ∧ ∀ info, _action_queue st = [] →
           (let after := run_turn info st' in
            context_manager after
            = ContextManager.fetch_context_async (Some mode) info
                (context_manager st)
            ∧ AudioRecorder.start_recording on_audio (audio_recorder st)
              = (true, audio_recorder after, [Emit StatusMessage.RECORDING])
            ∧ AudioRecorder.is_recording (audio_recorder after) = true
            ∧ status_queue after = status_queue st' ++ [StatusMessage.RECORDING])
           ∧ (let early := run_turn info queued in
              let late := trigger_reports (trigger_stores mode early) in
              context_manager early
              = ContextManager.fetch_context_async (Some (_mode st)) info
                  (context_manager st)
              ∧ AudioRecorder.is_recording (audio_recorder early) = true
              ∧ context_manager late = context_manager early
              ∧ audio_recorder late = audio_recorder early
              ∧ _mode late = mode
              ∧ status_queue late
                = status_queue st ++ [StatusMessage.RECORDING;
                                      StatusMessage.HOTKEY_PRESSED]))
  ∧ (∀ s info q, _action_queue s = START :: q →
       let s' := run_turn info s in
       context_manager s'
       = ContextManager.fetch_context_async (Some (_mode s)) info
           (context_manager s)
       ∧ _action_queue s' = q
       ∧ _mode s' = _mode s
       ∧ (ContextManager.in_flight (context_manager s) = true →
          context_manager s' = context_manager s)
       ∧ (ContextManager.in_flight (context_manager s) = false →
          match ContextManager.determined info with
          | Some name =>
              ContextManager.threads (context_manager s')
              = ContextManager.threads (context_manager s)
                ++ [ContextManager.mkFetch name (Some (_mode s)) true]
              ∧ ContextManager.in_flight (context_manager s') = true
          | None =>
              ContextManager.threads (context_manager s')
              = ContextManager.threads (context_manager s)
          end)
       ∧ (if AudioRecorder.is_recording (audio_recorder s)
          then audio_recorder s' = audio_recorder s
               ∧ status_queue s' = status_queue s
          else AudioRecorder.start_recording on_audio (audio_recorder s)
               = (true, audio_recorder s', [Emit StatusMessage.RECORDING])
               ∧ AudioRecorder.is_recording (audio_recorder s') = true
               ∧ status_queue s' = status_queue s ++ [StatusMessage.RECORDING])).
Proof.
  intros processing recording queued st'.
  subst processing recording queued st'.
  split_and!.
  - unfold trigger_interaction, trigger_queues.
    destruct (CommandProcessor.is_processing (command_processor st)) as [b cp].
    destruct b; [done|]. simpl.
    by destruct (AudioRecorder.is_recording (audio_recorder st)).
  - unfold trigger_interaction, trigger_queues.
    destruct (CommandProcessor.is_processing (command_processor st)) as [b cp].
    destruct b; [done|]. simpl.
    by destruct (AudioRecorder.is_recording (audio_recorder st)).
  - unfold trigger_interaction, trigger_queues.
    destruct (CommandProcessor.is_processing (command_processor st))
      as [b cp] eqn:Ecp.
    simpl. destruct b; simpl; [done|].
    destruct (AudioRecorder.is_recording (audio_recorder st)) eqn:Erec; simpl;
      [done|].
    split_and!; try done.
    intros info Hq. split.
    + destruct (run_turn_start
                  (trigger_reports
                     (trigger_stores mode
                        (set_action_queue (_action_queue st ++ [START])
                           (set_command_processor cp st)))) info [])
        as (Hcm & _ & _ & _ & _ & Har); [simpl; by rewrite Hq|].
      simpl in Har. rewrite Erec in Har. destruct Har as (Hs & Hr & Hsq).
      split_and!; done.
    + destruct (run_turn_start
                  (set_action_queue (_action_queue st ++ [START])
                     (set_command_processor cp st)) info [])
        as (Hcm & _ & _ & _ & _ & Har); [simpl; by rewrite Hq|].
      simpl in Har. rewrite Erec in Har. destruct Har as (Hs & Hr & Hsq).
      split_and!; try done. simpl. rewrite Hsq. simpl.
      by rewrite <- app_assoc.
  - intros s info q Hq.
    destruct (run_turn_start s info q Hq) as (Hcm & _ & _ & Hq' & Hm & Har).
    split_and!; try done.
    + intros Hfl. rewrite Hcm. unfold ContextManager.fetch_context_async.
      by rewrite Hfl.
    + intros Hfl. rewrite Hcm. unfold ContextManager.fetch_context_async.
      rewrite Hfl. destruct (ContextManager.determined info) as [name|]; [|done].
      split; [done|].
      unfold ContextManager.in_flight, ContextManager.is_alive. simpl.
      by rewrite lookup_app_r, Nat.sub_diag by lia.
Qed.

(** A second press is accepted while the first [START] is still in the
    queue: both presses report "hotkey pressed", one recording and one
    fetch are started. *)
Lemma second_press_starts_nothing :
  let window := Some (Some "TextEdit") in
  let st1 := run [Press DICTATION] init in
  let st2 := run [Press DICTATION; Press DICTATION; Turn window] init in
  let st3 := run [Press DICTATION; Press DICTATION; Turn window; Turn window] init in
  (CommandProcessor.is_processing (command_processor st1)).1 = false
  ∧ AudioRecorder.is_recording (audio_recorder st1) = false
  ∧ status_queue st3
    = [StatusMessage.HOTKEY_PRESSED; StatusMessage.HOTKEY_PRESSED;
       StatusMessage.RECORDING]
  ∧ _action_queue st2 = [START]
  ∧ _action_queue st3 = []
  ∧ audio_recorder st3 = audio_recorder st2
  ∧ context_manager st3 = context_manager st2.
Proof. by vm_compute. Qed.


(** The [START] of a first press is handled with the mode of a later
    press that the loop has not yet caught up with. *)
Example start_uses_latest_mode :
  let st := run [Press DICTATION; Lift; Press ACTION;
                 Turn (Some (Some "TextEdit"))] init in
  _action_queue st = [STOP; START]
  ∧ ContextManager.threads (context_manager st)
    = [ContextManager.mkFetch "TextEdit" (Some ACTION) true].
Proof. by vm_compute. Qed.

(** The loop takes the [START] of a press before the press has stored
    its mode: the fetch runs for the mode stored before. *)
Example start_taken_before_mode_stored :
  let queued := (trigger_queues init).2 in
  let early := run_turn (Some (Some "TextEdit")) queued in
  let late := trigger_reports (trigger_stores ACTION early) in
  _mode late = ACTION
  ∧ ContextManager.threads (context_manager late)
    = [ContextManager.mkFetch "TextEdit" (Some DICTATION) true]
  ∧ status_queue late
    = [StatusMessage.RECORDING; StatusMessage.HOTKEY_PRESSED].
Proof. by vm_compute. Qed.

(** The property, not the flag, decides: between the locked block of
    [process_command] and [start()] the flag is set, yet a press is
    accepted, and the read has reset the flag. *)
Example press_while_flag_set :
  let st := run [Worker CommandProcessor.a_command] init in
  CommandProcessor._is_processing (command_processor st) = true
  ∧ _action_queue (run [Press DICTATION] st) = [START]
  ∧ status_queue (run [Press DICTATION] st) = [StatusMessage.HOTKEY_PRESSED]
  ∧ CommandProcessor._is_processing
      (command_processor (run [Press DICTATION] st)) = false.
Proof. by vm_compute. Qed.

Lemma empty_input_short_circuit_witness :
  let st := run [Press DICTATION; Turn (Some (Some "TextEdit")); Lift; Turn None] init in
  (is_empty (Some (BytesIO "RIFF")) = true
   ∨ Transcript (Some "  ") = Transcript None
   ∨ ∃ t, Transcript (Some "  ") = Transcript (Some t) ∧ all_space t = true)
  ∧ command_processor
      (_process_recorded_audio (Some (BytesIO "RIFF")) (Transcript (Some "  ")) None st)
    = command_processor st
  ∧ status_queue
      (_process_recorded_audio (Some (BytesIO "RIFF")) (Transcript (Some "  ")) None st)
    = status_queue st ++ ["Transcribing command..."; "Error: Transcription empty"].
Proof.
  intros st.
  assert (H : is_empty (Some (BytesIO "RIFF")) = true
              ∨ Transcript (Some "  ") = Transcript None
              ∨ ∃ t, Transcript (Some "  ") = Transcript (Some t)
                     ∧ all_space t = true)
    by (right; right; by exists "  ").
  destruct (empty_input_short_circuit st (Some (BytesIO "RIFF"))
              (Transcript (Some "  ")) None H) as (H1 & _ & _ & _ & _ & _ & H7).
  split_and!; [exact H|exact H1|exact H7].
Defined.

Lemma trigger_interaction_gate_witness :
  let st := trigger_interaction ACTION init in
  status_queue st = [StatusMessage.HOTKEY_PRESSED]
  ∧ _action_queue st = [START]
  ∧ AudioRecorder.is_recording
      (audio_recorder (run_turn (Some (Some "Notes")) st)) = true
  ∧ ContextManager.in_flight
      (context_manager (run_turn (Some (Some "Notes")) st)) = true
  ∧ ContextManager.threads
      (context_manager (run_turn (Some (Some "Notes")) st))
    = [ContextManager.mkFetch "Notes" (Some ACTION) true].
Proof.
  intros st.
  destruct (trigger_interaction_gate init ACTION) as (_ & _ & Hacc & Hturn).
  destruct Hacc as (_ & _ & _ & _ & _ & _ & _ & Ha & _ & Hq & _).
  assert (Hhead : _action_queue st = START :: []) by exact Ha.
  destruct (Hturn st (Some (Some "Notes")) [] Hhead)
    as (_ & _ & _ & _ & Hfetch & Hrec).
  destruct (Hfetch eq_refl) as [Hth Hfl].
  destruct Hrec as (_ & Hrec & _).
  split_and!; [exact Hq|exact Ha|exact Hrec|exact Hfl|exact Hth].
Defined.

End runner.

Section pipeline_reports.
Import DiscreteApplicationRunner.

Lemma report_in_pipeline (st : state) (t : nat) (success : bool) (error_msg : string) :
  CommandProcessor.phase_of t (command_processor st)
  = Some (CommandProcessor.Reporting success error_msg) →
  let st1 := step (Worker (CommandProcessor.Report t)) st in
  status_queue st1
  = status_queue st ++ [CommandProcessor.final_status success error_msg]
  ∧ timers st1 = timers st ++ [(clock st + 1500, "Ready")]
  ∧ CommandProcessor.phase_of t (command_processor st1)
    = Some CommandProcessor.Finished
  ∧ (∀ dt, dt < 1500 →
       (clock st + 1500, "Ready")
       ∈ timers (run [Tick dt; Fire] st1))
  ∧ status_queue (run [Tick 1500; Fire] st1)
    = status_queue st1
      ++ (List.filter (fun tm => tm.1 <=? clock st + 1500)
                      (timers st)).*2
      ++ ["Ready"].
Proof.
  intros Hp st1. subst st1. simpl. unfold CommandProcessor.report. rewrite Hp.
  simpl. split_and!; try done.
  - rewrite phase_of_set_phase, bool_decide_eq_true_2 by done. by rewrite Hp.
  - intros dt Hdt. apply list_elem_of_In, filter_In. split.
    + apply in_or_app. right. by left.
    + simpl. apply negb_true_iff, Z.leb_gt.
      lia.
  - rewrite List.filter_app, fmap_app. simpl.
    replace (clock st + Z.max 0 1500)
      with (clock st + 1500) by done.
    by rewrite Z.leb_refl.
Qed.


Lemma trigger_rejected (st : state) (mode : CommandMode) :
  (CommandProcessor.is_processing (command_processor st)).1
  || AudioRecorder.is_recording (audio_recorder st) = true →
  ∃ msg, status_queue (trigger_interaction mode st) = status_queue st ++ [msg]
         ∧ msg ∈ [StatusMessage.PROCESSING_BUSY; StatusMessage.ALREADY_RECORDING]
         ∧ timers (trigger_interaction mode st) = timers st.
Proof.
  unfold trigger_interaction, trigger_queues.
  destruct (CommandProcessor.is_processing (command_processor st)) as [b cp].
  simpl. destruct b; simpl.
  - intros _. eexists. split_and!; [done| |done]. set_solver.
  - intros ->. eexists. split_and!; [done| |done]. set_solver.
Qed.

Lemma process_command_rejected c text audio m (cp : CommandProcessor.state) :
  (CommandProcessor.process_command c text audio m cp).1.1 = false →
  ∃ msg, (CommandProcessor.process_command c text audio m cp).2 = [Emit msg]
         ∧ msg ∈ [StatusMessage.READY; StatusMessage.BUSY]
         ∧ (CommandProcessor.process_command c text audio m cp).1.2 = cp.
Proof.
  unfold CommandProcessor.process_command.
  destruct (CommandProcessor.empty_command text audio); simpl.
  { intros _. eexists. split_and!; [done| |done]. set_solver. }
  destruct (CommandProcessor._is_processing cp); simpl; [|done].
  intros _. eexists. split_and!; [done| |done]. set_solver.
Qed.

(** C7 (as amended).  Every worker whose body ends, the engine having
    returned or raised, emits exactly one terminal status, directly
    followed by a timer of 1.5 s that puts ["Ready"] on the queue: over
    any schedule of the processor the terminal statuses are as many as
    the finished workers and each is followed by that timer; in the
    pipeline the timer is still pending before 1.5 s have passed and
    ["Ready"] follows the terminal status once they have.  A rejected
    press, and a rejected submission, emit exactly one status and arm no
    timer. *)
Theorem terminal_status_then_ready :
  (∀ es,
     CommandProcessor.announced
       (CommandProcessor.run es CommandProcessor.init).2
     ∧ length (CommandProcessor.terminal_statuses
                 (CommandProcessor.run es CommandProcessor.init).2)
       = length (CommandProcessor.finished
                   (CommandProcessor.run es CommandProcessor.init).1))
  ∧ (∀ st t success error_msg,
       CommandProcessor.phase_of t (command_processor st)
       = Some (CommandProcessor.Reporting success error_msg) →
       let st1 := step (Worker (CommandProcessor.Report t)) st in
       status_queue st1
       = status_queue st ++ [CommandProcessor.final_status success error_msg]
       ∧ timers st1 = timers st ++ [(clock st + 1500, "Ready")]
       ∧ CommandProcessor.phase_of t (command_processor st1)
         = Some CommandProcessor.Finished
       ∧ (∀ dt, dt < 1500 →
            (clock st + 1500, "Ready") ∈ timers (run [Tick dt; Fire] st1))
       ∧ status_queue (run [Tick 1500; Fire] st1)
         = status_queue st1
           ++ (List.filter (fun tm => tm.1 <=? clock st + 1500) (timers st)).*2
           ++ ["Ready"])
  ∧ (∀ st mode,
       (CommandProcessor.is_processing (command_processor st)).1
       || AudioRecorder.is_recording (audio_recorder st) = true →
       ∃ msg, status_queue (trigger_interaction mode st) = status_queue st ++ [msg]
              ∧ msg ∈ [StatusMessage.PROCESSING_BUSY;
                       StatusMessage.ALREADY_RECORDING]
              ∧ timers (trigger_interaction mode st) = timers st)
  ∧ (∀ c text audio m cp,
       (CommandProcessor.process_command c text audio m cp).1.1 = false →
       ∃ msg, (CommandProcessor.process_command c text audio m cp).2 = [Emit msg]
              ∧ msg ∈ [StatusMessage.READY; StatusMessage.BUSY]
              ∧ (CommandProcessor.process_command c text audio m cp).1.2 = cp).
Proof.
  split_and!.
  - intros es. destruct (run_reports es CommandProcessor.init) as [Ha Hn].
    split; [done|]. rewrite Hn. done.
  - intros st t success error_msg Hp. by apply report_in_pipeline.
  - apply trigger_rejected.
  - apply process_command_rejected.
Qed.

Lemma terminal_status_then_ready_witness :
  CommandProcessor.phase_of 0 (command_processor reporting_pipeline)
  = Some (CommandProcessor.Reporting false "no model")
  ∧ status_queue
      (run [Tick 1500; Fire]
           (step (Worker (CommandProcessor.Report 0)) reporting_pipeline))
    = status_queue (step (Worker (CommandProcessor.Report 0)) reporting_pipeline)
      ++ (List.filter (fun tm => tm.1 <=? clock reporting_pipeline + 1500)
                      (timers reporting_pipeline)).*2
      ++ ["Ready"].
Proof.
  assert (Hp : CommandProcessor.phase_of 0 (command_processor reporting_pipeline)
               = Some (CommandProcessor.Reporting false "no model"))
    by (vm_compute; reflexivity).
  split; [exact Hp|].
  exact (proj2 (proj2 (proj2 (proj2
           (proj1 (proj2 terminal_status_then_ready)
                  reporting_pipeline 0%nat false "no model" Hp))))).
Defined.

(** The statuses of that pipeline, from the press to ["Ready"]. *)
Example reporting_pipeline_statuses :
  status_queue
    (run [Worker (CommandProcessor.Report 0); Tick 1500; Fire] reporting_pipeline)
  = ["Hotkey pressed, starting command processing..."; "Recording command...";
     "Transcribing command..."; "Transcribed: 'select all'";
     "Error processing: no model"; "Ready"].
Proof. vm_compute. reflexivity. Qed.

(** A press that is rejected because a recording is active: one status,
    no timer, and no ["Ready"] when 1.5 s have passed. *)
Lemma rejected_press_no_ready :
  let st := run [Press DICTATION; Turn (Some (Some "TextEdit"))] init in
  AudioRecorder.is_recording (audio_recorder st) = true
  ∧ status_queue (run [Press DICTATION] st)
    = status_queue st ++ [StatusMessage.ALREADY_RECORDING]
  ∧ timers (run [Press DICTATION] st) = []
  ∧ status_queue (run [Press DICTATION; Tick 1500; Fire] st)
    = status_queue st ++ [StatusMessage.ALREADY_RECORDING].
Proof. vm_compute. done. Qed.

End pipeline_reports.

(** * Further properties

    ** KeyboardManager: the latch, the sweep, the configuration *)

Section keyboard_latch.
Import KeyboardManager.

Lemma paired_app h out1 out2 :
  paired h out1 → paired (outstanding h out1) out2 → paired h (out1 ++ out2).
Proof.
  revert h. induction out1 as [|s out1 IH]; intros h; simpl; [done|].
  destruct s; simpl; intros H1 H2.
  - destruct H1 as [-> H1]. split; [done|]. by apply IH.
  - destruct H1 as (Hs & -> & H1). split_and!; [done..|]. by apply IH.
  - by apply IH.
Qed.

Lemma outstanding_app h out1 out2 :
  outstanding h (out1 ++ out2) = outstanding (outstanding h out1) out2.
Proof. unfold outstanding. by rewrite foldl_app. Qed.

(** One key event keeps the latch and the active mode in step, and its
    signals continue the alternation. *)
Lemma handle_paired now e st :
  (_was_hotkey_pressed st = true → is_Some (_active_mode st)) →
  (_was_hotkey_pressed (handle now e st).1 = true →
   is_Some (_active_mode (handle now e st).1))
  ∧ paired (held st) (handle now e st).2
  ∧ held (handle now e st).1 = outstanding (held st) (handle now e st).2.
Proof.
  intros Hok.
  assert (Hlatch : ∀ st1 st2,
    _was_hotkey_pressed st1 = _was_hotkey_pressed st →
    _active_mode st1 = _active_mode st →
    _was_hotkey_pressed st2 = _was_hotkey_pressed st →
    _active_mode st2 = _active_mode st →
    let r := match latch_press (check_hotkey_match st1) st1 with
             | Some r => r
             | None => (st2, [])
             end in
    (_was_hotkey_pressed r.1 = true → is_Some (_active_mode r.1))
    ∧ paired (held st) r.2
    ∧ held r.1 = outstanding (held st) r.2).
  { intros st1 st2 Hw1 Ha1 Hw2 Ha2. unfold latch_press.
    assert (Hnone : (_was_hotkey_pressed st2 = true → is_Some (_active_mode st2))
                    ∧ paired (held st) [] ∧ held st2 = outstanding (held st) []).
    { unfold held. rewrite Hw2, Ha2. by split_and!. }
    destruct (check_hotkey_match st1) as [m|]; [|done].
    destruct (_was_hotkey_pressed st1) eqn:E; [done|].
    unfold held. simpl. rewrite <- Hw1. simpl. split_and!; eauto. }
  assert (Hun : ∀ st1,
    _was_hotkey_pressed st1 = _was_hotkey_pressed st →
    _active_mode st1 = _active_mode st →
    _was_hotkey_pressed st = true →
    (_was_hotkey_pressed (unlatch st1).1 = true →
     is_Some (_active_mode (unlatch st1).1))
    ∧ paired (held st) (unlatch st1).2
    ∧ held (unlatch st1).1 = outstanding (held st) (unlatch st1).2).
  { intros st1 Hw1 Ha1 Hw. unfold unlatch, held. simpl. rewrite Hw, Ha1.
    split_and!; try done. by apply Hok. }
  assert (Hsame : ∀ st1,
    _was_hotkey_pressed st1 = _was_hotkey_pressed st →
    _active_mode st1 = _active_mode st →
    (_was_hotkey_pressed st1 = true → is_Some (_active_mode st1))
    ∧ paired (held st) [] ∧ held st1 = outstanding (held st) []).
  { intros st1 Hw1 Ha1. unfold held. rewrite Hw1, Ha1. by split_and!. }
  destruct e as [k|k]; simpl.
  - by apply Hlatch.
  - unfold _on_release. case_bool_decide as Hfn.
    + case_bool_decide as Hin; [|by apply Hlatch].
      cbn [_was_hotkey_pressed].
      destruct (_was_hotkey_pressed st) eqn:Hw.
      * by apply Hun.
      * by apply Hsame.
    + cbn [_was_hotkey_pressed].
      destruct (_was_hotkey_pressed st) eqn:Hw; cbn [andb].
      * destruct (bool_decide _); cbn [negb].
        -- by apply Hsame.
        -- by apply Hun.
      * by apply Hsame.
Qed.

Lemma deliver_paired now es st :
  (_was_hotkey_pressed st = true → is_Some (_active_mode st)) →
  (_was_hotkey_pressed (deliver now es st).1 = true →
   is_Some (_active_mode (deliver now es st).1))
  ∧ paired (held st) (deliver now es st).2
  ∧ held (deliver now es st).1 = outstanding (held st) (deliver now es st).2.
Proof.
  revert st. induction es as [|e es IH]; intros st Hok.
  - simpl. by split_and!.
  - rewrite deliver_cons. cbn [fst snd].
    destruct (handle_paired now e st Hok) as (Hok1 & Hp1 & Hh1).
    destruct (IH _ Hok1) as (Hok2 & Hp2 & Hh2).
    split_and!; [done| |].
    + apply paired_app; [done|]. by rewrite <- Hh1.
    + by rewrite outstanding_app, <- Hh1.
Qed.


(** X1.  Whatever key events are delivered, the press and release
    signals alternate, starting with a press when none is outstanding:
    no second press signal is emitted while one is outstanding, and each
    release signal carries the mode of the press before it. *)
Theorem hotkey_signals_alternate (st : state) (now : Z) (es : list key_event) :
  (_was_hotkey_pressed st = true → is_Some (_active_mode st)) →
  paired (held st) (deliver now es st).2
  ∧ held (deliver now es st).1 = outstanding (held st) (deliver now es st).2.
Proof.
  intros Hok. by destruct (deliver_paired now es st Hok) as (_ & ? & ?).
Qed.

Lemma hotkey_signals_alternate_witness :
  (_was_hotkey_pressed (set_hotkeys two_hotkeys init).2 = true →
   is_Some (_active_mode (set_hotkeys two_hotkeys init).2))
  ∧ paired None
      (deliver 0 [release "fn"; press "a"; press "fn"; release "a";
                  release "fn"; press "f10"; press "f10"; release "f10"]
               (set_hotkeys two_hotkeys init).2).2.
Proof.
  assert (H : _was_hotkey_pressed (set_hotkeys two_hotkeys init).2 = true →
              is_Some (_active_mode (set_hotkeys two_hotkeys init).2))
    by (vm_compute; discriminate).
  split; [exact H|].
  exact (proj1 (hotkey_signals_alternate _ 0 _ H)).
Defined.

(** The signals of that delivery. *)
Example fn_then_f10_signals :
  (deliver 0 [release "fn"; press "a"; press "fn"; release "a";
              release "fn"; press "f10"; press "f10"; release "f10"]
           (set_hotkeys two_hotkeys init).2).2
  = [hotkey_pressed DICTATION; hotkey_released (Some DICTATION);
     hotkey_pressed ACTION; hotkey_released (Some ACTION)].
Proof. vm_compute. reflexivity. Qed.

(** A press event emits nothing while a press signal is outstanding. *)
Lemma on_press_latched now k st :
  _was_hotkey_pressed st = true →
  (_on_press now k st).2 = [] ∧ _was_hotkey_pressed (_on_press now k st).1 = true.
Proof.
  intros Hw. unfold _on_press, latch_press. simpl. rewrite Hw.
  by destruct (check_hotkey_match _).
Qed.

Lemma presses_latched now ks st :
  _was_hotkey_pressed st = true →
  (deliver now (press <$> ks) st).2 = []
  ∧ _was_hotkey_pressed (deliver now (press <$> ks) st).1 = true.
Proof.
  revert st. induction ks as [|k ks IH]; intros st Hw; [done|].
  rewrite fmap_cons, deliver_cons. cbn [fst snd handle].
  destruct (on_press_latched now k st Hw) as [-> Hw1].
  destruct (IH _ Hw1) as [-> Hw2]. done.
Qed.

(** X2.  [_check_stuck_keys] at time [now] removes from the held set
    exactly the keys whose recorded press is more than five seconds
    old, and forgets their press times; keys with a younger press, and
    held keys with no recorded press time, stay.  Sweeping again at the
    same time changes nothing, and the sweep does not touch the latch or
    the configuration. *)
Theorem stuck_keys_swept (st : state) (now : Z) :
  let st' := _check_stuck_keys now st in
  (∀ k t, _key_press_times st' !! k = Some t ↔
          _key_press_times st !! k = Some t ∧ now - t ≤ 5000)
  ∧ (∀ k, k ∈ pressed_keys st' ↔
          k ∈ pressed_keys st
          ∧ ¬ ∃ t, _key_press_times st !! k = Some t ∧ 5000 < now - t)
  ∧ _check_stuck_keys now st' = st'
  ∧ _was_hotkey_pressed st' = _was_hotkey_pressed st
  ∧ _active_mode st' = _active_mode st
  ∧ _target_hotkeys st' = _target_hotkeys st.
Proof.
  intros st'. subst st'.
  assert (Hstuck : ∀ (times : gmap string Z) k,
    k ∈ dom (filter (λ kv : string * Z, 5000 < now - kv.2) times)
    ↔ ∃ t, times !! k = Some t ∧ 5000 < now - t).
  { intros times k. rewrite elem_of_dom. unfold is_Some.
    setoid_rewrite map_lookup_filter_Some. simpl. naive_solver. }
  assert (Htimes : ∀ k t,
    _key_press_times (_check_stuck_keys now st) !! k = Some t
    ↔ _key_press_times st !! k = Some t ∧ now - t ≤ 5000).
  { intros k t. unfold _check_stuck_keys. simpl.
    rewrite map_lookup_filter_Some. simpl. rewrite Hstuck. split.
    - intros [Hk Hn]. split; [done|].
      destruct (decide (now - t ≤ 5000)); [done|]. destruct Hn. exists t.
      split; [done|lia].
    - intros [Hk Hle]. split; [done|]. intros (t' & Hk' & Hlt).
      rewrite Hk in Hk'. simplify_eq. lia. }
  split_and!; try done.
  - intros k. unfold _check_stuck_keys. simpl.
    rewrite elem_of_difference, Hstuck. done.
  - assert (Hnone : dom (filter (λ kv : string * Z, 5000 < now - kv.2)
                       (_key_press_times (_check_stuck_keys now st)))
                   = (∅ : gset string)).
    { apply set_eq. intros k. rewrite Hstuck. split; [|by intros ?%elem_of_empty].
      intros (t & [Hk Hle]%Htimes & Hlt). lia. }
    unfold _check_stuck_keys at 1. rewrite Hnone.
    destruct (_check_stuck_keys now st) as [th hs kt w a p pk]. simpl. f_equal.
    + apply map_eq. intros k. apply option_eq. intros t.
      rewrite map_lookup_filter_Some. simpl.
      split; [by intros [? _]|]. intros ?. split; [done|]. apply not_elem_of_empty.
    + apply difference_empty_L.
Qed.

(** X3.  The sweep leaves a set latch set: after it, however many key
    presses are delivered, no signal is emitted until a release event
    arrives. *)
Theorem sweep_keeps_latch (st : state) (now later : Z) (ks : list string) :
  _was_hotkey_pressed st = true →
  (deliver later (press <$> ks) (_check_stuck_keys now st)).2 = []
  ∧ _was_hotkey_pressed
      (deliver later (press <$> ks) (_check_stuck_keys now st)).1 = true.
Proof. intros Hw. by apply presses_latched. Qed.

Lemma sweep_keeps_latch_witness :
  let st := (deliver 0 [release "fn"] (set_hotkeys two_hotkeys init).2).1 in
  _was_hotkey_pressed st = true
  ∧ pressed_keys (_check_stuck_keys 9000 st) = pressed_keys st
  ∧ (deliver 9500 (press <$> ["f10"]) (_check_stuck_keys 9000 st)).2 = [].
Proof.
  intros st.
  assert (H : _was_hotkey_pressed st = true) by (vm_compute; reflexivity).
  split_and!; [exact H|vm_compute; reflexivity|].
  exact (proj1 (sweep_keeps_latch st 9000 9500 ["f10"] H)).
Defined.

End keyboard_latch.

Section keyboard_configuration.
Import KeyboardManager.

(** With at most three keys held, [get_pressed_keys] reports them all. *)
Lemma reported_keys_all st :
  (size (pressed_keys st) ≤ 3)%nat →
  list_to_set (get_pressed_keys st) = pressed_keys st.
Proof.
  intros Hsz. unfold get_pressed_keys.
  rewrite take_ge.
  - apply set_eq. intros k.
    rewrite elem_of_list_to_set, merge_sort_Permutation. apply elem_of_elements.
  - rewrite merge_sort_Permutation. done.
Qed.

(** X4.  When the manager is not paused and the held keys are exactly
    the keys of a configured combination of at most three keys,
    [check_hotkey_match] answers a mode configured with that very
    combination: the first such mode in the order of the dict. *)
Theorem held_combination_matches (st : state) (m : CommandMode) (keys : gset string) :
  (m, keys) ∈ default [] (_target_hotkeys st) →
  _is_hotkey_paused st = false →
  pressed_keys st = keys →
  (size keys ≤ 3)%nat →
  ∃ m', check_hotkey_match st = Some m'
        ∧ List.find (fun p => bool_decide (keys = p.2))
                    (default [] (_target_hotkeys st)) = Some (m', keys).
Proof.
  intros Hin Hp Hk Hsz. unfold check_hotkey_match.
  assert (Hnt : no_targets st = false).
  { unfold no_targets. destruct (_target_hotkeys st) as [[|]|]; simpl in Hin;
      [by apply elem_of_nil in Hin|done|by apply elem_of_nil in Hin]. }
  rewrite Hnt, Hp. cbn [orb].
  rewrite reported_keys_all by (by rewrite Hk). rewrite Hk.
  destruct (List.find (fun p => bool_decide (keys = p.2))
              (default [] (_target_hotkeys st))) as [[m' keys']|] eqn:Hf.
  - exists m'. apply find_some in Hf as Hf'. destruct Hf' as [_ Heq].
    apply bool_decide_eq_true in Heq. simpl in Heq. by subst keys'.
  - exfalso. apply list_elem_of_In in Hin.
    pose proof (find_none _ _ Hf _ Hin) as Hn. simpl in Hn.
    by rewrite bool_decide_eq_true_2 in Hn.
Qed.

Lemma held_combination_matches_witness :
  let st := (deliver 0 [press "shift"; press "ctrl"; press "a"]
               (set_hotkeys [(ACTION, Some "ctrl+shift+a")] init).2).1 in
  (ACTION, pressed_keys st) ∈ default [] (_target_hotkeys st)
  ∧ _is_hotkey_paused st = false
  ∧ (size (pressed_keys st) ≤ 3)%nat
  ∧ ∃ m', check_hotkey_match st = Some m'
          ∧ List.find (fun p => bool_decide (pressed_keys st = p.2))
                      (default [] (_target_hotkeys st))
            = Some (m', pressed_keys st).
Proof.
  intros st.
  assert (H1 : (ACTION, pressed_keys st) ∈ default [] (_target_hotkeys st))
    by (apply (bool_decide_unpack _); vm_compute; exact I).
  assert (H2 : _is_hotkey_paused st = false) by reflexivity.
  assert (H3 : (size (pressed_keys st) ≤ 3)%nat)
    by (apply (bool_decide_unpack _); vm_compute; exact I).
  split_and!; [exact H1|exact H2|exact H3|].
  exact (held_combination_matches st ACTION (pressed_keys st) H1 H2 eq_refl H3).
Defined.

(** The loop of [set_hotkeys] over a configuration whose values are all
    strings and whose keys are distinct builds one entry per mode. *)
Lemma build_targets_strings (items : dict (option string))
    (strs : dict string) (acc : dict (gset string)) :
  items = (fun p => (p.1, Some p.2)) <$> strs →
  NoDup (acc.*1 ++ strs.*1) →
  build_targets items acc
  = Some (acc ++ ((fun p => (p.1, list_to_set (split "+" p.2))) <$> strs)).
Proof.
  revert items acc. induction strs as [|[m s] strs IH]; intros items acc -> Hnd.
  - simpl. by rewrite app_nil_r.
  - simpl.
    assert (Hset : ∀ (v : gset string), dict_set m v acc = acc ++ [(m, v)]).
    { intros v. assert (Hm : m ∉ acc.*1).
      { intros Hin. apply NoDup_app in Hnd as (_ & Hdis & _).
        apply (Hdis m Hin). simpl. by left. }
      clear -Hm. induction acc as [|[k' v'] acc IHa]; simpl; [done|].
      rewrite bool_decide_eq_false_2.
      - f_equal. apply IHa. intros Hin. apply Hm. simpl. by right.
      - intros ->. apply Hm. simpl. by left. }
    rewrite Hset. erewrite IH; [|done|].
    + by rewrite <- (assoc_L (++)).
    + rewrite fmap_app, <- (assoc_L (++)). exact Hnd.
Qed.

(** X5.  For a configuration of strings with distinct modes, different
    from the stored one, [set_hotkeys] returns [True], stores the
    strings, and gives every mode the set of the symbols between the
    ["+"] signs of its string; nothing else changes. *)
Theorem set_hotkeys_installs (strs : dict string) (st : state) :
  NoDup strs.*1 →
  (∀ cur, _hotkey_strs st = Some cur →
     dict_eqb cur ((fun p => (p.1, Some p.2)) <$> strs) = false) →
  let hotkeys := (fun p => (p.1, Some p.2)) <$> strs in
  let st' := (set_hotkeys hotkeys st).2 in
  (set_hotkeys hotkeys st).1 = true
  ∧ _hotkey_strs st' = Some hotkeys
  ∧ _target_hotkeys st'
    = Some ((fun p => (p.1, list_to_set (split "+" p.2))) <$> strs)
  ∧ (∀ m s, (m, s) ∈ strs →
       dict_get m (default [] (_target_hotkeys st'))
       = Some (list_to_set (split "+" s)))
  ∧ pressed_keys st' = pressed_keys st
  ∧ _was_hotkey_pressed st' = _was_hotkey_pressed st
  ∧ _is_hotkey_paused st' = _is_hotkey_paused st.
Proof.
  intros Hnd Hdiff hotkeys st'. subst st' hotkeys. unfold set_hotkeys.
  assert (Hsame : match _hotkey_strs st with
                  | Some cur => dict_eqb cur ((λ p, (p.1, Some p.2)) <$> strs)
                  | None => false
                  end = false).
  { destruct (_hotkey_strs st) as [cur|]; [by apply Hdiff|done]. }
  rewrite Hsame.
  rewrite (build_targets_strings _ strs []) by done. simpl.
  split_and!; try done.
  intros m s Hin. apply dict_get_elem.
  - rewrite <- list_fmap_compose. done.
  - apply list_elem_of_fmap. by exists (m, s).
Qed.

Lemma set_hotkeys_installs_witness :
  let strs := [(DICTATION, "fn"); (ACTION, "ctrl+shift+a")] in
  NoDup strs.*1
  ∧ (∀ cur, _hotkey_strs init = Some cur →
       dict_eqb cur ((fun p => (p.1, Some p.2)) <$> strs) = false)
  ∧ dict_get ACTION
      (default [] (_target_hotkeys
         (set_hotkeys ((fun p => (p.1, Some p.2)) <$> strs) init).2))
    = Some (list_to_set (split "+" "ctrl+shift+a")).
Proof.
  intros strs.
  assert (H1 : NoDup strs.*1)
    by (apply (bool_decide_unpack _); vm_compute; exact I).
  assert (H2 : ∀ cur, _hotkey_strs init = Some cur →
                 dict_eqb cur ((fun p => (p.1, Some p.2)) <$> strs) = false)
    by (intros cur Hc; discriminate Hc).
  split_and!; [exact H1|exact H2|].
  destruct (set_hotkeys_installs strs init H1 H2) as (_ & _ & _ & Hget & _).
  apply (Hget ACTION "ctrl+shift+a"). subst strs. right. left.
Defined.


Lemma build_targets_none (items : dict (option string)) (acc : dict (gset string)) :
  (∃ m, (m, None) ∈ items) → build_targets items acc = None.
Proof.
  intros [m Hin]. revert acc.
  induction items as [|[m' [s|]] items IH]; intros acc; simpl; [|  |done].
  - by apply elem_of_nil in Hin.
  - apply elem_of_cons in Hin as [Heq|Hin]; [done|]. by apply IH.
Qed.

(** X6.  When a value of the configuration is [None] instead of a
    string, [set_hotkeys] returns [False] and leaves the target key sets
    as they were, but it has already stored the configuration; a second
    call with the same configuration therefore returns [True] without
    installing anything. *)
Theorem set_hotkeys_none_value (hotkeys : dict (option string)) (st : state) :
  NoDup hotkeys.*1 →
  (∃ m, (m, None) ∈ hotkeys) →
  (∀ cur, _hotkey_strs st = Some cur → dict_eqb cur hotkeys = false) →
  let st' := (set_hotkeys hotkeys st).2 in
  (set_hotkeys hotkeys st).1 = false
  ∧ _target_hotkeys st' = _target_hotkeys st
  ∧ _hotkey_strs st' = Some hotkeys
  ∧ set_hotkeys hotkeys st' = (true, st').
Proof.
  intros Hnd Hnone Hdiff st'. subst st'.
  assert (Hfirst : set_hotkeys hotkeys st
                   = (false, mkState (_target_hotkeys st) (Some hotkeys)
                                     (_key_press_times st) (_was_hotkey_pressed st)
                                     (_active_mode st) (_is_hotkey_paused st)
                                     (pressed_keys st))).
  { unfold set_hotkeys.
    assert (Hsame : match _hotkey_strs st with
                    | Some cur => dict_eqb cur hotkeys
                    | None => false
                    end = false).
    { destruct (_hotkey_strs st) as [cur|]; [by apply Hdiff|done]. }
    by rewrite Hsame, build_targets_none. }
  rewrite Hfirst. simpl. split_and!; try done.
  unfold set_hotkeys. simpl. by rewrite dict_eqb_refl.
Qed.

Lemma set_hotkeys_none_value_witness :
  let hotkeys := [(ACTION, None); (DICTATION, Some "fn")] in
  let st := (set_hotkeys two_hotkeys init).2 in
  NoDup hotkeys.*1
  ∧ (∃ m, (m, None) ∈ hotkeys)
  ∧ (∀ cur, _hotkey_strs st = Some cur → dict_eqb cur hotkeys = false)
  ∧ (set_hotkeys hotkeys st).1 = false
  ∧ _target_hotkeys (set_hotkeys hotkeys st).2 = _target_hotkeys st
  ∧ set_hotkeys hotkeys (set_hotkeys hotkeys st).2
    = (true, (set_hotkeys hotkeys st).2).
Proof.
  intros hotkeys st.
  assert (H1 : NoDup hotkeys.*1)
    by (apply (bool_decide_unpack _); vm_compute; exact I).
  assert (H2 : ∃ m, (m, None) ∈ hotkeys) by (exists ACTION; left).
  assert (H3 : ∀ cur, _hotkey_strs st = Some cur → dict_eqb cur hotkeys = false)
    by (intros cur [= <-]; vm_compute; reflexivity).
  destruct (set_hotkeys_none_value hotkeys st H1 H2 H3) as (R1 & R2 & _ & R4).
  split_and!; [exact H1|exact H2|exact H3|exact R1|exact R2|exact R4].
Defined.

Lemma split_no_separator (sep : ascii) (s k : string) :
  k ∈ split sep s → has_char sep k = false.
Proof.
  revert k. induction s as [|c s IH]; intros k; simpl.
  - by intros ->%list_elem_of_singleton.
  - destruct (Ascii.eqb c sep) eqn:Hc.
    + intros [->|Hin]%elem_of_cons; [done|by apply IH].
    + destruct (split sep s) as [|t ts] eqn:Hs.
      * intros ->%list_elem_of_singleton. simpl. by rewrite Hc.
      * intros [->|Hin]%elem_of_cons.
        -- simpl. rewrite Hc. apply IH. by left.
        -- apply IH. by right.
Qed.

(** X7.  No symbol of a target key set installed by [set_hotkeys]
    contains the character ["+"]: the strings are cut at every ["+"], so
    the plus key itself cannot be part of a combination. *)
Theorem no_plus_in_targets (strs : dict string) (st : state)
    (m : CommandMode) (keys : gset string) (k : string) :
  NoDup strs.*1 →
  (∀ cur, _hotkey_strs st = Some cur →
     dict_eqb cur ((fun p => (p.1, Some p.2)) <$> strs) = false) →
  (m, keys)
  ∈ default [] (_target_hotkeys
                  (set_hotkeys ((fun p => (p.1, Some p.2)) <$> strs) st).2) →
  k ∈ keys → has_char "+" k = false ∧ k ≠ "+".
Proof.
  intros Hnd Hdiff Hin Hk.
  destruct (set_hotkeys_installs strs st Hnd Hdiff) as (_ & _ & Ht & _).
  rewrite Ht in Hin. simpl in Hin.
  apply list_elem_of_fmap in Hin as ([m' s] & [= -> ->] & _).
  apply elem_of_list_to_set in Hk.
  pose proof (split_no_separator _ _ _ Hk) as Hno.
  split; [done|]. intros ->. done.
Qed.

Lemma no_plus_in_targets_witness :
  let strs := [(ACTION, "ctrl++")] in
  NoDup strs.*1
  ∧ (∀ cur, _hotkey_strs init = Some cur →
       dict_eqb cur ((fun p => (p.1, Some p.2)) <$> strs) = false)
  ∧ (ACTION, {["ctrl"; ""]})
    ∈ default [] (_target_hotkeys
                    (set_hotkeys ((fun p => (p.1, Some p.2)) <$> strs) init).2)
  ∧ "" ∈ ({["ctrl"; ""]} : gset string)
  ∧ has_char "+" "" = false ∧ "" ≠ "+".
Proof.
  intros strs.
  assert (H1 : NoDup strs.*1)
    by (apply (bool_decide_unpack _); vm_compute; exact I).
  assert (H2 : ∀ cur, _hotkey_strs init = Some cur →
                 dict_eqb cur ((fun p => (p.1, Some p.2)) <$> strs) = false)
    by (intros cur Hc; discriminate Hc).
  assert (H3 : (ACTION, {["ctrl"; ""]})
               ∈ default [] (_target_hotkeys
                   (set_hotkeys ((fun p => (p.1, Some p.2)) <$> strs) init).2))
    by (apply (bool_decide_unpack _); vm_compute; exact I).
  assert (H4 : "" ∈ ({["ctrl"; ""]} : gset string))
    by (apply (bool_decide_unpack _); vm_compute; exact I).
  split_and!; [exact H1|exact H2|exact H3|exact H4|..];
    apply (no_plus_in_targets strs init ACTION _ "" H1 H2 H3 H4).
Defined.

(** A key event emits a press signal only for a mode that
    [check_hotkey_match] answers under the same pause flag. *)
Lemma handle_pressed_unpaused now e st m :
  hotkey_pressed m ∈ (handle now e st).2 →
  ∃ st', _is_hotkey_paused st' = _is_hotkey_paused st
         ∧ check_hotkey_match st' = Some m.
Proof.
  assert (Hlatch : ∀ st1 st2,
    _is_hotkey_paused st1 = _is_hotkey_paused st →
    hotkey_pressed m ∈ match latch_press (check_hotkey_match st1) st1 with
                       | Some r => r
                       | None => (st2, [])
                       end.2 →
    ∃ st', _is_hotkey_paused st' = _is_hotkey_paused st
           ∧ check_hotkey_match st' = Some m).
  { intros st1 st2 Hp1.
    destruct (latch_press _ _) as [[st' out]|] eqn:E; simpl.
    - apply latch_press_Some in E as (_ & _ & _ & m' & Hm & ->).
      intros [= ->]%list_elem_of_singleton. by exists st1.
    - intros H. by apply elem_of_nil in H. }
  destruct e as [k|k]; simpl.
  - by apply Hlatch.
  - unfold _on_release, unlatch. case_bool_decide as Hfn.
    + case_bool_decide as Hin; [|by apply Hlatch].
      cbn [_was_hotkey_pressed]. destruct (_was_hotkey_pressed st); simpl.
      * intros H. apply list_elem_of_singleton in H. discriminate.
      * intros H. by apply elem_of_nil in H.
    + cbn [_was_hotkey_pressed].
      destruct (_was_hotkey_pressed st && _); simpl.
      * intros H. apply list_elem_of_singleton in H. discriminate.
      * intros H. by apply elem_of_nil in H.
Qed.

(** X8.  While hotkey triggers are paused, no key event emits a press
    signal, and the events do not lift the pause. *)
Theorem paused_no_press (st : state) (now : Z) (es : list key_event) (m : CommandMode) :
  _is_hotkey_paused st = true →
  (hotkey_pressed m ∉ (deliver now es st).2)
  ∧ _is_hotkey_paused (deliver now es st).1 = true
  ∧ check_hotkey_match (pause_hotkey_triggers st) = None.
Proof.
  intros Hp. split_and!.
  - revert st Hp. induction es as [|e es IH]; intros st Hp.
    + simpl. apply not_elem_of_nil.
    + rewrite deliver_cons. cbn [snd].
      destruct (handle_spec now e st) as (_ & Hp1 & _).
      intros [Hin|Hin]%elem_of_app.
      * apply handle_pressed_unpaused in Hin as (st' & Hp' & Hm).
        unfold check_hotkey_match in Hm. rewrite Hp', Hp, orb_true_r in Hm. done.
      * apply (IH (handle now e st).1); [congruence|done].
  - destruct (deliver_spec now es st) as (_ & Hp' & _). congruence.
  - unfold check_hotkey_match. simpl. by rewrite orb_true_r.
Qed.

Lemma paused_no_press_witness :
  let st := pause_hotkey_triggers (set_hotkeys two_hotkeys init).2 in
  _is_hotkey_paused st = true
  ∧ (hotkey_pressed ACTION ∉ (deliver 0 [press "f10"; release "f10"] st).2)
  ∧ (deliver 0 [press "f10"; release "f10"]
             (resume_hotkey_triggers st)).2
    = [hotkey_pressed ACTION; hotkey_released (Some ACTION)].
Proof.
  intros st.
  assert (H : _is_hotkey_paused st = true) by reflexivity.
  split_and!; [exact H| |vm_compute; reflexivity].
  exact (proj1 (paused_no_press st 0 _ ACTION H)).
Defined.

End keyboard_configuration.

(** ** CommandProcessor: the [is_processing] property, the life of a worker *)

Section processor_more.
Import CommandProcessor.

Lemma backed_fields st st' :
  _is_processing st' = _is_processing st →
  _processing_thread st' = _processing_thread st →
  threads st' = threads st →
  backed st → backed st'.
Proof.
  intros Hf Ht Hth Hb. unfold backed, phase_of. rewrite Hf, Ht, Hth. exact Hb.
Qed.

Lemma backed_set_phase t q st :
  backed st → holding q = true →
  (∀ p, phase_of t st = Some p → holding p = true) →
  backed (set_phase t q st).
Proof.
  intros Hb Hq Hp Hf. destruct (Hb Hf) as (t0 & p0 & Ht0 & Hp0 & Hh0).
  destruct (decide (t = t0)) as [->|Hne].
  - exists t0, q. rewrite phase_of_set_phase, bool_decide_eq_true_2 by done.
    rewrite Hp0. done.
  - exists t0, p0. rewrite phase_of_set_phase, bool_decide_eq_false_2 by done.
    done.
Qed.

Lemma backed_step e st :
  submission e = true → backed st → backed (step e st).1.
Proof.
  intros He Hb. destruct e as [c text audio m| |t|t o|t|t|]; simpl; try done.
  - unfold process_command. destruct (empty_command _ _); [done|].
    destruct (_is_processing st) eqn:Hf; [done|]. simpl. intros _.
    exists (length (threads st)), Created.
    rewrite phase_of_spawn, bool_decide_eq_true_2 by done. done.
  - unfold start_thread. destruct (starting st) as [|n]; [done|].
    destruct (_processing_thread st) as [t|] eqn:Ht;
      [|by apply (backed_fields st)].
    case_bool_decide as Hp; [|by apply (backed_fields st)].
    intros Hf. exists t, Started.
    rewrite phase_of_set_phase, bool_decide_eq_true_2 by done.
    change (phase_of t (mkState _ _ _ _)) with (phase_of t st). by rewrite Hp.
  - unfold enter. destruct (threads st !! t) as [w|] eqn:Hw; [|done].
    assert (Hp : phase_of t st = Some (at_phase w))
      by (unfold phase_of; by rewrite Hw).
    destruct (at_phase w) eqn:Hph; try done.
    destruct (mode w); (apply backed_set_phase; [done..|]);
      intros p; rewrite Hp; by intros [= <-].
  - unfold leave. case_bool_decide as Hp; [|done].
    destruct o; (apply backed_set_phase; [done..|]);
      intros p; rewrite Hp; by intros [= <-].
  - unfold release. by destruct (phase_of t st) as [[]|] eqn:Hp.
  - unfold report. destruct (phase_of t st) as [[]|] eqn:Hp; try done. simpl.
    intros Hf. destruct (Hb Hf) as (t0 & p0 & Ht0 & Hp0 & Hh0).
    exists t0, p0. rewrite phase_of_set_phase.
    case_bool_decide; [|done]. subst. rewrite Hp in Hp0. by simplify_eq.
Qed.

Lemma backed_run es st :
  Forall (λ e, submission e = true) es → backed st → backed (run es st).1.
Proof.
  intros Hes. revert st. induction Hes as [|e es He Hes IH]; intros st Hb; [done|].
  rewrite run_cons. simpl. apply IH. by apply backed_step.
Qed.

(** X9.  After any schedule of submissions and worker steps, a read of
    the [is_processing] property returns the flag and changes nothing,
    and a set flag means that the thread the processor refers to is
    alive, unless a caller stands between the block under the lock and
    [start()]: in that window the flag is set, the thread is not yet
    alive, and the read resets the flag and reports [False]. *)
Theorem is_processing_reads (es : list event) :
  Forall (λ e, submission e = true) es →
  let st := (run es init).1 in
  (starting st = 0%nat →
     is_processing st = (_is_processing st, st)
     ∧ (_is_processing st = true →
        ∃ t, _processing_thread st = Some t ∧ is_alive t st = true))
  ∧ (starting st ≠ 0%nat →
     _is_processing st = true
     ∧ is_processing st
       = (false, mkState false (_processing_thread st) (threads st) (starting st))).
Proof.
  intros Hes st.
  assert (Hinv : single_flight st)
    by (apply single_flight_run; [done|apply single_flight_init]).
  assert (Hb : backed st) by (by apply backed_run).
  destruct Hinv as [Hh Hle Hc]. split.
  - intros Hs.
    assert (Halive : _is_processing st = true →
              ∃ t, _processing_thread st = Some t ∧ is_alive t st = true).
    { intros Hf. destruct (Hb Hf) as (t & p & Ht & Hp & Hhold). exists t.
      split; [done|]. unfold is_alive. rewrite Hp. simpl.
      destruct p; try done. assert (starting st = 1%nat); [|lia].
      apply Hc. by exists t. }
    split; [|done]. unfold is_processing.
    destruct (_is_processing st) eqn:Hf; [|done].
    destruct (Halive eq_refl) as (t & -> & ->). done.
  - intros Hs. assert (Hs1 : starting st = 1%nat) by lia.
    apply Hc in Hs1 as [t Ht]. destruct (Hh t Created Ht eq_refl) as [Hf Hcur].
    split; [done|]. unfold is_processing, is_alive. by rewrite Hf, Hcur, Ht.
Qed.

Lemma is_processing_reads_witness :
  Forall (λ e, submission e = true) [a_command; Start; Enter 0]
  ∧ starting (run [a_command; Start; Enter 0] init).1 = 0%nat
  ∧ is_processing (run [a_command; Start; Enter 0] init).1
    = (true, (run [a_command; Start; Enter 0] init).1).
Proof.
  assert (H : Forall (λ e, submission e = true) [a_command; Start; Enter 0])
    by (repeat constructor).
  assert (Hs : starting (run [a_command; Start; Enter 0] init).1 = 0%nat)
    by reflexivity.
  split_and!; [exact H|exact Hs|].
  exact (proj1 (proj1 (is_processing_reads _ H) Hs)).
Defined.

(** One step never moves a worker back, and never touches what it was
    submitted with. *)
Lemma step_worker e st t w :
  threads st !! t = Some w →
  ∃ w', threads (step e st).1 !! t = Some w'
        ∧ arguments w' = arguments w
        ∧ (rank (at_phase w) ≤ rank (at_phase w'))%nat.
Proof.
  intros Hw.
  assert (Hsame : ∃ w', threads st !! t = Some w' ∧ arguments w' = arguments w
                        ∧ (rank (at_phase w) ≤ rank (at_phase w'))%nat)
    by (by exists w).
  assert (Hset : ∀ t' q f th n,
    (∀ p, phase_of t' st = Some p → (rank p ≤ rank q)%nat) →
    ∃ w', threads (set_phase t' q (mkState f th (threads st) n)) !! t = Some w'
          ∧ arguments w' = arguments w
          ∧ (rank (at_phase w) ≤ rank (at_phase w'))%nat).
  { intros t' q f th n Hq. unfold set_phase. simpl.
    destruct (decide (t' = t)) as [->|Hne].
    - rewrite list_lookup_alter_eq, Hw. simpl. eexists. split_and!; [done..|].
      simpl. apply Hq. unfold phase_of. by rewrite Hw.
    - rewrite list_lookup_alter_ne by done. by exists w. }
  assert (Hset' : ∀ t' q,
    (∀ p, phase_of t' st = Some p → (rank p ≤ rank q)%nat) →
    ∃ w', threads (set_phase t' q st) !! t = Some w'
          ∧ arguments w' = arguments w
          ∧ (rank (at_phase w) ≤ rank (at_phase w'))%nat).
  { intros t' q Hq.
    apply (Hset t' q (_is_processing st) (_processing_thread st) (starting st) Hq). }
  destruct e as [c text audio m| |t'|t' o|t'|t'|]; simpl.
  - unfold process_command. destruct (empty_command _ _); [done|].
    destruct (_is_processing st); [done|]. simpl. exists w.
    split; [|done]. apply lookup_app_l_Some, Hw.
  - unfold start_thread. destruct (starting st) as [|n]; [done|].
    destruct (_processing_thread st) as [t'|]; [|done].
    case_bool_decide as Hp; [|done].
    apply Hset. intros p. rewrite Hp. intros [= <-]. simpl. lia.
  - unfold enter. destruct (threads st !! t') as [w0|] eqn:Hw0; [|done].
    assert (Hp : phase_of t' st = Some (at_phase w0))
      by (unfold phase_of; by rewrite Hw0).
    destruct (at_phase w0) eqn:Hph; try done.
    destruct (mode w0); apply Hset'; intros p; rewrite Hp;
      intros [= <-]; simpl; lia.
  - unfold leave. case_bool_decide as Hp; [|done].
    destruct o; apply Hset'; intros p; rewrite Hp; intros [= <-]; simpl; lia.
  - unfold release. destruct (phase_of t' st) as [[]|] eqn:Hp; try done.
    apply Hset. intros p.
    change (phase_of t' st = Some p → (rank p ≤ rank (Reporting success error_msg))%nat).
    rewrite Hp. intros [= <-]. simpl. lia.
  - unfold report. destruct (phase_of t' st) as [[]|] eqn:Hp; try done. simpl.
    apply Hset'. intros p. rewrite Hp. intros [= <-]. simpl. lia.
  - unfold is_processing. by destruct (_is_processing st && _).
Qed.

(** X10.  Over any schedule, reads of [is_processing] included, a
    worker keeps the context, the command, the mode and the audio it
    was submitted with, and only moves forward through its phases
    (created, started, in the engine, leaving, reporting, finished): a
    worker that has left the engine is never inside it again. *)
Theorem worker_moves_forward (es : list event) (st : state) (t : nat) (w : worker) :
  threads st !! t = Some w →
  ∃ w', threads (run es st).1 !! t = Some w'
        ∧ arguments w' = arguments w
        ∧ (rank (at_phase w) ≤ rank (at_phase w'))%nat
        ∧ ((2 < rank (at_phase w))%nat → at_phase w' ≠ InEngine).
Proof.
  revert st w. induction es as [|e es IH]; intros st w Hw.
  - exists w. split_and!; [done..|]. intros Hr Heq. rewrite Heq in Hr. simpl in Hr. lia.
  - rewrite run_cons. cbn [fst].
    destruct (step_worker e st t w Hw) as (w1 & Hw1 & Ha1 & Hr1).
    destruct (IH _ w1 Hw1) as (w2 & Hw2 & Ha2 & Hr2 & Hn2).
    exists w2. split_and!; [done|congruence|lia|].
    intros Hr. apply Hn2. lia.
Qed.

Lemma worker_moves_forward_witness :
  let st := (run [a_command; Start; Enter 0; Leave 0 Returned] init).1 in
  let w := mkWorker (mkContext (Some "TextEdit") (Some "Hello") None)
                    "select all" (Some DICTATION) None (Leaving true "") in
  threads st !! 0%nat = Some w
  ∧ ∃ w', threads (run [ReadIsProcessing; Enter 0; a_command; Start; Release 0;
                        Enter 0; Report 0] st).1 !! 0%nat = Some w'
          ∧ arguments w' = arguments w
          ∧ at_phase w' ≠ InEngine.
Proof.
  intros st w.
  assert (H : threads st !! 0%nat = Some w) by reflexivity.
  split; [exact H|].
  destruct (worker_moves_forward
              [ReadIsProcessing; Enter 0; a_command; Start; Release 0;
               Enter 0; Report 0] st 0 w H) as (w' & Hw' & Ha & _ & Hn).
  exists w'. split_and!; [exact Hw'|exact Ha|].
  apply Hn. simpl. lia.
Defined.

End processor_more.

(** ** ContextManager: what the snapshot holds, how many fetches run *)

Section context_more.
Import ContextManager.

Lemma coherent_step e st : coherent st → coherent (step e st).
Proof.
  intros Hc. destruct e as [mode info|t full cursor|]; simpl.
  - unfold fetch_context_async. destruct (in_flight st) eqn:Hfl; [done|].
    destruct (determined info) as [name|]; intros t f; simpl.
    + intros [= <-]. rewrite lookup_app_r, Nat.sub_diag by lia.
      by intros [= <-].
    + intros Ht Hf Hr. unfold in_flight, is_alive in Hfl.
      rewrite Ht, Hf in Hfl. simpl in Hfl. congruence.
  - unfold _fetch_target. destruct (threads st !! t) as [f|] eqn:Hf; [|done].
    destruct (running f) eqn:Hr; [|done].
    destruct (fetched _ _ _) as [primary page]. intros t' f'. simpl.
    intros Ht'. destruct (decide (t' = t)) as [->|Hne].
    + rewrite list_lookup_insert_eq by (by eapply lookup_lt_Some).
      by intros [= <-].
    + rewrite list_lookup_insert_ne by done. intros Hf' Hr'.
      rewrite bool_decide_eq_false_2 by congruence. by apply (Hc t' f').
  - intros t f. done.
Qed.

Lemma coherent_run es st : coherent st → coherent (run es st).
Proof.
  revert st. induction es as [|e es IH]; intros st Hc; [done|].
  simpl. apply IH. by apply coherent_step.
Qed.

(** X11.  Over any schedule of fetch requests, thread ends and
    cleanups: while the current fetch thread runs, the snapshot names the
    application that fetch was started for and holds no context; and
    what the thread commits when it ends is stored under that same
    application name.  A snapshot never pairs the name of one
    application with the context fetched for another. *)
Theorem snapshot_belongs_to_fetch (es : list event) (t : nat) (f : fetch)
    (full cursor : engine_result) :
  let st := run es init in
  _fetch_thread st = Some t → threads st !! t = Some f → running f = true →
  get_current_context st = mkContext (Some (for_app f)) None None
  ∧ get_current_context (_fetch_target t full cursor st)
    = mkContext (Some (for_app f))
                (fetched (for_mode f) full cursor).1
                (fetched (for_mode f) full cursor).2.
Proof.
  intros st Ht Hf Hr.
  assert (Hc : coherent st) by (apply coherent_run; by intros ? ? ?).
  specialize (Hc t f Ht Hf Hr). unfold get_current_context. split; [done|].
  unfold _fetch_target. rewrite Hf, Hr.
  destruct (fetched _ _ _) as [primary page]. simpl.
  by rewrite bool_decide_eq_true_2, Hc.
Qed.

Lemma snapshot_belongs_to_fetch_witness :
  let es := [FetchAsync (Some ACTION) (Some (Some "Notes"));
             Done 0 (Ret (Some "note")) Raise;
             FetchAsync (Some DICTATION) None;
             FetchAsync (Some DICTATION) (Some (Some "TextEdit"))] in
  _fetch_thread (run es init) = Some 1%nat
  ∧ threads (run es init) !! 1%nat = Some (mkFetch "TextEdit" (Some DICTATION) true)
  ∧ get_current_context
      (_fetch_target 1 (Ret (Some "page")) (Ret (Some "line")) (run es init))
    = mkContext (Some "TextEdit") (Some "line") (Some "page").
Proof.
  intros es.
  assert (H1 : _fetch_thread (run es init) = Some 1%nat) by reflexivity.
  assert (H2 : threads (run es init) !! 1%nat
               = Some (mkFetch "TextEdit" (Some DICTATION) true)) by reflexivity.
  split_and!; [exact H1|exact H2|].
  exact (proj2 (snapshot_belongs_to_fetch es 1 _ (Ret (Some "page"))
                  (Ret (Some "line")) H1 H2 eq_refl)).
Defined.

Lemma single_fetch_step e st :
  is_cleanup e = false → single_fetch st → single_fetch (step e st).
Proof.
  intros He Hs. destruct e as [mode info|t full cursor|]; simpl; [| |done].
  - unfold fetch_context_async. destruct (in_flight st) eqn:Hfl; [done|].
    assert (Hnone : ∀ t, is_alive t st = false).
    { intros t. destruct (is_alive t st) eqn:Ha; [|done].
      unfold in_flight in Hfl. by rewrite (Hs t Ha), Ha in Hfl. }
    destruct (determined info) as [name|]; intros t; unfold is_alive; simpl.
    + destruct (decide (t = length (threads st))) as [->|Hne]; [done|].
      destruct (decide (t < length (threads st))%nat).
      * rewrite lookup_app_l by done. intros Ha.
        specialize (Hnone t). unfold is_alive in Hnone. congruence.
      * rewrite lookup_ge_None_2; [done|]. rewrite length_app. simpl. lia.
    + intros Ha. specialize (Hnone t). unfold is_alive in Hnone. congruence.
  - unfold _fetch_target. destruct (threads st !! t) as [f|] eqn:Hf; [|done].
    destruct (running f) eqn:Hr; [|done].
    destruct (fetched _ _ _) as [primary page]. intros t'. unfold is_alive. simpl.
    destruct (decide (t' = t)) as [->|Hne].
    + rewrite list_lookup_insert_eq by (by eapply lookup_lt_Some). done.
    + rewrite list_lookup_insert_ne by done. apply Hs.
Qed.

(** X12.  As long as [cleanup] is not called, at most one fetch thread
    runs at any time, and it is the one the manager refers to: a request
    made while it runs starts nothing, and once it has ended no thread
    runs until the next request. *)
Theorem one_fetch_in_flight (es : list event) (t1 t2 : nat) :
  Forall (λ e, is_cleanup e = false) es →
  let st := run es init in
  is_alive t1 st = true → is_alive t2 st = true →
  t1 = t2 ∧ _fetch_thread st = Some t1 ∧ in_flight st = true.
Proof.
  intros Hes st H1 H2.
  assert (Hs : single_fetch st).
  { subst st. assert (H0 : single_fetch init) by (intros t; by destruct t).
    revert H0. generalize init. clear H1 H2.
    induction Hes as [|e es He Hes IH]; intros st0 H0; [done|].
    simpl. apply IH. by apply single_fetch_step. }
  pose proof (Hs t1 H1) as Hc1. pose proof (Hs t2 H2) as Hc2.
  split_and!; [congruence|done|]. unfold in_flight. by rewrite Hc1.
Qed.

Lemma one_fetch_in_flight_witness :
  let es := [FetchAsync (Some ACTION) (Some (Some "Notes"));
             FetchAsync (Some ACTION) (Some (Some "Mail"));
             Done 0 (Ret None) Raise;
             FetchAsync (Some DICTATION) (Some (Some "TextEdit"));
             FetchAsync (Some ACTION) (Some (Some "Notes"))] in
  Forall (λ e, is_cleanup e = false) es
  ∧ is_alive 1 (run es init) = true
  ∧ _fetch_thread (run es init) = Some 1%nat
  ∧ length (threads (run es init)) = 2%nat.
Proof.
  intros es.
  assert (H : Forall (λ e, is_cleanup e = false) es) by (repeat constructor).
  assert (Ha : is_alive 1 (run es init) = true) by reflexivity.
  split_and!; [exact H|exact Ha| |reflexivity].
  exact (proj1 (proj2 (one_fetch_in_flight es 1 1 H Ha Ha))).
Defined.

(** With [cleanup] in between, two fetch threads run side by side; the
    orphaned one is the one whose result is discarded. *)
Example cleanup_orphans_fetch :
  let st := run [FetchAsync (Some ACTION) (Some (Some "Notes")); Cleanup;
                 FetchAsync (Some ACTION) (Some (Some "TextEdit"))] init in
  is_alive 0 st = true ∧ is_alive 1 st = true ∧ _fetch_thread st = Some 1%nat.
Proof. by split_and!. Qed.

End context_more.

(** ** AudioRecorder: stopping, completion, the silent watchdog *)

Section recorder_more.
Import AudioRecorder.

(** [_stop_watchdog] touches the watchdog fields and the events only. *)
Lemma stop_watchdog_frame caller st :
  let st' := (_stop_watchdog caller st).1 in
  _is_recording st' = _is_recording st ∧ _stop_event st' = _stop_event st
  ∧ _audio_queue st' = _audio_queue st
  ∧ _processing_callback st' = _processing_callback st
  ∧ _audio_detected st' = _audio_detected st
  ∧ _monitor_thread st' = _monitor_thread st ∧ monitors st' = monitors st
  ∧ recorders st' = recorders st ∧ watchdogs st' = watchdogs st.
Proof.
  unfold _stop_watchdog.
  destruct (_watchdog_stop_event st); simpl;
    destruct (_watchdog_thread st); simpl;
    try destruct (watchdog_alive _ _ && _); by split_and!.
Qed.

(** X13.  [stop_recording] on a recorder that is not recording changes
    nothing; on any recorder, a second call changes nothing more.  The
    call only signals: it never clears the recording flag itself and
    never drops a buffered chunk. *)
Theorem stop_recording_idempotent (st : state) :
  (is_recording st = false → stop_recording None st = (st, false))
  ∧ stop_recording None (stop_recording None st).1
    = ((stop_recording None st).1, false)
  ∧ is_recording (stop_recording None st).1 = is_recording st
  ∧ _audio_queue (stop_recording None st).1 = _audio_queue st
  ∧ (is_recording st = true → _stop_event (stop_recording None st).1 = true).
Proof.
  unfold stop_recording, is_recording.
  destruct st as [rec stop q cb det rt mt wt we rs ms ws evs].
  destruct rec; simpl; [|by split_and!].
  unfold _stop_watchdog. simpl.
  destruct we as [e|]; simpl; destruct wt as [t|]; simpl;
    rewrite ?andb_false_r; simpl; by split_and!.
Qed.

Lemma stop_recording_idempotent_witness :
  let st := (run [StartRecording 4%nat; Block 0 [7; 8]] init).1 in
  is_recording st = true
  ∧ _stop_event (stop_recording None st).1 = true
  ∧ _audio_queue (stop_recording None st).1 = _audio_queue st
  ∧ stop_recording None (stop_recording None st).1
    = ((stop_recording None st).1, false).
Proof.
  intros st.
  assert (H : is_recording st = true) by reflexivity.
  destruct (stop_recording_idempotent st) as (_ & Hagain & _ & Hq & Hstop).
  split_and!; [exact H|exact (Hstop H)|exact Hq|exact Hagain].
Defined.

Lemma session_frame st st' :
  monitors st' = monitors st → _is_recording st' = _is_recording st →
  _monitor_thread st' = _monitor_thread st →
  _processing_callback st' = _processing_callback st →
  session_ok st → session_ok st'.
Proof.
  intros Hm Hr Ht Hc [H1 H2]. split.
  - intros t Hw. rewrite Hm in Hw. rewrite Hr, Ht. by apply H1.
  - intros Hrec. rewrite Hr in Hrec. destruct (H2 Hrec) as (t & cb & ? & ? & ?).
    exists t, cb. by rewrite Hm, Ht, Hc.
Qed.

Lemma session_ok_stop caller st :
  session_ok st → session_ok (stop_recording caller st).1.
Proof.
  intros Hs. unfold stop_recording. destruct (is_recording st); [|done].
  destruct (stop_watchdog_frame caller (set_stop_event true st))
    as (? & ? & ? & ? & ? & ? & ? & ? & ?).
  by apply (session_frame st).
Qed.

Lemma session_ok_step e st : session_ok st → session_ok (step e st).1.
Proof.
  intros Hs. destruct e as [cb| |t c|t|t now|t now|t wav]; simpl.
  - unfold start_recording. destruct (_is_recording st) eqn:Hrec; [done|]. simpl.
    assert (Hnone : ∀ t, monitors st !! t ≠ Some true).
    { intros t Ht. destruct (waiting_is_current st Hs t Ht). congruence. }
    unfold _start_watchdog.
    match goal with |- context [_stop_watchdog None ?s] =>
      destruct (stop_watchdog_frame None s) as (_ & _ & _ & Hcb & _ & Hmt & Hms & _)
    end.
    split; simpl; rewrite ?Hms, ?Hmt, ?Hcb; simpl.
    + intros t Ht. split; [done|]. f_equal.
      destruct (decide (t = length (monitors st))) as [->|Hne]; [done|].
      destruct (decide (t < length (monitors st))%nat).
      * rewrite lookup_app_l in Ht by done. by destruct (Hnone t).
      * rewrite lookup_ge_None_2 in Ht; [done|]. rewrite length_app. simpl. lia.
    + intros _. exists (length (monitors st)), cb. split_and!; [done| |done].
      by rewrite lookup_app_r, Nat.sub_diag by lia.
  - by apply session_ok_stop.
  - unfold record_block. destruct (default false (recorders st !! t)); [|done].
    apply (session_frame st); try done; unfold notify_audio_detected;
      by destruct (_audio_detected st).
  - by apply (session_frame st).
  - unfold watchdog_begins.
    destruct (watchdogs st !! t) as [[[?|] []]|]; try done.
    by apply (session_frame st).
  - unfold _watchdog_target.
    destruct (watchdogs st !! t) as [[[started|] []]|]; try done.
    destruct (_watchdog_stop_event st); [|by apply (session_frame st)].
    destruct (default false (events st !! _)); [by apply (session_frame st)|].
    destruct (negb (is_recording st)); [by apply (session_frame st)|].
    destruct (_audio_detected st); [by apply (session_frame st)|].
    destruct (_ <? _); [|done]. simpl.
    apply (session_frame (stop_recording (Some t) st).1); try done.
    by apply session_ok_stop.
  - unfold _monitor_target.
    destruct (default false (monitors st !! t)) eqn:Ht; [|done].
    destruct (_stop_event st); [|done]. simpl.
    destruct (stop_watchdog_frame None st)
      as (_ & _ & Hq & Hcb & _ & Hmt & Hms & _).
    assert (Hw : monitors st !! t = Some true).
    { destruct (monitors st !! t) as [[]|]; done. }
    destruct (waiting_is_current st Hs t Hw) as [Hrec Hcur].
    destruct (_audio_queue (_stop_watchdog None st).1)
      as [|c cs]; [|destruct wav]; simpl.
    all: split; simpl; [|done]; rewrite Hms; intros t' Ht';
      destruct (decide (t' = t)) as [->|Hne];
      [rewrite list_lookup_insert_eq in Ht' by (by eapply lookup_lt_Some); done|];
      rewrite list_lookup_insert_ne in Ht' by done;
      destruct (waiting_is_current st Hs t' Ht'); congruence.
Qed.

Lemma session_ok_run es st : session_ok st → session_ok (run es st).1.
Proof.
  revert st. induction es as [|e es IH]; intros st Hs; [done|].
  rewrite run_cons_recorder. simpl. apply IH. by apply session_ok_step.
Qed.


Lemma session_ok_init : session_ok init.
Proof. split; [by intros []|done]. Qed.

(** What the monitor does when it wakes. *)
Lemma monitor_wakes m wav st :
  monitors st !! m = Some true → _stop_event st = true →
  ∃ st2 out buf,
    _monitor_target m wav st
    = (st2, out, (fun cb => (cb, buf)) <$> _processing_callback st)
    ∧ is_recording st2 = false ∧ _audio_queue st2 = []
    ∧ (buf = None
       ∨ ∃ data, buf = Some (BytesIO data) ∧ wav = Some data
                 ∧ _audio_queue st ≠ []).
Proof.
  intros Hw Hstop. unfold _monitor_target. rewrite Hw, Hstop. simpl.
  destruct (stop_watchdog_frame None st) as (_ & _ & Hq & Hcb & _).
  rewrite Hq, Hcb.
  destruct (_audio_queue st) as [|c cs]; [|destruct wav as [data|]].
  - eexists _, _, _. split_and!; [reflexivity|done|done|by left].
  - eexists _, _, _. split_and!; [reflexivity|done|done|].
    right. by exists data.
  - eexists _, _, _. split_and!; [reflexivity|done|done|by left].
Qed.

(** With no recording in progress, no monitor thread is left to wake. *)
Lemma no_monitor_left st t wav :
  session_ok st → is_recording st = false →
  _monitor_target t wav st = (st, [], None).
Proof.
  intros Hs Hoff. unfold _monitor_target.
  destruct (monitors st !! t) as [[]|] eqn:Ht; simpl; try done.
  destruct (waiting_is_current st Hs t Ht). unfold is_recording in Hoff.
  congruence.
Qed.

(** X14.  After any schedule, a recording in progress has its monitor
    waiting and its callback stored.  Once [stop_recording] has been
    called, the monitor wakes, clears the recording flag, empties the
    queue and calls that callback once, with [None] or with the buffer
    built from the chunks collected; after that no monitor thread is
    left to call a callback again. *)
Theorem stopped_session_completes (es : list event) (wav : option string) :
  let st := (run es init).1 in
  is_recording st = true →
  ∃ m cb, _monitor_thread st = Some m ∧ _processing_callback st = Some cb
    ∧ ∃ st2 out buf,
        _monitor_target m wav (stop_recording None st).1
        = (st2, out, Some (cb, buf))
        ∧ is_recording st2 = false ∧ _audio_queue st2 = []
        ∧ (buf = None
           ∨ ∃ data, buf = Some (BytesIO data) ∧ wav = Some data
                     ∧ _audio_queue st ≠ [])
        ∧ ∀ t wav', _monitor_target t wav' st2 = (st2, [], None).
Proof.
  intros st Hrec.
  assert (Hs : session_ok st) by (apply session_ok_run, session_ok_init).
  destruct (recording_waits st Hs Hrec) as (m & cb & Hm & Hw & Hcb).
  exists m, cb. split_and!; [done..|].
  pose proof (session_ok_stop None st Hs) as Hs1.
  destruct (stop_recording_idempotent st) as (_ & _ & _ & Hq1 & Hstop1).
  specialize (Hstop1 Hrec).
  assert (Hframe : monitors (stop_recording None st).1 = monitors st
                   ∧ _processing_callback (stop_recording None st).1
                     = _processing_callback st).
  { unfold stop_recording. rewrite Hrec.
    destruct (stop_watchdog_frame None (set_stop_event true st))
      as (_ & _ & _ & ? & _ & _ & ? & _). done. }
  destruct Hframe as [Hms1 Hcb1].
  pose proof (session_ok_step (MonitorWakes m wav) _ Hs1) as Hs2.
  destruct (monitor_wakes m wav (stop_recording None st).1)
    as (st2 & out & buf & Heq & Hoff & Hempty & Hbuf);
    [by rewrite Hms1|done|].
  simpl in Hs2. rewrite Heq in Hs2. simpl in Hs2.
  exists st2, out, buf. rewrite Heq, Hcb1, Hcb. split_and!; try done.
  - by rewrite <- Hq1.
  - intros t wav'. by apply no_monitor_left.
Qed.

Lemma stopped_session_completes_witness :
  let es := [StartRecording 4%nat; Block 0 [7; 8]; StartRecording 5%nat] in
  is_recording (run es init).1 = true
  ∧ ∃ m cb, _monitor_thread (run es init).1 = Some m
      ∧ _processing_callback (run es init).1 = Some cb
      ∧ ∃ st2 out buf,
          _monitor_target m (Some "RIFF") (stop_recording None (run es init).1).1
          = (st2, out, Some (cb, buf))
          ∧ is_recording st2 = false ∧ _audio_queue st2 = []
          ∧ (buf = None
             ∨ ∃ data, buf = Some (BytesIO data) ∧ Some "RIFF" = Some data
                       ∧ _audio_queue (run es init).1 ≠ [])
          ∧ ∀ t wav', _monitor_target t wav' st2 = (st2, [], None).
Proof.
  intros es.
  assert (H : is_recording (run es init).1 = true) by reflexivity.
  split; [exact H|].
  exact (stopped_session_completes es (Some "RIFF") H).
Defined.

(** X15.  The watchdog does not fire early: in a session without audio
    and without stop, as long as no turn of the watchdog reads a clock
    more than 5.0 s after its start time, no error status is emitted and
    the session goes on recording. *)
Theorem watchdog_waits (st0 : state) (cb : callback) (begun : Z) (es : list event) :
  is_recording st0 = false →
  let w := length (watchdogs st0) in
  Forall (λ e, quiet w e = true) es →
  Forall (λ e, overdue w begun e = false) es →
  let session := StartRecording cb :: WatchdogBegins w begun :: es in
  is_recording (run session st0).1 = true
  ∧ _stop_event (run session st0).1 = false
  ∧ errors (run session st0).2 = 0%nat.
Proof.
  intros Hidle w Hquiet Hover session. subst session.
  destruct (start_recording_arms st0 cb Hidle)
    as (st1 & Hstart & Hrec & Hstop & Haud & Hq & Hcb & Hth & Hev & Hun & Hw & Hm).
  fold w in Hw, Hth.
  assert (Hs1 : step (StartRecording cb) st0
                = (st1, [Emit StatusMessage.RECORDING]))
    by (simpl; by rewrite Hstart).
  assert (Ha : armed w (length (events st0)) (length (monitors st0)) begun
                     (watchdog_begins w begun st1)).
  { unfold watchdog_begins. rewrite Hw. split; simpl; try done.
    apply list_lookup_insert_eq. by eapply lookup_lt_Some. }
  pose proof (armed_run w _ _ begun es _ Ha Hquiet) as Hrun.
  assert (Hex : existsb (overdue w begun) es = false).
  { clear -Hover. induction Hover as [|e es He Hes IH]; [done|].
    simpl. by rewrite He, IH. }
  rewrite Hex in Hrun. destruct Hrun as [[Hr Hnot _ _ _ _ _ _ _] Hn].
  rewrite run_cons_recorder, Hs1. cbn [fst snd].
  rewrite run_cons_recorder.
  change (step (WatchdogBegins w begun) st1)
    with (watchdog_begins w begun st1, @nil effect). cbn [fst snd].
  split_and!; [done..|].
  rewrite !errors_app, Hn. done.
Qed.

Lemma watchdog_waits_witness :
  let es := [WatchdogTurn 0%nat 4000; RecorderEnds 0%nat;
             WatchdogTurn 0%nat 6000] in
  let session := StartRecording 4%nat :: WatchdogBegins 0%nat 1000 :: es in
  is_recording init = false
  ∧ Forall (λ e, quiet 0 e = true) es
  ∧ Forall (λ e, overdue 0 1000 e = false) es
  ∧ is_recording (run session init).1 = true
  ∧ _stop_event (run session init).1 = false
  ∧ errors (run session init).2 = 0%nat.
Proof.
  intros es session.
  assert (H0 : is_recording init = false) by reflexivity.
  assert (H1 : Forall (λ e, quiet (length (watchdogs init)) e = true) es)
    by (repeat constructor).
  assert (H2 : Forall (λ e, overdue (length (watchdogs init)) 1000 e = false) es)
    by (repeat constructor).
  split_and!; [exact H0|exact H1|exact H2|..];
    apply (watchdog_waits init 4%nat 1000 es H0 H1 H2).
Defined.

Lemma silenced_frame w st st' :
  _audio_detected st' = _audio_detected st →
  _is_recording st' = _is_recording st →
  _watchdog_stop_event st' = _watchdog_stop_event st →
  events st' = events st → watchdogs st' = watchdogs st →
  silenced w st → silenced w st'.
Proof. unfold silenced. by intros -> -> -> -> ->. Qed.

(** A watchdog that has ended stays so when a body ends. *)
Lemma silenced_ends w t st : silenced w st → silenced w (watchdog_ends t st).
Proof.
  unfold silenced, watchdog_ends. simpl.
  intros [?|[?|[?|[?|Hd]]]]; [by left|by right; left|by right; right; left
                             |by right; right; right; left|].
  right; right; right; right.
  destruct (decide (w = t)) as [->|Hne].
  - rewrite list_lookup_alter_eq. by destruct (watchdogs st !! t).
  - by rewrite list_lookup_alter_ne.
Qed.

Lemma stop_silences w st : silenced w (stop_recording None st).1.
Proof.
  unfold stop_recording, is_recording.
  destruct st as [rec stop q cb det rt mt wt we rs ms ws evs].
  destruct rec; simpl; [|by right; left].
  right; right; left. unfold _stop_watchdog. simpl.
  destruct we as [e|]; simpl; destruct wt as [t|]; simpl;
    rewrite ?andb_false_r; done.
Qed.

Lemma silenced_step w e st :
  (∀ cb, e ≠ StartRecording cb) → silenced w st → silenced w (step e st).1.
Proof.
  intros He Hs. destruct e as [cb| |t c|t|t now|t now|t wav]; simpl.
  - by destruct (He cb).
  - apply stop_silences.
  - unfold record_block. destruct (default false (recorders st !! t)); [|done].
    left. unfold notify_audio_detected.
    by destruct (_audio_detected st) eqn:Hd.
  - by apply (silenced_frame w st).
  - unfold watchdog_begins.
    destruct (watchdogs st !! t) as [[[?|] []]|] eqn:Ht; try done.
    destruct Hs as [?|[?|[?|[?|Hd]]]]; [by left|by right; left
      |by right; right; left|by right; right; right; left|].
    right; right; right; right. simpl.
    destruct (decide (w = t)) as [->|Hne]; [by rewrite Ht in Hd|].
    by rewrite list_lookup_insert_ne.
  - unfold _watchdog_target.
    destruct (watchdogs st !! t) as [[[started|] []]|] eqn:Ht; try done.
    destruct (_watchdog_stop_event st) as [e|] eqn:He';
      [|by apply silenced_ends].
    destruct (default false (events st !! e)) eqn:Hset; [by apply silenced_ends|].
    destruct (negb (is_recording st)) eqn:Hrec; [by apply silenced_ends|].
    destruct (_audio_detected st) eqn:Hdet; [by apply silenced_ends|].
    destruct (_ <? _); [|done]. simpl.
    apply negb_false_iff in Hrec. unfold is_recording in Hrec.
    destruct Hs as [?|[?|[?|[(e' & ? & He'')|Hd]]]]; try congruence.
    { simplify_eq. by rewrite He'' in Hset. }
    right; right; right; right. unfold watchdog_ends. simpl.
    assert (Hws : watchdogs (stop_recording (Some t) st).1 = watchdogs st).
    { unfold stop_recording, is_recording. rewrite Hrec.
      by destruct (stop_watchdog_frame (Some t) (set_stop_event true st))
        as (_ & _ & _ & _ & _ & _ & _ & _ & ->). }
    rewrite Hws. destruct (decide (w = t)) as [->|Hne].
    + rewrite list_lookup_alter_eq. by rewrite Ht.
    + by rewrite list_lookup_alter_ne.
  - unfold _monitor_target.
    destruct (default false (monitors st !! t) && _stop_event st); [|done].
    right; left.
    destruct (_audio_queue _) as [|c cs]; [|destruct wav]; done.
Qed.

Lemma silenced_quiet w now st :
  silenced w st → (_watchdog_target w now st).2 = [].
Proof.
  intros Hs. unfold _watchdog_target.
  destruct (watchdogs st !! w) as [[[started|] []]|] eqn:Ht; try done.
  destruct (_watchdog_stop_event st) as [e|] eqn:He; [|done].
  destruct (default false (events st !! e)) eqn:Hset; [done|].
  destruct (negb (is_recording st)) eqn:Hrec; [done|].
  destruct (_audio_detected st) eqn:Hdet; [done|].
  apply negb_false_iff in Hrec. unfold is_recording in Hrec.
  destruct Hs as [?|[?|[?|[(e' & ? & He')|Hd]]]]; try congruence.
  - simplify_eq. by rewrite He' in Hset.
  - by rewrite Ht in Hd.
Qed.

(** X16.  The watchdog stands down.  Once a block of audio has been
    queued by a running recording thread, or [stop_recording] has been
    called, no later turn of any watchdog reports a timeout, whatever
    its clock reads and whatever the threads do in between, until
    [start_recording] is called again. *)
Theorem watchdog_stands_down (st : state) (e : event) (es : list event)
    (w : nat) (now : Z) :
  e = StopRecording ∨ (∃ t c, e = Block t c ∧ recorders st !! t = Some true) →
  (∀ cb, StartRecording cb ∉ es) →
  (_watchdog_target w now (run (e :: es) st).1).2 = [].
Proof.
  intros He Hes. apply silenced_quiet. rewrite run_cons_recorder. simpl.
  assert (Hs : silenced w (step e st).1).
  { destruct He as [->|(t & c & -> & Ht)]; simpl; [apply stop_silences|].
    left. unfold record_block, notify_audio_detected. rewrite Ht. simpl.
    by destruct (_audio_detected st) eqn:Hd. }
  clear He. revert Hs. generalize (step e st).1. clear st e.
  induction es as [|e es IH]; intros st Hs; [done|].
  rewrite run_cons_recorder. simpl. apply IH.
  - intros cb Hin. apply (Hes cb). by right.
  - apply silenced_step; [|done]. intros cb ->. apply (Hes cb). by left.
Qed.

Lemma watchdog_stands_down_witness :
  let st := (run [StartRecording 4%nat; WatchdogBegins 0%nat 1000] init).1 in
  let es := [WatchdogTurn 1%nat 2000; StopRecording; MonitorWakes 0%nat None;
             WatchdogBegins 0%nat 3000] in
  (Block 0 [7; 8] = StopRecording
   ∨ ∃ t c, Block 0 [7; 8] = Block t c ∧ recorders st !! t = Some true)
  ∧ (∀ cb, StartRecording cb ∉ es)
  ∧ (_watchdog_target 0 9000 (run (Block 0 [7; 8] :: es) st).1).2 = [].
Proof.
  intros st es.
  assert (H1 : Block 0 [7; 8] = StopRecording
               ∨ ∃ t c, Block 0 [7; 8] = Block t c ∧ recorders st !! t = Some true)
    by (right; by exists 0%nat, [7; 8]).
  assert (H2 : ∀ cb, StartRecording cb ∉ es).
  { intros cb Hin. repeat (apply elem_of_cons in Hin as [Hin|Hin]; [done|]).
    by apply elem_of_nil in Hin. }
  split_and!; [exact H1|exact H2|].
  exact (watchdog_stands_down st (Block 0 [7; 8]) es 0%nat 9000 H1 H2).
Defined.

End recorder_more.

(** ** DiscreteApplicationRunner: dispatch, failures, the idle release *)

Lemma alter_last {A} (f : A → A) (l : list A) (x : A) :
  alter f (length l) (l ++ [x]) = l ++ [f x].
Proof.
  replace (length l) with (length l + 0)%nat by lia. by rewrite alter_app_r.
Qed.

Section runner_more.
Import DiscreteApplicationRunner.

Lemma run_snoc es e st : run (es ++ [e]) st = step e (run es st).
Proof. unfold run. by rewrite foldl_app. Qed.

Lemma blank_false t : all_space t = false → blank (Some t) = false.
Proof.
  intros Ht. destruct (blank (Some t)) eqn:Hb; [|done].
  apply blank_Some in Hb. congruence.
Qed.

Lemma empty_command_text t : all_space t = false →
  CommandProcessor.empty_command t None = false.
Proof.
  intros Ht. pose proof (blank_false t Ht) as Hb. unfold blank in Hb.
  unfold CommandProcessor.empty_command. by rewrite Hb.
Qed.

(** An uninterrupted submission to a processor whose flag is clear
    creates the worker and starts it. *)
Lemma process_command_call_spawns c text audio m (cp : CommandProcessor.state) :
  CommandProcessor.empty_command text audio = false →
  CommandProcessor._is_processing cp = false →
  CommandProcessor.process_command_call c text audio m cp
  = (true,
     CommandProcessor.mkState true (Some (length (CommandProcessor.threads cp)))
       (CommandProcessor.threads cp
        ++ [CommandProcessor.mkWorker c text m audio CommandProcessor.Started])
       (CommandProcessor.starting cp),
     []).
Proof.
  intros He Hf.
  unfold CommandProcessor.process_command_call, CommandProcessor.process_command.
  rewrite He, Hf. unfold CommandProcessor.start_thread. simpl.
  rewrite bool_decide_eq_true_2.
  - unfold CommandProcessor.set_phase. simpl. by rewrite alter_last.
  - unfold CommandProcessor.phase_of. simpl.
    by rewrite lookup_app_r, Nat.sub_diag by lia.
Qed.

(** X17.  A recording that gives a buffer with data and a transcript
    that is not blank is handed to the command processor: the callback
    puts "transcribing" and the transcript cut to 40 characters, waits
    for the context, and submits the text with the snapshot the context
    manager then holds and the mode of the press, without audio.  An
    idle processor gets one new worker, started, with exactly these
    arguments; a busy processor is left as it is and the busy status is
    put.  The recorder, the action queue, the mode and the timers are
    not touched. *)
Theorem transcript_dispatched (st : state) (audio_buffer : option buffer)
    (text : string)
    (during : option (ContextManager.engine_result * ContextManager.engine_result)) :
  is_empty audio_buffer = false → all_space text = false →
  let st' := _process_recorded_audio audio_buffer (Transcript (Some text)) during st in
  let cm := (ContextManager.wait_for_context during (context_manager st)).2 in
  let cp := command_processor st in
  audio_recorder st' = audio_recorder st
  ∧ _action_queue st' = _action_queue st
  ∧ _mode st' = _mode st
  ∧ timers st' = timers st
  ∧ context_manager st' = cm
  ∧ if CommandProcessor._is_processing cp then
      command_processor st' = cp
      ∧ status_queue st'
        = status_queue st ++ [StatusMessage.TRANSCRIBING;
                              StatusMessage.TRANSCRIBED (str_prefix 40 text);
                              StatusMessage.BUSY]
    else
      CommandProcessor._is_processing (command_processor st') = true
      ∧ CommandProcessor._processing_thread (command_processor st')
        = Some (length (CommandProcessor.threads cp))
      ∧ CommandProcessor.threads (command_processor st')
        = CommandProcessor.threads cp
          ++ [CommandProcessor.mkWorker (ContextManager.get_current_context cm)
                text (Some (_mode st)) None CommandProcessor.Started]
      ∧ CommandProcessor.starting (command_processor st')
        = CommandProcessor.starting cp
      ∧ status_queue st'
        = status_queue st ++ [StatusMessage.TRANSCRIBING;
                              StatusMessage.TRANSCRIBED (str_prefix 40 text)].
Proof.
  intros He Ht st' cm cp. subst st' cm cp. unfold _process_recorded_audio.
  rewrite He, (blank_false text Ht).
  generalize (str_prefix 40 text). intros shown.
  cbn [_update_status command_processor context_manager _mode].
  destruct (CommandProcessor._is_processing (command_processor st)) eqn:Hbusy.
  - unfold CommandProcessor.process_command_call, CommandProcessor.process_command.
    rewrite (empty_command_text text Ht), Hbusy. simpl.
    split_and!; try done. by rewrite <- !app_assoc.
  - rewrite process_command_call_spawns by (done || by apply empty_command_text).
    simpl. split_and!; try done. by rewrite <- !app_assoc.
Qed.

Lemma transcript_dispatched_witness :
  let st := run [Press ACTION; Turn (Some (Some "Notes")); Lift; Turn None] init in
  is_empty (Some (BytesIO "RIFF")) = false
  ∧ all_space "new note" = false
  ∧ CommandProcessor.threads
      (command_processor
         (_process_recorded_audio (Some (BytesIO "RIFF"))
            (Transcript (Some "new note")) (Some (ContextManager.Ret (Some "body"),
                                                  ContextManager.Raise)) st))
    = CommandProcessor.threads (command_processor st)
      ++ [CommandProcessor.mkWorker
            (ContextManager.get_current_context
               (ContextManager.wait_for_context
                  (Some (ContextManager.Ret (Some "body"), ContextManager.Raise))
                  (context_manager st)).2)
            "new note" (Some (_mode st)) None CommandProcessor.Started].
Proof.
  intros st.
  assert (H1 : is_empty (Some (BytesIO "RIFF")) = false) by reflexivity.
  assert (H2 : all_space "new note" = false) by reflexivity.
  split_and!; [exact H1|exact H2|].
  destruct (transcript_dispatched st (Some (BytesIO "RIFF")) "new note"
              (Some (ContextManager.Ret (Some "body"), ContextManager.Raise))
              H1 H2) as (_ & _ & _ & _ & _ & Hcp).
  change (CommandProcessor._is_processing (command_processor st))
    with false in Hcp.
  destruct Hcp as (_ & _ & Hth & _). exact Hth.
Defined.

(** X18.  When the transcription raises, the callback reports the
    message of the exception after "transcribing" and stops: nothing is
    submitted to the command processor, the context manager is not
    waited for, and nothing else changes. *)
Theorem asr_failure_reported (st : state) (audio_buffer : option buffer)
    (msg : string)
    (during : option (ContextManager.engine_result * ContextManager.engine_result)) :
  is_empty audio_buffer = false →
  let st' := _process_recorded_audio audio_buffer (AsrError msg) during st in
  st' = mkState (command_processor st) (audio_recorder st) (context_manager st)
          (_mode st) (_action_queue st)
          (status_queue st ++ [StatusMessage.TRANSCRIBING; StatusMessage.ERROR msg])
          (timers st) (clock st).
Proof.
  intros He. unfold _process_recorded_audio. rewrite He.
  unfold _update_status. cbn [command_processor audio_recorder context_manager
    _mode _action_queue status_queue timers clock].
  by rewrite <- app_assoc.
Qed.

Lemma asr_failure_reported_witness :
  is_empty (Some (Bytes "RIFF")) = false
  ∧ _process_recorded_audio (Some (Bytes "RIFF")) (AsrError "no key") None init
    = mkState (command_processor init) (audio_recorder init) (context_manager init)
        (_mode init) (_action_queue init)
        (status_queue init ++ [StatusMessage.TRANSCRIBING; StatusMessage.ERROR "no key"])
        (timers init) (clock init).
Proof.
  assert (H : is_empty (Some (Bytes "RIFF")) = false) by reflexivity.
  split; [exact H|].
  exact (asr_failure_reported init (Some (Bytes "RIFF")) "no key" None H).
Defined.

(** X19.  A release of the hotkey while nothing is being recorded is
    without effect: once the event loop has taken the [STOP] action the
    runner is in the state it was in before the release. *)
Theorem release_when_idle (st : state) (info : ContextManager.window_info) :
  _action_queue st = [] →
  AudioRecorder.is_recording (audio_recorder st) = false →
  run [Lift; Turn info] st = st.
Proof.
  intros Hq Hrec. simpl. unfold stop_interaction, run_turn. rewrite Hq. simpl.
  unfold _handle_stop_recording, AudioRecorder.stop_recording. simpl.
  rewrite Hrec. simpl. destruct st; simpl in *. by subst.
Qed.

Lemma release_when_idle_witness :
  let st := run [Press DICTATION; Turn (Some (Some "Notes")); Lift; Turn None;
                 Monitor 0 None (Transcript None) None] init in
  _action_queue st = []
  ∧ AudioRecorder.is_recording (audio_recorder st) = false
  ∧ run [Lift; Turn None] st = st.
Proof.
  intros st.
  assert (H1 : _action_queue st = []) by reflexivity.
  assert (H2 : AudioRecorder.is_recording (audio_recorder st) = false)
    by reflexivity.
  split_and!; [exact H1|exact H2|exact (release_when_idle st None H1 H2)].
Defined.

(** The runner after a press over a window of a named application, a
    block of audio, and the release: the recorder waits for its monitor,
    which will hand the buffer to the runner's callback. *)
Lemma happy_capture (m : CommandMode) (info' : ContextManager.window_info)
    (a : ascii) (s : string) (c : AudioRecorder.chunk) (d : ascii) (ds : string) :
  let st5 := run [Press m; Turn (Some (Some (String a s))); Block 0 c; Lift;
                  Turn info'] init in
  command_processor st5 = CommandProcessor.init
  ∧ context_manager st5
    = ContextManager.mkState
        (mkContext (Some (String a s)) None None) (Some 0%nat)
        [ContextManager.mkFetch (String a s) (Some m) true]
  ∧ _mode st5 = m
  ∧ status_queue st5
    = [StatusMessage.HOTKEY_PRESSED; StatusMessage.RECORDING]
  ∧ _action_queue st5 = []
  ∧ AudioRecorder._monitor_target 0 (Some (String d ds))
      (audio_recorder st5)
    = ((AudioRecorder._monitor_target 0 (Some (String d ds))
          (audio_recorder st5)).1.1,
       [], Some (on_audio, Some (BytesIO (String d ds))))
  ∧ AudioRecorder.is_recording
      (AudioRecorder._monitor_target 0 (Some (String d ds))
         (audio_recorder st5)).1.1 = false.
Proof. vm_compute. repeat split; reflexivity. Qed.

(** X20.  One full interaction from a fresh runner: the hotkey is
    pressed in mode [m] over a window of application [name], a block of
    audio is captured, the hotkey is released, and the recording gives a
    buffer with data and a transcript that is not blank.  The command
    processor then has exactly one worker, started, whose arguments are
    the transcript, the mode of the press and the snapshot for [name]
    with whatever the context fetch returned in time ([None] fields when
    it did not); the statuses put are "hotkey pressed", "recording",
    "transcribing" and the transcript; the recorder has stopped. *)
Theorem press_to_worker (m : CommandMode) (info info' : ContextManager.window_info)
    (name : string) (c : AudioRecorder.chunk) (data text : string)
    (during : option (ContextManager.engine_result * ContextManager.engine_result)) :
  ContextManager.determined info = Some name →
  data ≠ EmptyString → all_space text = false →
  let st := run [Press m; Turn info; Block 0 c; Lift; Turn info';
                 Monitor 0 (Some data) (Transcript (Some text)) during] init in
  let found :=
    match during with
    | Some (full, cursor) => ContextManager.fetched (Some m) full cursor
    | None => (None, None)
    end in
  CommandProcessor.threads (command_processor st)
  = [CommandProcessor.mkWorker (mkContext (Some name) found.1 found.2)
       text (Some m) None CommandProcessor.Started]
  ∧ status_queue st
    = [StatusMessage.HOTKEY_PRESSED; StatusMessage.RECORDING;
       StatusMessage.TRANSCRIBING; StatusMessage.TRANSCRIBED (str_prefix 40 text)]
  ∧ AudioRecorder.is_recording (audio_recorder st) = false
  ∧ _action_queue st = [].
Proof.
  intros Hname Hdata Ht st found.
  assert (Hinfo : info = Some (Some name) ∧ str_truthy name = true).
  { destruct info as [[n|]|]; simpl in Hname; try done.
    destruct (str_truthy n) eqn:Hn; [|done]. by simplify_eq. }
  destruct Hinfo as [-> Htruthy].
  destruct name as [|a s]; [done|]. destruct data as [|d ds]; [done|].
  clear Hname Hdata Htruthy. subst st found.
  change (run [Press m; Turn (Some (Some (String a s))); Block 0 c; Lift;
               Turn info';
               Monitor 0 (Some (String d ds)) (Transcript (Some text)) during]
            init)
    with (run ([Press m; Turn (Some (Some (String a s))); Block 0 c; Lift;
                Turn info']
               ++ [Monitor 0 (Some (String d ds)) (Transcript (Some text)) during])
            init).
  rewrite run_snoc.
  destruct (happy_capture m info' a s c d ds)
    as (Hcp & Hcm & Hmode & Hsq & Hq & Hmon & Hoff).
  revert Hcp Hcm Hmode Hsq Hq Hmon Hoff.
  generalize (run [Press m; Turn (Some (Some (String a s))); Block 0 c; Lift;
                   Turn info'] init).
  intros st5 Hcp Hcm Hmode Hsq Hq Hmon Hoff. cbn [step].
  unfold monitor. rewrite Hmon.
  set (ar := (AudioRecorder._monitor_target 0 (Some (String d ds))
                (audio_recorder st5)).1.1) in *.
  cbn [perform foldl]. rewrite bool_decide_eq_true_2 by done.
  unfold _process_recorded_audio.
  change (is_empty (Some (BytesIO (String d ds)))) with false. cbv iota.
  rewrite (blank_false text Ht).
  generalize (str_prefix 40 text). intros shown.
  cbn [_update_status set_audio_recorder command_processor context_manager
       _mode status_queue audio_recorder _action_queue timers clock].
  rewrite Hcp, Hcm, Hmode.
  rewrite process_command_call_spawns by (done || by apply empty_command_text).
  cbn [perform foldl set_command_processor set_context_manager
       _update_status set_audio_recorder command_processor context_manager _mode status_queue audio_recorder
       _action_queue timers clock CommandProcessor.threads CommandProcessor.init
       app].
  rewrite Hsq, Hq. split_and!; [|done..].
  f_equal. f_equal.
  unfold ContextManager.wait_for_context, ContextManager.is_alive. simpl.
  destruct during as [[full cursor]|]; [|done].
  unfold ContextManager._fetch_target. simpl.
  by destruct m, full, cursor.
Qed.

Lemma press_to_worker_witness :
  let st := run [Press ACTION; Turn (Some (Some "Notes")); Block 0 [3; 4]; Lift;
                 Turn None;
                 Monitor 0 (Some "RIFF") (Transcript (Some "new note"))
                   (Some (ContextManager.Ret (Some "body"), ContextManager.Raise))]
              init in
  ContextManager.determined (Some (Some "Notes")) = Some "Notes"
  ∧ "RIFF" ≠ EmptyString
  ∧ all_space "new note" = false
  ∧ CommandProcessor.threads (command_processor st)
    = [CommandProcessor.mkWorker
         (mkContext (Some "Notes")
            (ContextManager.fetched (Some ACTION) (ContextManager.Ret (Some "body"))
               ContextManager.Raise).1
            (ContextManager.fetched (Some ACTION) (ContextManager.Ret (Some "body"))
               ContextManager.Raise).2)
         "new note" (Some ACTION) None CommandProcessor.Started].
Proof.
  intros st.
  assert (H1 : ContextManager.determined (Some (Some "Notes")) = Some "Notes")
    by reflexivity.
  assert (H2 : "RIFF" ≠ EmptyString) by discriminate.
  assert (H3 : all_space "new note" = false) by reflexivity.
  split_and!; [exact H1|exact H2|exact H3|].
  exact (proj1 (press_to_worker ACTION (Some (Some "Notes")) None "Notes" [3; 4]
                  "RIFF" "new note"
                  (Some (ContextManager.Ret (Some "body"), ContextManager.Raise))
                  H1 H2 H3)).
Defined.

End runner_more.

(** ** StatusMessage: matching a message to a member *)

Section status_more.
Import StatusEnum.

(** X21.  [from_custom_message] finds every member from its own value,
    and what it returns is justified: a member other than [TRANSCRIBED]
    and [ERROR] is returned only for the message that is its value, and
    these two only for a message with their prefix. *)
Theorem from_custom_message_exact :
  (∀ status, from_custom_message (value status) = Some status)
  ∧ ∀ message status,
      from_custom_message message = Some status →
      (status = TRANSCRIBED ∧ startswith "Transcribed: '" message = true)
      ∨ (status = ERROR ∧ startswith "Error: " message = true)
      ∨ message = value status.
Proof.
  split; [by intros []|].
  intros message status. unfold from_custom_message.
  destruct (startswith "Transcribed: '" message) eqn:Ht;
    [intros [= <-]; by left|].
  destruct (startswith "Error: " message) eqn:He;
    [intros [= <-]; right; by left|].
  intros [_ Heq]%find_some. right; right. by apply String.eqb_eq.
Qed.

Lemma from_custom_message_exact_witness :
  from_custom_message "Recording command..." = Some RECORDING
  ∧ ((RECORDING = TRANSCRIBED
      ∧ startswith "Transcribed: '" "Recording command..." = true)
     ∨ (RECORDING = ERROR ∧ startswith "Error: " "Recording command..." = true)
     ∨ "Recording command..." = value RECORDING).
Proof.
  assert (H : from_custom_message "Recording command..." = Some RECORDING)
    by reflexivity.
  split; [exact H|].
  exact (proj2 from_custom_message_exact "Recording command..." RECORDING H).
Defined.

(** X22.  The messages the pipeline formats: a transcript status is
    matched to [TRANSCRIBED] and a transcription error to [ERROR],
    whatever the text; the two final statuses of a command, "Processing
    successful" and "Error processing: ..." with any message, are
    matched to no member. *)
Theorem pipeline_messages_matched (text : string) (success : bool) :
  from_custom_message (StatusMessage.TRANSCRIBED text) = Some TRANSCRIBED
  ∧ from_custom_message (StatusMessage.ERROR text) = Some ERROR
  ∧ from_custom_message (CommandProcessor.final_status success text) = None.
Proof. split_and!; [done..|by destruct success]. Qed.

End status_more.
